(** * Legacy-alert migration of Grafana: a shallow embedding

    The development follows the Go sources of the migration package
    ([channel.go], [alert_rule.go], [migration.go]).  Go strings are byte
    strings and are modelled by [string]; [len] is [String.length]; Go's
    [int], [int64] and [time.Duration] are modelled by [Z]; Go maps are
    [gmap]s and sets ([map[string]struct{}]) are [gset]s.  What lives in
    other packages (random UID generator, encryption service, regular
    expressions, constants of [legacymodels] and [store]) is taken through
    type classes, one per Go package or interface.

    Part I holds the model, Part II the lemmas and theorems. *)

From Stdlib Require Import ZArith Ascii String List Sorted Permutation Lia.
From stdpp Require Import base gmap sets list strings sorting.

Set Warnings "-register-all,-clear-no-such-hyp".
Local Open Scope Z_scope.

(** * Part I: the model *)

(** ** Go strings and the [strings], [sort] and [regexp] helpers *)

Module Go.

(** [len(s)] *)
Definition len (s : string) : Z := Z.of_nat (String.length s).

(** the first [n] bytes of [s] *)
Fixpoint take (n : nat) (s : string) : string :=
  match n, s with
  | S n', String c s' => String c (take n' s')
  | _, _ => EmptyString
  end.

(** [s[:n]]: a slice expression panics when its bound is out of range;
    [None] stands for the run-time panic. *)
Definition slice_to (s : string) (n : Z) : option string :=
  if (n <? 0) || (len s <? n) then None else Some (take (Z.to_nat n) s).

(** [strings.Repeat] for a one-byte string *)
Fixpoint Repeat (c : ascii) (n : nat) : string :=
  match n with
  | O => EmptyString
  | S n' => String c (Repeat c n')
  end.

(** the byte of the double quote *)
Definition dquote : ascii := ascii_of_nat 34.

(** [strings.ReplaceAll(s, old, new)] where [old] and [new] are one byte
    long, as in every call of the sources *)
Fixpoint ReplaceAll (s : string) (old new : ascii) : string :=
  match s with
  | EmptyString => EmptyString
  | String c s' =>
      String (if decide (c = old) then new else c) (ReplaceAll s' old new)
  end.

(** [strings.Join] *)
Fixpoint Join (elems : list string) (sep : string) : string :=
  match elems with
  | [] => EmptyString
  | [s] => s
  | s :: rest => s +:+ sep +:+ Join rest sep
  end.

(** the order of Go strings: bytewise lexicographic *)
Definition string_le (s t : string) : Prop := String.leb s t = true.

#[global] Instance string_le_dec : RelDecision string_le.
Proof. intros s t. unfold string_le. apply _. Defined.

(** [sort.Strings] *)
Definition sort_Strings (l : list string) : list string :=
  merge_sort string_le l.

(** [regexp.QuoteMeta]: a backslash before each byte of [\.+*?()|[]{}^$] *)
Definition special : list ascii :=
  list_ascii_of_string "\.+*?()|[]{}^$".

Fixpoint QuoteMeta (s : string) : string :=
  match s with
  | EmptyString => EmptyString
  | String c s' =>
      if bool_decide (c ∈ special) then String "\"%char (String c (QuoteMeta s'))
      else String c (QuoteMeta s')
  end.

(** one hexadecimal digit, lower case *)
Definition hex_digit (n : Z) : ascii :=
  ascii_of_nat (Z.to_nat (if n <? 10 then 48 + n else 87 + n)).

(** [%x] of one byte: two digits *)
Definition hex_byte (b : Z) : string :=
  String (hex_digit (b / 16)) (String (hex_digit (b mod 16)) EmptyString).

(** [fmt.Sprintf("%.Nx", bytes)]: the precision limits the number of input
    bytes, each printed as two digits *)
Definition hex_prec (prec : nat) (bytes : list Z) : string :=
  fold_right (fun b acc => hex_byte b +:+ acc) EmptyString (firstn prec bytes).

(** the bytes of a string *)
Definition bytes_of (s : string) : list Z :=
  map (fun c => Z.of_nat (nat_of_ascii c)) (list_ascii_of_string s).

End Go.

(** ** [crypto/md5] *)

Module MD5.

Definition w32 (x : Z) : Z := x mod 4294967296.

Definition rotl (x : Z) (c : Z) : Z :=
  w32 (Z.lor (Z.shiftl x c) (Z.shiftr x (32 - c))).

Definition lnot32 (x : Z) : Z := 4294967295 - x.

Definition shifts : list Z :=
  [7; 12; 17; 22; 7; 12; 17; 22; 7; 12; 17; 22; 7; 12; 17; 22;
   5; 9; 14; 20; 5; 9; 14; 20; 5; 9; 14; 20; 5; 9; 14; 20;
   4; 11; 16; 23; 4; 11; 16; 23; 4; 11; 16; 23; 4; 11; 16; 23;
   6; 10; 15; 21; 6; 10; 15; 21; 6; 10; 15; 21; 6; 10; 15; 21].

Definition sines : list Z :=
  [3614090360; 3905402710; 606105819; 3250441966; 4118548399; 1200080426;
   2821735955; 4249261313; 1770035416; 2336552879; 4294925233; 2304563134;
   1804603682; 4254626195; 2792965006; 1236535329; 4129170786; 3225465664;
   643717713; 3921069994; 3593408605; 38016083; 3634488961; 3889429448;
   568446438; 3275163606; 4107603335; 1163531501; 2850285829; 4243563512;
   1735328473; 2368359562; 4294588738; 2272392833; 1839030562; 4259657740;
   2763975236; 1272893353; 4139469664; 3200236656; 681279174; 3936430074;
   3572445317; 76029189; 3654602809; 3873151461; 530742520; 3299628645;
   4096336452; 1126891415; 2878612391; 4237533241; 1700485571; 2399980690;
   4293915773; 2240044497; 1873313359; 4264355552; 2734768916; 1309151649;
   4149444226; 3174756917; 718787259; 3951481745].

(** the message with its padding: a [0x80] byte, zeros up to 56 modulo 64,
    and the bit length in eight little-endian bytes *)
Definition le_bytes (n : nat) (x : Z) : list Z :=
  map (fun i => (x / 2 ^ (8 * Z.of_nat i)) mod 256) (seq 0 n).

Definition pad (msg : list Z) : list Z :=
  let l := Z.of_nat (length msg) in
  let zeros := Z.to_nat ((55 - l) mod 64) in
  msg ++ [128] ++ List.repeat 0 zeros ++ le_bytes 8 (8 * l).

Definition le_word (bs : list Z) : Z :=
  fold_right (fun b acc => b + 256 * acc) 0 bs.

Fixpoint words (n : nat) (bs : list Z) : list Z :=
  match n with
  | O => []
  | S n' => le_word (firstn 4 bs) :: words n' (skipn 4 bs)
  end.

Definition round (M : list Z) (st : Z * Z * Z * Z) (i : nat) : Z * Z * Z * Z :=
  let '(a, b, c, d) := st in
  let iz := Z.of_nat i in
  let '(f, g) :=
    if iz <? 16 then (Z.lor (Z.land b c) (Z.land (lnot32 b) d), iz)
    else if iz <? 32 then (Z.lor (Z.land d b) (Z.land (lnot32 d) c), (5 * iz + 1) mod 16)
    else if iz <? 48 then (Z.lxor b (Z.lxor c d), (3 * iz + 5) mod 16)
    else (Z.lxor c (Z.lor b (lnot32 d)), (7 * iz) mod 16) in
  let f' := w32 (f + a + nth i sines 0 + nth (Z.to_nat g) M 0) in
  (d, w32 (b + rotl f' (nth i shifts 0)), b, c).

Definition block (st : Z * Z * Z * Z) (bs : list Z) : Z * Z * Z * Z :=
  let '(a0, b0, c0, d0) := st in
  let '(a, b, c, d) := fold_left (round (words 16 bs)) (seq 0 64) st in
  (w32 (a0 + a), w32 (b0 + b), w32 (c0 + c), w32 (d0 + d)).

Fixpoint blocks (n : nat) (st : Z * Z * Z * Z) (bs : list Z) : Z * Z * Z * Z :=
  match n with
  | O => st
  | S n' => blocks n' (block st (firstn 64 bs)) (skipn 64 bs)
  end.

(** [md5.Sum]: the sixteen bytes of the digest *)
Definition Sum (msg : list Z) : list Z :=
  let p := pad msg in
  let '(a, b, c, d) :=
    blocks (length p / 64) (1732584193, 4023233417, 2562383102, 271733878) p in
  le_bytes 4 a ++ le_bytes 4 b ++ le_bytes 4 c ++ le_bytes 4 d.

End MD5.

(** ** JSON: [encoding/json] raw messages and [simplejson] trees *)

Module Json.

(** A [json.RawMessage] that came out of a successful [json.Unmarshal] is a
    well-formed JSON text; it is modelled by its syntax tree.  The fields of
    an object keep the order of the text, duplicates included. *)
Inductive raw :=
| RNull
| RBool (b : bool)
| RNumber (lit : string)
| RString (s : string)
| RArray (elems : list raw)
| RObject (fields : list (string * raw)).

(** [json.Unmarshal(r, &b)] for [b] of type [bool] holding [cur]: [null]
    leaves the variable as it is, any other non-boolean is a type error. *)
Definition Unmarshal_bool (r : raw) (cur : bool) : option bool :=
  match r with
  | RBool b => Some b
  | RNull => Some cur
  | _ => None
  end.

(** ASCII letters to lower case, the other bytes unchanged *)
Definition lower_ascii (c : ascii) : ascii :=
  let n := nat_of_ascii c in
  if (65 <=? n)%nat && (n <=? 90)%nat then ascii_of_nat (n + 32) else c.

Fixpoint lower (s : string) : string :=
  match s with
  | EmptyString => EmptyString
  | String c s' => String (lower_ascii c) (lower s')
  end.

(** A key of the text matches the struct field tagged [json:"type"] when
    it is equal to the tag up to the case of its letters. *)
Definition matches_type (key : string) : bool := bool_decide (lower key = "type").

(** Decoding the fields of an object into [struct { Type string }]: the
    fields are visited in the order of the text, a later match overwrites an
    earlier one, [null] leaves the field as it is, and a value that is no
    string is a type error, which the decoder reports once the object is
    read. The result is the field and whether an error was met. *)
Fixpoint decode_fields (fields : list (string * raw)) (cur : string) (bad : bool) : string * bool :=
  match fields with
  | [] => (cur, bad)
  | (k, v) :: rest =>
      if matches_type k then
        match v with
        | RString s => decode_fields rest s bad
        | RNull => decode_fields rest cur bad
        | _ => decode_fields rest cur true
        end
      else decode_fields rest cur bad
  end.

(** [json.Unmarshal(r, &datasource)] for
    [var datasource struct { Type string `json:"type"` }] *)
Definition Unmarshal_datasource (r : raw) : option string :=
  match r with
  | RNull => Some ""
  | RObject fields =>
      let '(ty, bad) := decode_fields fields "" false in
      if bad then None else Some ty
  | _ => None
  end.

(** The [interface{}] tree inside a [simplejson.Json]. *)
Inductive sjson :=
| SNull
| SBool (b : bool)
| SNumber (lit : string)
| SString (s : string)
| SArray (elems : list sjson)
| SMap (m : gmap string sjson).

(** [j.Map()]: an error unless the tree is an object *)
Definition Map (j : sjson) : option (gmap string sjson) :=
  match j with
  | SMap m => Some m
  | _ => None
  end.

(** [j.Get(k).MustString()] for [j] holding the object [m] *)
Definition Get_MustString (m : gmap string sjson) (k : string) : string :=
  match m !! k with
  | Some (SString s) => s
  | _ => ""
  end.

End Json.

(** ** Errors, logs and the state the migration threads through *)

Module Mig.

(** [errors.New(msg)] and [fmt.Errorf("msg: %w", err)] *)
Inductive error :=
| New (msg : string)
| Wrap (msg : string) (e : error).

Inductive level := Debug | Info | Warn | Error.

(** [uidSet]: the UIDs generated so far *)
Record uidSet := {
  set : gset string;
  caseInsensitive : bool
}.

(** the state of the [migration] value: the seen UIDs, how many values the
    random generator has handed out, and the lines logged *)
Record state := {
  seenUIDs : uidSet;
  rnd : nat;
  logs : list (level * string)
}.

(** A computation that may fail: the state survives an error, as the
    mutations of a Go method do. *)
Definition M (A : Type) : Type := state -> (error + A) * state.

Definition ret {A} (a : A) : M A := fun st => (inr a, st).

Definition fail {A} (e : error) : M A := fun st => (inl e, st).

Definition bind {A B} (m : M A) (k : A -> M B) : M B :=
  fun st =>
    match m st with
    | (inl e, st') => (inl e, st')
    | (inr a, st') => k a st'
    end.

(** [l.Warn(msg, ...)] and the like *)
Definition log (lv : level) (msg : string) : M unit :=
  fun st =>
    (inr tt, {| seenUIDs := seenUIDs st; rnd := rnd st; logs := logs st ++ [(lv, msg)] |}).

(** [fmt.Errorf("msg: %w", err)] around a failing call *)
Definition wrap {A} (msg : string) (m : M A) : M A :=
  fun st =>
    match m st with
    | (inl e, st') => (inl (Wrap msg e), st')
    | r => r
    end.

(** a [for _, x := range xs] loop that carries [acc] and stops at the
    first error *)
Fixpoint foldM {A B} (f : B -> A -> M B) (acc : B) (xs : list A) : M B :=
  match xs with
  | [] => ret acc
  | x :: xs' => bind (f acc x) (fun acc' => foldM f acc' xs')
  end.

End Mig.

Notation "'let!' x ':=' m 'in' k" := (Mig.bind m (fun x => k))
  (at level 10, x pattern, m at level 100, k at level 200).
Notation "'run!' m 'in' k" := (Mig.bind m (fun _ => k))
  (at level 10, m at level 100, k at level 200).

(** ** What other packages provide *)

(** [strings.ToLower] *)
Class StringsPkg := { ToLower : string -> string }.

(** [util.GenerateShortUID]: the [n]-th value the random generator hands out *)
Class UtilPkg := { GenerateShortUID : nat -> string }.

(** [secrets.Service.Encrypt] ([None] is an error), [SecureJsonData.Decrypt]
    on one value, and [base64.StdEncoding.EncodeToString] *)
Class SecretsPkg := {
  Encrypt : string -> option string;
  Decrypt : string -> string;
  EncodeToString : string -> string
}.

(** [regexp]: whether a pattern compiles *)
Class RegexpPkg := { compiles : string -> bool }.

(** the order in which a [range] statement visits a map is unspecified *)
Class RangeOrder := {
  range : forall {A}, gmap Z A -> list (Z * A);
  range_perm : forall A (m : gmap Z A), range m ≡ₚ map_to_list m
}.

(** constants of [legacymodels], [ngmodels], [model] and [store], and the
    label [ContactLabel] *)
Class Constants := {
  NoDataSetOK : string;
  NoDataSetNoData : string;
  NoDataSetAlerting : string;
  NoDataKeepState : string;
  ExecutionErrorSetAlerting : string;
  ExecutionErrorKeepState : string;
  ExecutionErrorSetOk : string;
  ContactLabel : string;
  FolderTitleLabel : string;
  AlertNameLabel : string;
  AlertDefinitionMaxTitleLength : Z
}.

(** ** Data of the packages [legacymodels], [apimodels], [ngmodels],
    [labels] and [dashboards] *)

(** [legacymodels.AlertNotification], a row of the table [alert_notification] *)
Module AlertNotification.
Record t := {
  ID : Z;
  OrgID : Z;
  UID : string;
  Name : string;
  Type_ : string;
  DisableResolveMessage : bool;
  IsDefault : bool;
  Settings : Json.sjson;
  SecureSettings : gmap string string;
  SendReminder : bool;
  Frequency : Z
}.
End AlertNotification.

(** [apimodels.PostableGrafanaReceiver]; [Settings] holds the tree whose
    marshalled text the Go field carries *)
Module PostableGrafanaReceiver.
Record t := {
  UID : string;
  Name : string;
  Type_ : string;
  DisableResolveMessage : bool;
  Settings : Json.sjson;
  SecureSettings : gmap string string
}.
End PostableGrafanaReceiver.

(** [apimodels.PostableApiReceiver] *)
Module PostableApiReceiver.
Record t := {
  Name : string;
  GrafanaManagedReceivers : list PostableGrafanaReceiver.t
}.
End PostableApiReceiver.

(** [labels.Matcher] *)
Module Matcher.
Inductive MatchType := MatchEqual | MatchNotEqual | MatchRegexp | MatchNotRegexp.
Record t := {
  Type_ : MatchType;
  Name : string;
  Value : string
}.
End Matcher.

(** [apimodels.Route]; a nil [RepeatInterval] is [None] *)
Module Route.
Inductive t := mk {
  Receiver : string;
  GroupByStr : list string;
  ObjectMatchers : list Matcher.t;
  Continue : bool;
  Routes : list t;
  RepeatInterval : option Z
}.
End Route.

(** [apimodels.PostableUserConfig], of which the migration fills the field
    [AlertmanagerConfig]: its receivers and its root route (nil is [None]) *)
Module PostableUserConfig.
Record t := {
  Receivers : list PostableApiReceiver.t;
  Route : option Route.t
}.
End PostableUserConfig.

(** the fields of [ngmodels.AlertRule] the functions below touch *)
Module AlertRule.
Record t := {
  OrgID : Z;
  Title : string;
  UID : string;
  NamespaceUID : string;
  RuleGroup : string;
  Labels : gmap string string
}.
End AlertRule.

(** the fields of [dashboards.Dashboard] the migration reads *)
Module Dashboard.
Record t := {
  ID : Z;
  OrgID : Z;
  UID : string;
  Title : string;
  FolderID : Z;
  HasACL : bool
}.
End Dashboard.

(** [migmodels.DashboardUpgrade]: [MigratedAlerts] lists the pairs of the Go
    map in the order the [range] visits them; a nil [AlertRule] is [None] and
    carries its UID otherwise *)
Module DashboardUpgrade.
Record AlertPair := {
  AlertRule : option string
}.
Record t := {
  MigratedAlerts : list AlertPair;
  FolderUID : string;
  NewFolderUID : string;
  NewFolderName : string
}.
End DashboardUpgrade.

(** [alertingNotify.BuildReceiverConfiguration] on one integration: [None]
    when the settings are valid *)
Class NotifyPkg := {
  BuildReceiverConfiguration : PostableGrafanaReceiver.t -> option Mig.error
}.

(** the calls a function makes on the migration store and the rule store *)
Inductive StoreCall :=
| DeleteAlertRules (orgID : Z) (ruleUids : list string)
| DeleteFolders (orgID : Z) (uid : string)
| InsertAlertRules (rules : list AlertRule.t).

(** whether a call on a store fails *)
Class StorePkg := { store_error : StoreCall -> option Mig.error }.

(** the fields of [ngmodels.AlertQuery] the migration reads; [Model] holds
    a JSON text *)
Module AlertQuery.
Record t := {
  RefID : string;
  DatasourceUID : string;
  Model : Json.raw
}.
End AlertQuery.

(** the names of the model fields of the package [graphite] *)
Class GraphitePkg := {
  TargetFullModelField : string;
  TargetModelField : string
}.

(** ** Maps of raw messages: decoding and encoding *)

Module JsonMap.
Import Go.

(** [json.Unmarshal(r, &m)] for [m] a nil [map[string]json.RawMessage]:
    [None] is an error, [Some None] leaves the map nil ([null]), and an
    object gives its fields, a later field overwriting an earlier one of the
    same name. *)
Definition Unmarshal_map (r : Json.raw) : option (option (gmap string Json.raw)) :=
  match r with
  | Json.RNull => Some None
  | Json.RObject fields => Some (Some (list_to_map (reverse fields)))
  | _ => None
  end.

Definition key_le (a b : string * Json.raw) : Prop := string_le a.1 b.1.

#[global] Instance key_le_dec : RelDecision key_le.
Proof. intros a b. unfold key_le. apply _. Defined.

(** [json.Marshal(m)]: a nil map is [null]; the keys of an object are
    written in the order of the strings *)
Definition Marshal_map (m : option (gmap string Json.raw)) : Json.raw :=
  match m with
  | None => Json.RNull
  | Some m => Json.RObject (merge_sort key_le (map_to_list m))
  end.

End JsonMap.

(** an entry of [dashAlertSettings.Notifications]: a channel named by its
    UID or by its ID *)
Module DashAlertNot.
Record t := {
  UID : string;
  ID : Z
}.
End DashAlertNot.

(** [migrationStore.GetAlertNotificationUidWithId(ctx, orgID, id)]: the UID
    and the error the store returns *)
Class MigrationStorePkg := {
  GetAlertNotificationUidWithId : Z -> Z -> string * option Mig.error
}.

(** a tag of a legacy alert, as [alert.GetTagsFromSettings()] returns it *)
Module Tag.
Record t := {
  Key : string;
  Value : string
}.
End Tag.

(** the fields of [legacymodels.Alert] that [addLabelsAndAnnotations] reads;
    [Tags] is what [alert.GetTagsFromSettings()] returns *)
Module Alert.
Record t := {
  ID : Z;
  PanelID : Z;
  Message : string;
  Tags : list Tag.t
}.
End Alert.

(** the label and annotation names of [migmodels] and [ngmodels], the
    template migration [MigrateTmpl] and [fmt.Sprintf("%v", n)] on an
    [int64] *)
Class LabelsPkg := {
  UseLegacyChannelsLabel : string;
  DashboardUIDAnnotation : string;
  PanelIDAnnotation : string;
  MigrateTmpl : string -> string;
  FormatInt : Z -> string
}.

(** ** The package [migration] *)

Module Migration.
Import Go Mig.

(** *** [migration.go]: the set of seen UIDs *)

Definition dedup_key `{StringsPkg} (s : uidSet) (uid : string) : string :=
  if caseInsensitive s then ToLower uid else uid.

Definition contains `{StringsPkg} (s : uidSet) (uid : string) : bool :=
  bool_decide (dedup_key s uid ∈ set s).

Definition add `{StringsPkg} (s : uidSet) (uid : string) : uidSet :=
  {| set := {[dedup_key s uid]} ∪ set s; caseInsensitive := caseInsensitive s |}.

(** the loop of [generateUid] with [attempts] iterations left *)
Fixpoint generateUid_loop `{StringsPkg} `{UtilPkg} (attempts : nat) : M string :=
  match attempts with
  | O => fail (New "failed to generate UID")
  | S attempts' => fun st =>
      let gen := GenerateShortUID (rnd st) in
      let st1 := {| seenUIDs := seenUIDs st; rnd := S (rnd st); logs := logs st |} in
      if contains (seenUIDs st1) gen then generateUid_loop attempts' st1
      else (inr gen,
            {| seenUIDs := add (seenUIDs st1) gen; rnd := rnd st1; logs := logs st1 |})
  end.

Definition generateUid `{StringsPkg} `{UtilPkg} : M string := generateUid_loop 5.

(** *** [channel.go] *)

(** 8736 hours, in nanoseconds *)
Definition DisabledRepeatInterval : Z := 8736 * (3600 * 1000000000).

(** [uidOrID]: a channel UID (a string) or a channel ID (an [int64]) *)
Definition uidOrID : Type := string + Z.

Record channelReceiver := {
  channel : AlertNotification.t;
  receiver : PostableApiReceiver.t
}.

Definition quote (s : string) : string :=
  String dquote s +:+ String dquote EmptyString.

Definition contactListToString (m : gset string) : string :=
  let keys := quote <$> elements m in
  Join (sort_Strings keys) ",".

Definition determineChannelUid `{StringsPkg} `{UtilPkg} (c : AlertNotification.t) : M string :=
  let legacyUid := AlertNotification.UID c in
  if decide (legacyUid = "") then
    let! newUid := generateUid in
    run! log Info "Legacy notification had an empty uid, generating a new one" in
    ret newUid
  else fun st =>
    if contains (seenUIDs st) legacyUid then
      (let! newUid := generateUid in
       run! log Warn "Legacy notification had a UID that collides with a migrated record, generating a new one" in
       ret newUid) st
    else (inr legacyUid, st).

Definition secureKeysToMigrate : gmap string (list string) :=
  list_to_map [
    ("slack", ["url"; "token"]);
    ("pagerduty", ["integrationKey"]);
    ("webhook", ["password"]);
    ("prometheus-alertmanager", ["basicAuthPassword"]);
    ("opsgenie", ["apiKey"]);
    ("telegram", ["bottoken"]);
    ("line", ["token"]);
    ("pushover", ["apiToken"; "userKey"]);
    ("threema", ["api_secret"])
  ].

(** the encryption service returns a ciphertext for [v] *)
Definition encrypts `{SecretsPkg} (v : string) : Prop := is_Some (Encrypt v).

(** [encryptSecureSettings]: every value is replaced by its encoded
    ciphertext; a value that does not encrypt ends the loop with an error *)
Definition encryptSecureSettings `{SecretsPkg} (secureSettings : gmap string string)
  : M (gmap string string) :=
  if decide (map_Forall (fun _ v => encrypts v) secureSettings) then
    ret ((fun v => from_option EncodeToString "" (Encrypt v)) <$> secureSettings)
  else fail (Wrap "failed to encrypt secure settings" (New "encrypt")).

(** one iteration of the loop over the keys to migrate *)
Definition migrateKey (acc : gmap string Json.sjson * gmap string string) (k : string)
  : gmap string Json.sjson * gmap string string :=
  let '(cloneSettings, newSecureSettings) := acc in
  match newSecureSettings !! k with
  | Some (String _ _) => acc
  | _ =>
      let sv := Json.Get_MustString cloneSettings k in
      if decide (sv = "") then acc
      else (delete k cloneSettings, <[k := sv]> newSecureSettings)
  end.

Definition migrateSettingsToSecureSettings `{SecretsPkg}
    (chanType : string) (settings : Json.sjson) (secureSettings : gmap string string)
  : M (gmap string Json.sjson * gmap string string) :=
  let keys := default [] (secureKeysToMigrate !! chanType) in
  let newSecureSettings := Decrypt <$> secureSettings in
  match Json.Map settings with
  | None => fail (New "type assertion to map[string]interface{} failed")
  | Some settingsMap =>
      let cloneSettings := settingsMap in
      let '(cloneSettings, newSecureSettings) :=
        fold_left migrateKey keys (cloneSettings, newSecureSettings) in
      let! newSecureSettings := encryptSecureSettings newSecureSettings in
      ret (cloneSettings, newSecureSettings)
  end.

Definition createNotifier `{StringsPkg} `{UtilPkg} `{SecretsPkg} (c : AlertNotification.t)
  : M PostableGrafanaReceiver.t :=
  let! uid := determineChannelUid c in
  let! (settings, secureSettings) :=
    migrateSettingsToSecureSettings (AlertNotification.Type_ c)
      (AlertNotification.Settings c) (AlertNotification.SecureSettings c) in
  ret {| PostableGrafanaReceiver.UID := uid;
         PostableGrafanaReceiver.Name := AlertNotification.Name c;
         PostableGrafanaReceiver.Type_ := AlertNotification.Type_ c;
         PostableGrafanaReceiver.DisableResolveMessage := AlertNotification.DisableResolveMessage c;
         PostableGrafanaReceiver.Settings := Json.SMap settings;
         PostableGrafanaReceiver.SecureSettings := secureSettings |}.

Definition with_Name (n : PostableGrafanaReceiver.t) (name : string) : PostableGrafanaReceiver.t :=
  {| PostableGrafanaReceiver.UID := PostableGrafanaReceiver.UID n;
     PostableGrafanaReceiver.Name := name;
     PostableGrafanaReceiver.Type_ := PostableGrafanaReceiver.Type_ n;
     PostableGrafanaReceiver.DisableResolveMessage := PostableGrafanaReceiver.DisableResolveMessage n;
     PostableGrafanaReceiver.Settings := PostableGrafanaReceiver.Settings n;
     PostableGrafanaReceiver.SecureSettings := PostableGrafanaReceiver.SecureSettings n |}.

(** the short hash [fmt.Sprintf("_%.3x", md5.Sum([]byte(name)))] *)
Definition hash_suffix (name : string) : string :=
  "_" +:+ hex_prec 3 (MD5.Sum (bytes_of name)).

(** what the loop of [createReceivers] carries: the receivers, the map
    from UID or ID to receiver, and the set of names given out *)
Definition receivers_acc : Type :=
  list channelReceiver * gmap uidOrID PostableApiReceiver.t * gset string.

Definition createReceivers_step `{StringsPkg} `{UtilPkg} `{SecretsPkg}
    (acc : receivers_acc) (c : AlertNotification.t) : M receivers_acc :=
  let '(receivers, receiversMap, set) := acc in
  let! notifier := createNotifier c in
  let sanitizedName := ReplaceAll (AlertNotification.Name c) dquote "_" in
  let! sanitizedName :=
    (if bool_decide (sanitizedName ∈ set) then
       let sanitizedName := sanitizedName +:+ hash_suffix (AlertNotification.Name c) in
       run! log Warn "Alert contains duplicate contact name after sanitization, appending unique suffix" in
       ret sanitizedName
     else ret sanitizedName) in
  let notifier := with_Name notifier sanitizedName in
  let set := {[sanitizedName]} ∪ set in
  let cr := {| channel := c;
               receiver := {| PostableApiReceiver.Name := sanitizedName;
                              PostableApiReceiver.GrafanaManagedReceivers := [notifier] |} |} in
  let receivers := receivers ++ [cr] in
  let receiversMap :=
    if decide (AlertNotification.UID c = "") then receiversMap
    else <[inl (AlertNotification.UID c) := receiver cr]> receiversMap in
  let receiversMap :=
    if decide (AlertNotification.ID c = 0) then receiversMap
    else <[inr (AlertNotification.ID c) := receiver cr]> receiversMap in
  ret (receivers, receiversMap, set).

Definition createReceivers `{StringsPkg} `{UtilPkg} `{SecretsPkg}
    (allChannels : list AlertNotification.t)
  : M (gmap uidOrID PostableApiReceiver.t * list channelReceiver) :=
  let! (receivers, receiversMap, _) := foldM createReceivers_step ([], ∅, ∅) allChannels in
  ret (receiversMap, receivers).

Definition defaultReceiverName : string := "autogen-contact-point-default".

Definition with_notifier (r : PostableApiReceiver.t) (n : PostableGrafanaReceiver.t)
  : PostableApiReceiver.t :=
  {| PostableApiReceiver.Name := PostableApiReceiver.Name r;
     PostableApiReceiver.GrafanaManagedReceivers :=
       PostableApiReceiver.GrafanaManagedReceivers r ++ [n] |}.

(** one iteration of the loop over several default channels *)
Definition defaultReceiver_step `{StringsPkg} `{UtilPkg} `{SecretsPkg}
    (acc : PostableApiReceiver.t * Z) (c : AlertNotification.t)
  : M (PostableApiReceiver.t * Z) :=
  let '(newDefaultReceiver, repeatInterval) := acc in
  let! defaultNotifier := createNotifier c in
  ret (with_notifier newDefaultReceiver defaultNotifier,
       if AlertNotification.SendReminder c && (AlertNotification.Frequency c <? repeatInterval)
       then AlertNotification.Frequency c else repeatInterval).

(** The returned receiver is [None] when no receiver is made for the root
    route. The three arms are [len(defaultChannels) == 0], the [else] arm
    (one channel) and [len(defaultChannels) > 1]. *)
Definition createDefaultRouteAndReceiver `{StringsPkg} `{UtilPkg} `{SecretsPkg} `{Constants}
    (defaultChannels : list AlertNotification.t)
  : M (option PostableApiReceiver.t * Route.t) :=
  let defaultRoute (recv : string) (repeatInterval : option Z) :=
    {| Route.Receiver := recv;
       Route.GroupByStr := [FolderTitleLabel; AlertNameLabel];
       Route.ObjectMatchers := [];
       Route.Continue := false;
       Route.Routes := [];
       Route.RepeatInterval := repeatInterval |} in
  let newDefaultReceiver :=
    {| PostableApiReceiver.Name := defaultReceiverName;
       PostableApiReceiver.GrafanaManagedReceivers := [] |} in
  match defaultChannels with
  | [] => ret (Some newDefaultReceiver, defaultRoute defaultReceiverName None)
  | [c0] =>
      let repeatInterval :=
        if AlertNotification.SendReminder c0 then AlertNotification.Frequency c0
        else DisabledRepeatInterval in
      ret (None, defaultRoute (AlertNotification.Name c0) (Some repeatInterval))
  | _ =>
      let! (newDefaultReceiver, repeatInterval) :=
        foldM defaultReceiver_step (newDefaultReceiver, DisabledRepeatInterval) defaultChannels in
      ret (Some newDefaultReceiver, defaultRoute defaultReceiverName (Some repeatInterval))
  end.

(** [labels.NewMatcher]: a regular-expression matcher compiles the anchored
    pattern *)
Definition NewMatcher `{RegexpPkg} (t : Matcher.MatchType) (n v : string)
  : error + Matcher.t :=
  let m := {| Matcher.Type_ := t; Matcher.Name := n; Matcher.Value := v |} in
  match t with
  | Matcher.MatchRegexp | Matcher.MatchNotRegexp =>
      if compiles ("^(?:" +:+ v +:+ ")$") then inr m
      else inl (New "error parsing regexp")
  | _ => inr m
  end.

Definition createRoute `{RegexpPkg} `{Constants} (cr : channelReceiver) : error + Route.t :=
  let name := ".*" +:+ QuoteMeta (quote (PostableApiReceiver.Name (receiver cr))) +:+ ".*" in
  match NewMatcher Matcher.MatchRegexp ContactLabel name with
  | inl err => inl err
  | inr mat =>
      let repeatInterval :=
        if AlertNotification.SendReminder (channel cr)
        then AlertNotification.Frequency (channel cr)
        else DisabledRepeatInterval in
      inr {| Route.Receiver := PostableApiReceiver.Name (receiver cr);
             Route.GroupByStr := [];
             Route.ObjectMatchers := [mat];
             Route.Continue := true;
             Route.Routes := [];
             Route.RepeatInterval := Some repeatInterval |}
  end.

(** the closure [coveredByDefault] *)
Definition coveredByDefault (defaultReceivers names : gset string) : bool :=
  bool_decide (set_Forall (fun n => n ∈ defaultReceivers) names).

(** the loop that resolves the channels of a rule *)
Definition filter_step (receivers : gmap uidOrID PostableApiReceiver.t)
    (filteredReceiverNames : gset string) (uidOrId : uidOrID) : M (gset string) :=
  match receivers !! uidOrId with
  | Some recv => ret ({[PostableApiReceiver.Name recv]} ∪ filteredReceiverNames)
  | None =>
      run! log Warn "Alert linked to obsolete notification channel, ignoring" in
      ret filteredReceiverNames
  end.

(** A nil map is the empty set: the caller only takes its length. *)
Definition filterReceiversForAlert (name : string) (channelIDs : list uidOrID)
    (receivers : gmap uidOrID PostableApiReceiver.t) (defaultReceivers : gset string)
  : M (gset string) :=
  match channelIDs with
  | [] => ret ∅
  | _ =>
      let! filteredReceiverNames := foldM (filter_step receivers) ∅ channelIDs in
      if bool_decide (size filteredReceiverNames = 0%nat)
         || coveredByDefault defaultReceivers filteredReceiverNames
      then ret ∅
      else ret (filteredReceiverNames ∪ defaultReceivers)
  end.

Definition discontinued (c : AlertNotification.t) : bool :=
  bool_decide (AlertNotification.Type_ c = "hipchat")
  || bool_decide (AlertNotification.Type_ c = "sensu").

(** [m[k] = append(m[k], c)] *)
Definition append_at (m : gmap Z (list AlertNotification.t)) (k : Z) (c : AlertNotification.t)
  : gmap Z (list AlertNotification.t) :=
  <[k := default [] (m !! k) ++ [c]]> m.

Definition channelMap_step
    (acc : gmap Z (list AlertNotification.t) * gmap Z (list AlertNotification.t))
    (c : AlertNotification.t)
  : M (gmap Z (list AlertNotification.t) * gmap Z (list AlertNotification.t)) :=
  let '(allChannelsMap, defaultChannelsMap) := acc in
  if discontinued c then
    run! log Error "Alert migration error: discontinued notification channel found" in
    ret acc
  else
    let allChannelsMap := append_at allChannelsMap (AlertNotification.OrgID c) c in
    let defaultChannelsMap :=
      if AlertNotification.IsDefault c
      then append_at defaultChannelsMap (AlertNotification.OrgID c) c
      else defaultChannelsMap in
    ret (allChannelsMap, defaultChannelsMap).

(** [query] is what the SQL query over [alert_notification] gives: an
    error or the rows. Nil maps are empty maps. *)
Definition getNotificationChannelMap (query : error + list AlertNotification.t)
  : M (gmap Z (list AlertNotification.t) * gmap Z (list AlertNotification.t)) :=
  match query with
  | inl err => fail err
  | inr [] => ret (∅, ∅)
  | inr allChannels => foldM channelMap_step (∅, ∅) allChannels
  end.

(** *** [migration.go]: validation of the produced configuration *)

Definition validateAlertmanagerConfig `{NotifyPkg} (config : PostableUserConfig.t)
  : option error :=
  list_find is_Some
    (BuildReceiverConfiguration <$>
       concat (PostableApiReceiver.GrafanaManagedReceivers <$> PostableUserConfig.Receivers config))
  ≫= snd.

(** *** [channel.go]: the configuration of every organisation *)

Definition with_label (ar : AlertRule.t) (k v : string) : AlertRule.t :=
  {| AlertRule.OrgID := AlertRule.OrgID ar;
     AlertRule.Title := AlertRule.Title ar;
     AlertRule.UID := AlertRule.UID ar;
     AlertRule.NamespaceUID := AlertRule.NamespaceUID ar;
     AlertRule.RuleGroup := AlertRule.RuleGroup ar;
     AlertRule.Labels := <[k := v]> (AlertRule.Labels ar) |}.

(** the body of the loop over the rules of an organisation *)
Definition label_rule `{Constants}
    (receiversMap : gmap uidOrID PostableApiReceiver.t) (defaultReceivers : gset string)
    (done : list (AlertRule.t * list uidOrID)) (arc : AlertRule.t * list uidOrID)
  : M (list (AlertRule.t * list uidOrID)) :=
  let '(ar, channelUids) := arc in
  let! filteredReceiverNames :=
    filterReceiversForAlert (AlertRule.Title ar) channelUids receiversMap defaultReceivers in
  if bool_decide (size filteredReceiverNames = 0%nat) then ret (done ++ [arc])
  else ret (done ++ [(with_label ar ContactLabel (contactListToString filteredReceiverNames),
                      channelUids)]).

Definition route_step `{RegexpPkg} `{Constants} (routes : list Route.t) (cr : channelReceiver)
  : M (list Route.t) :=
  match createRoute cr with
  | inl err => fail (Wrap "failed to create route for receiver %s in orgId %d" err)
  | inr route => ret (routes ++ [route])
  end.

Definition with_Routes (r : Route.t) (routes : list Route.t) : Route.t :=
  {| Route.Receiver := Route.Receiver r;
     Route.GroupByStr := Route.GroupByStr r;
     Route.ObjectMatchers := Route.ObjectMatchers r;
     Route.Continue := Route.Continue r;
     Route.Routes := Route.Routes r ++ routes;
     Route.RepeatInterval := Route.RepeatInterval r |}.

(** what the loop over the organisations carries: the configurations and
    the rules, whose labels the loop writes through their pointers *)
Definition setup_acc : Type :=
  gmap Z PostableUserConfig.t * gmap Z (list (AlertRule.t * list uidOrID)).

(** the body of the loop over the organisations that have channels *)
Definition setup_step `{StringsPkg} `{UtilPkg} `{SecretsPkg} `{RegexpPkg} `{NotifyPkg} `{Constants}
    (defaultChannelsPerOrg : gmap Z (list AlertNotification.t))
    (acc : setup_acc) (oc : Z * list AlertNotification.t) : M setup_acc :=
  let '(amConfigPerOrg, rulesPerOrg) := acc in
  let '(orgID, channels) := oc in
  let amConfigPerOrg :=
    <[orgID := {| PostableUserConfig.Receivers := []; PostableUserConfig.Route := None |}]>
      amConfigPerOrg in
  let! (receiversMap, receivers) :=
    wrap "failed to create receiver in orgId %d" (createReceivers channels) in
  match receivers with
  | [] =>
      run! log Warn "No available receivers" in
      ret (amConfigPerOrg, rulesPerOrg)
  | _ =>
      let amReceivers := receiver <$> receivers in
      let defaultChannels := default [] (defaultChannelsPerOrg !! orgID) in
      let defaultReceivers : gset string :=
        list_to_set (AlertNotification.Name <$> defaultChannels) in
      let! (defaultReceiver, defaultRoute) :=
        wrap "failed to create default route & receiver in orgId %d"
          (createDefaultRouteAndReceiver defaultChannels) in
      let amReceivers := amReceivers ++ option_list defaultReceiver in
      let! routes := foldM route_step [] receivers in
      let amConfig :=
        {| PostableUserConfig.Receivers := amReceivers;
           PostableUserConfig.Route := Some (with_Routes defaultRoute routes) |} in
      let amConfigPerOrg := <[orgID := amConfig]> amConfigPerOrg in
      let! rulesPerOrg :=
        match rulesPerOrg !! orgID with
        | None => ret rulesPerOrg
        | Some rules =>
            let! rules := foldM (label_rule receiversMap defaultReceivers) [] rules in
            ret (<[orgID := rules]> rulesPerOrg)
        end in
      match validateAlertmanagerConfig amConfig with
      | Some err => fail (Wrap "failed to validate AlertmanagerConfig in orgId %d" err)
      | None => ret (amConfigPerOrg, rulesPerOrg)
      end
  end.

Definition setupAlertmanagerConfigs
    `{StringsPkg} `{UtilPkg} `{SecretsPkg} `{RegexpPkg} `{NotifyPkg} `{Constants} `{RangeOrder}
    (query : error + list AlertNotification.t)
    (rulesPerOrg : gmap Z (list (AlertRule.t * list uidOrID)))
  : M setup_acc :=
  let! (allChannelsPerOrg, defaultChannelsPerOrg) :=
    wrap "failed to load notification channels" (getNotificationChannelMap query) in
  foldM (setup_step defaultChannelsPerOrg) (∅, rulesPerOrg) (range allChannelsPerOrg).

(** *** [alert_rule.go] *)

(** [OrgMigration]: the organisation and the folders its migration created *)
Record OrgMigration := {
  orgID : Z;
  CreatedFolders : list string
}.

(** the loop that removes the first occurrence of [uid] from the created
    folders; the flag is [found] *)
Fixpoint remove_first (uid : string) (created : list string) : bool * list string :=
  match created with
  | [] => (false, [])
  | u :: rest =>
      if decide (u = uid) then (true, rest)
      else let '(found, rest') := remove_first uid rest in (found, u :: rest')
  end.

Definition rule_uid (pair : DashboardUpgrade.AlertPair) : option string :=
  match DashboardUpgrade.AlertRule pair with
  | Some (String c s) => Some (String c s)
  | _ => None
  end.

(** The result is the calls made on the store, the migration afterwards
    and the error returned (nil is [None]). *)
Definition cleanupDashboardAlerts `{StorePkg} (om : OrgMigration) (du : option DashboardUpgrade.t)
  : list StoreCall * OrgMigration * option error :=
  match du with
  | None => ([], om, None)
  | Some du =>
      let ruleUids := omap rule_uid (DashboardUpgrade.MigratedAlerts du) in
      let '(calls, err) :=
        match ruleUids with
        | [] => ([], None)
        | _ =>
            let call := DeleteAlertRules (orgID om) ruleUids in
            ([call], store_error call)
        end in
      match err with
      | Some err => (calls, om, Some (Wrap "delete existing alert rules" err))
      | None =>
          if decide (DashboardUpgrade.NewFolderUID du <> ""
                     /\ DashboardUpgrade.NewFolderUID du <> DashboardUpgrade.FolderUID du)
          then
            let '(found, created) :=
              remove_first (DashboardUpgrade.NewFolderUID du) (CreatedFolders om) in
            let om := {| orgID := orgID om; CreatedFolders := created |} in
            if found then
              let call := DeleteFolders (orgID om) (DashboardUpgrade.NewFolderUID du) in
              match store_error call with
              | Some err => (calls ++ [call], om, Some (Wrap "delete folder '%s'" err))
              | None => (calls ++ [call], om, None)
              end
            else (calls, om, None)
          else (calls, om, None)
      end
  end.

(** [isPrometheusQuery] *)
Definition isPrometheusQuery (queryData : gmap string Json.raw) : error + bool :=
  match queryData !! "datasource" with
  | None => inl (New "missing datasource field")
  | Some ds =>
      match Json.Unmarshal_datasource ds with
      | None => inl (Wrap "parse datasource '%s'" (New "json"))
      | Some ty =>
          if decide (ty = "") then inl (New "missing type field '%s'")
          else inr (bool_decide (ty = "prometheus"))
      end
  end.

(** what is logged when a flag does not parse *)
Definition parse_failure (queryData : gmap string Json.raw) (msg : string)
  : list (level * string) :=
  match isPrometheusQuery queryData with
  | inr true => [(Info, msg)]
  | _ => []
  end.

(** [fixPrometheusBothTypeQuery]: the query data returned and the lines
    logged *)
Definition fixPrometheusBothTypeQuery (queryData : gmap string Json.raw)
  : gmap string Json.raw * list (level * string) :=
  match from_option (fun r => Json.Unmarshal_bool r false) (Some false) (queryData !! "instant") with
  | None => (queryData, parse_failure queryData "Failed to parse instant field on Prometheus query")
  | Some instant =>
      match from_option (fun r => Json.Unmarshal_bool r false) (Some false) (queryData !! "range") with
      | None => (queryData, parse_failure queryData "Failed to parse range field on Prometheus query")
      | Some rng =>
          if negb instant || negb rng then (queryData, [])
          else
            match isPrometheusQuery queryData with
            | inl err =>
                (queryData,
                 [(Info, "Unable to convert alert rule that resembles a Prometheus 'Both' type query to 'Range'")])
            | inr false => (queryData, [])
            | inr true =>
                (<["instant" := Json.RBool false]> queryData,
                 [(Warn, "Prometheus 'Both' type queries are not supported in unified alerting. Converting to range query.")])
            end
      end
  end.

(** [ngmodels.NoDataState] and [ngmodels.ExecutionErrorState] *)
Inductive NoDataState := Alerting | NoData | OK.
Inductive ExecutionErrorState := AlertingErrState | ErrorErrState | OkErrState.

(** Each translation returns the state and whether the [default] arm logged
    its warning. The cases of a [switch] are tried in order. *)
Definition transNoData `{Constants} (s : string) : NoDataState * bool :=
  if decide (s = NoDataSetOK) then (OK, false)
  else if decide (s = "" \/ s = NoDataSetNoData) then (NoData, false)
  else if decide (s = NoDataSetAlerting) then (Alerting, false)
  else if decide (s = NoDataKeepState) then (NoData, false)
  else (NoData, true).

Definition transExecErr `{Constants} (s : string) : ExecutionErrorState * bool :=
  if decide (s = "" \/ s = ExecutionErrorSetAlerting) then (AlertingErrState, false)
  else if decide (s = ExecutionErrorKeepState) then (ErrorErrState, false)
  else if decide (s = ExecutionErrorSetOk) then (OkErrState, false)
  else (ErrorErrState, true).

(** The bound of the slice is a constant, which the compiler requires to be
    non-negative. *)
Definition truncateRuleName `{Constants} (daName : string) : string :=
  if len daName >? AlertDefinitionMaxTitleLength
  then take (Z.to_nat AlertDefinitionMaxTitleLength) daName
  else daName.

(** *** [migration.go] *)

(** [rule.Title += fmt.Sprintf(" %v", rule.UID)] and the same for the group *)
Definition with_uid_suffix (rule : AlertRule.t) : AlertRule.t :=
  {| AlertRule.OrgID := AlertRule.OrgID rule;
     AlertRule.Title := AlertRule.Title rule +:+ " " +:+ AlertRule.UID rule;
     AlertRule.UID := AlertRule.UID rule;
     AlertRule.NamespaceUID := AlertRule.NamespaceUID rule;
     AlertRule.RuleGroup := AlertRule.RuleGroup rule +:+ " " +:+ AlertRule.UID rule;
     AlertRule.Labels := AlertRule.Labels rule |}.

(** the body of the inner loop of [insertRules]: [titleDedup] maps a
    namespace to the titles given out in it *)
Definition insert_step (acc : gmap string (gset string) * list AlertRule.t) (rule : AlertRule.t)
  : gmap string (gset string) * list AlertRule.t :=
  let '(titleDedup, rules) := acc in
  let existingTitles := default ∅ (titleDedup !! AlertRule.NamespaceUID rule) in
  let rule :=
    if bool_decide (AlertRule.Title rule ∈ existingTitles) then with_uid_suffix rule else rule in
  let existingTitles := {[AlertRule.Title rule]} ∪ existingTitles in
  (<[AlertRule.NamespaceUID rule := existingTitles]> titleDedup, rules ++ [rule]).

(** the rules of one organisation as they are handed to the rule store;
    [orgRules] lists the keys of the Go map in the order the [range] visits
    them *)
Definition dedup_titles (orgRules : list AlertRule.t) : list AlertRule.t :=
  snd (fold_left insert_step orgRules (∅, [])).

(** the outer loop: the calls made on the rule store and the error returned *)
Fixpoint insertRules_loop `{StorePkg} (orgs : list (Z * list (AlertRule.t * list uidOrID)))
  : list StoreCall * option error :=
  match orgs with
  | [] => ([], None)
  | (_, orgRules) :: rest =>
      let call := InsertAlertRules (dedup_titles (fst <$> orgRules)) in
      match store_error call with
      | Some err => ([call], Some err)
      | None => let '(calls, err) := insertRules_loop rest in (call :: calls, err)
      end
  end.

Definition insertRules `{StorePkg} `{RangeOrder}
    (rulesPerOrg : gmap Z (list (AlertRule.t * list uidOrID)))
  : list StoreCall * option error :=
  insertRules_loop (range rulesPerOrg).

(** the invariant of the inner loop: [titleDedup] holds, for each
    namespace, the titles of the rules handed on so far *)
Definition titles_recorded (td : gmap string (gset string)) (out : list AlertRule.t) : Prop :=
  forall ns t,
    t ∈ default ∅ (td !! ns)
    <-> exists r, r ∈ out /\ AlertRule.NamespaceUID r = ns /\ AlertRule.Title r = t.

(** [fmt.Sprintf(DASHBOARD_FOLDER, title, uid)] with
    [DASHBOARD_FOLDER = "%s Alerts - %s"] *)
Definition DASHBOARD_FOLDER (title uid : string) : string :=
  title +:+ " Alerts - " +:+ uid.

Definition MaxFolderName : Z := 255.

Definition maxLen (dash : Dashboard.t) : Z :=
  MaxFolderName - len (DASHBOARD_FOLDER "" (Dashboard.UID dash)).

(** [None] is the run-time panic of the slice expression. *)
Definition getAlertFolderNameFromDashboard (dash : Dashboard.t) : option string :=
  let maxLen := maxLen dash in
  let title := Dashboard.Title dash in
  title ← (if len title >? maxLen then slice_to title maxLen else Some title);
  Some (DASHBOARD_FOLDER title (Dashboard.UID dash)).

(** *** [alert_rule.go]: intervals and queries *)

(** [%] is the remainder of the truncated division *)
Definition ruleAdjustInterval (freq : Z) : Z :=
  let baseFreq := 10 in
  if freq <=? baseFreq then 10 else freq - Z.rem freq baseFreq.

Definition expressionDatasourceUID : string := "__expr__".

Definition fixGraphiteReferencedSubQueries `{GraphitePkg} (queryData : gmap string Json.raw)
  : gmap string Json.raw :=
  match queryData !! TargetFullModelField with
  | Some fullQuery => <[TargetModelField := fullQuery]> (delete TargetFullModelField queryData)
  | None => queryData
  end.

Definition with_Model (d : AlertQuery.t) (model : Json.raw) : AlertQuery.t :=
  {| AlertQuery.RefID := AlertQuery.RefID d;
     AlertQuery.DatasourceUID := AlertQuery.DatasourceUID d;
     AlertQuery.Model := model |}.

(** the body of the loop of [migrateAlertRuleQueries]: the queries handed on
    so far and the lines logged. On a nil map the deletion and the two fixes
    find no key and write nothing. *)
Definition migrateQuery `{GraphitePkg} (acc : list AlertQuery.t * list (level * string))
    (d : AlertQuery.t) : error + list AlertQuery.t * list (level * string) :=
  let '(result, lines) := acc in
  if decide (AlertQuery.DatasourceUID d = expressionDatasourceUID) then inr (result ++ [d], lines)
  else
    match JsonMap.Unmarshal_map (AlertQuery.Model d) with
    | None => inl (New "json: cannot unmarshal into Go value of type map[string]json.RawMessage")
    | Some None => inr (result ++ [with_Model d (JsonMap.Marshal_map None)], lines)
    | Some (Some fixedData) =>
        let fixedData := delete "hide" fixedData in
        let fixedData := fixGraphiteReferencedSubQueries fixedData in
        let '(fixedData, logged) := fixPrometheusBothTypeQuery fixedData in
        inr (result ++ [with_Model d (JsonMap.Marshal_map (Some fixedData))], lines ++ logged)
    end.

Fixpoint migrateQueries `{GraphitePkg} (acc : list AlertQuery.t * list (level * string))
    (data : list AlertQuery.t) : error + list AlertQuery.t * list (level * string) :=
  match data with
  | [] => inr acc
  | d :: rest =>
      match migrateQuery acc d with
      | inl err => inl err
      | inr acc' => migrateQueries acc' rest
      end
  end.

(** the queries returned and the lines logged, or the error *)
Definition migrateAlertRuleQueries `{GraphitePkg} (data : list AlertQuery.t)
  : error + list AlertQuery.t * list (level * string) :=
  migrateQueries ([], []) data.

(** *** [alert_rule.go]: labels, annotations and channels of a rule *)

(** [fmt.Sprintf(ContactLabelTemplate, c)] with
    [ContactLabelTemplate = "__contacts_%s__"] *)
Definition ContactLabelTemplate (c : string) : string := "__contacts_" +:+ c +:+ "__".

(** the labels and the annotations *)
Definition addLabelsAndAnnotations `{LabelsPkg} (alert : Alert.t) (dashboardUID : string)
    (channels : list string) : gmap string string * gmap string string :=
  let lbls := fold_left (fun lbls t => <[Tag.Key t := Tag.Value t]> lbls) (Alert.Tags alert) ∅ in
  let lbls := <[UseLegacyChannelsLabel := "true"]> lbls in
  let lbls := fold_left (fun lbls c => <[ContactLabelTemplate c := "true"]> lbls) channels lbls in
  let annotations : gmap string string := ∅ in
  let annotations := <[DashboardUIDAnnotation := dashboardUID]> annotations in
  let annotations := <[PanelIDAnnotation := FormatInt (Alert.PanelID alert)]> annotations in
  let annotations := <["__alertId__" := FormatInt (Alert.ID alert)]> annotations in
  let annotations := <["message" := MigrateTmpl (Alert.Message alert)]> annotations in
  (lbls, annotations).

(** the body of the loop of [extractChannelUIDs]: the UIDs so far and the
    lines logged *)
Definition extractChannelUID `{MigrationStorePkg} (orgID : Z)
    (acc : list string * list (level * string)) (ui : DashAlertNot.t)
  : list string * list (level * string) :=
  let '(channelUids, lines) := acc in
  if DashAlertNot.ID ui >? 0 then
    let '(uid, err) := GetAlertNotificationUidWithId orgID (DashAlertNot.ID ui) in
    (channelUids ++ [uid],
     match err with
     | Some _ => lines ++ [(Error, "Failed to get alert notification UID")]
     | None => lines
     end)
  else if decide (DashAlertNot.UID ui <> "") then (channelUids ++ [DashAlertNot.UID ui], lines)
  else acc.

Definition extractChannelUIDs `{MigrationStorePkg} (orgID : Z)
    (notifications : list DashAlertNot.t) : list string * list (level * string) :=
  fold_left (extractChannelUID orgID) notifications ([], []).

(** a string without double quote: what [contactListToString] asks of the
    names it is given *)
Definition quote_free (s : string) : Prop := dquote ∉ list_ascii_of_string s.

(** what [setupAlertmanagerConfigs] may change of a rule: the value of the
    label [ContactLabel] *)
Definition same_but_contact_label `{Constants} (a b : AlertRule.t * list uidOrID) : Prop :=
  b.2 = a.2
  /\ AlertRule.OrgID b.1 = AlertRule.OrgID a.1
  /\ AlertRule.Title b.1 = AlertRule.Title a.1
  /\ AlertRule.UID b.1 = AlertRule.UID a.1
  /\ AlertRule.NamespaceUID b.1 = AlertRule.NamespaceUID a.1
  /\ AlertRule.RuleGroup b.1 = AlertRule.RuleGroup a.1
  /\ forall k, k <> ContactLabel -> AlertRule.Labels b.1 !! k = AlertRule.Labels a.1 !! k.

End Migration.

(** ** Stand-ins for the other packages, used to run the model *)

Module Fixtures.
Import Go Mig Migration.

(** lower case on ASCII letters *)
Definition strings_ascii : StringsPkg := {| ToLower := Json.lower |}.

(** a generator that hands out [u], [uu], [uuu], ... *)
Definition util_fresh : UtilPkg := {| GenerateShortUID := fun n => Repeat "u" (S n) |}.

(** a generator that hands out the same value again and again *)
Definition util_stuck : UtilPkg := {| GenerateShortUID := fun _ => "stuck" |}.

(** an encryption that never fails *)
Definition secrets_ok : SecretsPkg :=
  {| Encrypt := fun v => Some ("enc:" +:+ v);
     Decrypt := fun v => v;
     EncodeToString := fun v => "b64:" +:+ v |}.

Definition regexp_ok : RegexpPkg := {| compiles := fun _ => true |}.

Definition notify_ok : NotifyPkg := {| BuildReceiverConfiguration := fun _ => None |}.

Definition store_ok : StorePkg := {| store_error := fun _ => None |}.

(** a map visited in the order of [map_to_list] *)
Definition range_list : RangeOrder :=
  {| range := fun A m => map_to_list m;
     range_perm := fun A m => reflexivity (map_to_list m) |}.

(** the values the constants have in Grafana *)
Definition constants : Constants :=
  {| NoDataSetOK := "ok";
     NoDataSetNoData := "no_data";
     NoDataSetAlerting := "alerting";
     NoDataKeepState := "keep_state";
     ExecutionErrorSetAlerting := "alerting";
     ExecutionErrorKeepState := "keep_state";
     ExecutionErrorSetOk := "ok";
     ContactLabel := "__contacts__";
     FolderTitleLabel := "grafana_folder";
     AlertNameLabel := "alertname";
     AlertDefinitionMaxTitleLength := 190 |}.

Definition state0 : state :=
  {| seenUIDs := {| set := ∅; caseInsensitive := false |}; rnd := 0; logs := [] |}.

(** a state whose set of seen UIDs holds [uids] *)
Definition state_seen (uids : list string) (ci : bool) : state :=
  {| seenUIDs := {| set := list_to_set uids; caseInsensitive := ci |}; rnd := 0; logs := [] |}.

(** a channel of type [email] without settings *)
Definition chan (id org : Z) (uid name : string) (isDefault : bool) : AlertNotification.t :=
  {| AlertNotification.ID := id;
     AlertNotification.OrgID := org;
     AlertNotification.UID := uid;
     AlertNotification.Name := name;
     AlertNotification.Type_ := "email";
     AlertNotification.DisableResolveMessage := false;
     AlertNotification.IsDefault := isDefault;
     AlertNotification.Settings := Json.SMap ∅;
     AlertNotification.SecureSettings := ∅;
     AlertNotification.SendReminder := false;
     AlertNotification.Frequency := 0 |}.

Definition rule (org : Z) (title uid ns : string) : AlertRule.t :=
  {| AlertRule.OrgID := org;
     AlertRule.Title := title;
     AlertRule.UID := uid;
     AlertRule.NamespaceUID := ns;
     AlertRule.RuleGroup := title;
     AlertRule.Labels := ∅ |}.

Definition dash (uid title : string) : Dashboard.t :=
  {| Dashboard.ID := 1;
     Dashboard.OrgID := 1;
     Dashboard.UID := uid;
     Dashboard.Title := title;
     Dashboard.FolderID := 0;
     Dashboard.HasACL := true |}.

(** the query model of the tests: a datasource of type [ty], [instant] and
    [range] both true *)
Definition both_query (ty : string) : gmap string Json.raw :=
  <["datasource" := Json.RObject [("type", Json.RString ty)]]>
    (<["instant" := Json.RBool true]> (<["range" := Json.RBool true]> ∅)).

(** a receiver named [name] without integrations *)
Definition recv (name : string) : PostableApiReceiver.t :=
  {| PostableApiReceiver.Name := name; PostableApiReceiver.GrafanaManagedReceivers := [] |}.

(** a slack channel of before the change: the URL in the plain settings,
    the token already in the secure settings *)
Definition slack_settings : gmap string Json.sjson :=
  <["url" := Json.SString "https://hook"]> (<["recipient" := Json.SString "#alerts"]> ∅).

Definition slack_secure : gmap string string := <["token" := "tok"]> ∅.

(** three channels of one organisation with pairwise distinct names: a
    literal [a__576e09], an [a] followed by a double quote, and [a_] *)
Definition colliding_channels : list AlertNotification.t :=
  [chan 1 1 "u1" "a__576e09" false;
   chan 2 1 "u2" (String "a" (String dquote EmptyString)) false;
   chan 3 1 "u3" "a_" false].

(** the channels of two organisations: the first has one default channel
    and another channel, the second one channel that is not a default *)
Definition two_orgs : list AlertNotification.t :=
  [chan 1 1 "u1" "mail" true; chan 2 1 "u2" "pager" false; chan 3 2 "u3" "hook" false].

(** one rule of organisation [org] that names the channels [channels] *)
Definition rules_of (org : Z) (channels : list uidOrID)
  : gmap Z (list (AlertRule.t * list uidOrID)) :=
  <[org := [(rule org "cpu" "r1" "folder", channels)]]> ∅.

(** the field names the tests of the package use *)
Definition graphite : GraphitePkg :=
  {| TargetFullModelField := "targetFull"; TargetModelField := "target" |}.

(** a copy of [c] that sends reminders every [frequency] *)
Definition reminding (c : AlertNotification.t) (frequency : Z) : AlertNotification.t :=
  {| AlertNotification.ID := AlertNotification.ID c;
     AlertNotification.OrgID := AlertNotification.OrgID c;
     AlertNotification.UID := AlertNotification.UID c;
     AlertNotification.Name := AlertNotification.Name c;
     AlertNotification.Type_ := AlertNotification.Type_ c;
     AlertNotification.DisableResolveMessage := AlertNotification.DisableResolveMessage c;
     AlertNotification.IsDefault := AlertNotification.IsDefault c;
     AlertNotification.Settings := AlertNotification.Settings c;
     AlertNotification.SecureSettings := AlertNotification.SecureSettings c;
     AlertNotification.SendReminder := true;
     AlertNotification.Frequency := frequency |}.

(** three default channels of one organisation, two of them with reminders *)
Definition three_defaults : list AlertNotification.t :=
  [reminding (chan 1 1 "u1" "mail" true) 60; chan 2 1 "u2" "pager" true;
   reminding (chan 3 1 "" "hook" true) 30].

End Fixtures.

(** * Part II: lemmas and theorems *)

Import Go Mig Migration.

(** ** Go strings *)

Lemma string_length_app (s t : string) :
  String.length (s +:+ t) = (String.length s + String.length t)%nat.
Proof. induction s as [|c s IH]; simpl; [reflexivity | now rewrite IH]. Qed.

Lemma len_app (s t : string) : len (s +:+ t) = len s + len t.
Proof. unfold len. rewrite string_length_app. lia. Qed.

Lemma len_nonneg (s : string) : 0 <= len s.
Proof. unfold len. lia. Qed.

Lemma string_length_take (n : nat) (s : string) :
  (n <= String.length s)%nat -> String.length (take n s) = n.
Proof.
  revert s. induction n as [|n IH]; intros [|c s]; simpl; intros Hn;
    try reflexivity; try lia.
  rewrite IH; [reflexivity | lia].
Qed.

Lemma slice_to_in_range (s : string) (n : Z) :
  0 <= n <= len s -> slice_to s n = Some (take (Z.to_nat n) s).
Proof.
  intros [H0 H1]. unfold slice_to.
  destruct (Z.ltb_spec n 0); [lia|].
  destruct (Z.ltb_spec (len s) n); [lia|]. reflexivity.
Qed.

Lemma slice_to_negative (s : string) (n : Z) : n < 0 -> slice_to s n = None.
Proof.
  intros Hn. unfold slice_to. destruct (Z.ltb_spec n 0); [reflexivity | lia].
Qed.

Lemma length_Repeat (c : ascii) (n : nat) : String.length (Repeat c n) = n.
Proof. induction n as [|n IH]; simpl; congruence. Qed.

(** ** The enum translations *)

(** C7. With the legacy constants pairwise distinct and non-empty (what the
    Go compiler demands of the cases of one switch), the no-data translation
    sends ok, no-data, the empty string, alerting and keep-last-state to OK,
    NoData, NoData, Alerting and NoData, and any other string to NoData
    with a warning; the error translation sends alerting, the empty string,
    keep-last-state and ok to Alerting, Alerting, Error and OK, and any
    other string to Error with a warning. *)
Theorem trans_enums `{Constants} :
  NoDup [""; NoDataSetOK; NoDataSetNoData; NoDataSetAlerting; NoDataKeepState] ->
  NoDup [""; ExecutionErrorSetAlerting; ExecutionErrorKeepState; ExecutionErrorSetOk] ->
  (transNoData NoDataSetOK = (OK, false)
   /\ transNoData NoDataSetNoData = (NoData, false)
   /\ transNoData "" = (NoData, false)
   /\ transNoData NoDataSetAlerting = (Alerting, false)
   /\ transNoData NoDataKeepState = (NoData, false)
   /\ forall s, s ∉ [""; NoDataSetOK; NoDataSetNoData; NoDataSetAlerting; NoDataKeepState] ->
        transNoData s = (NoData, true))
  /\ (transExecErr ExecutionErrorSetAlerting = (AlertingErrState, false)
      /\ transExecErr "" = (AlertingErrState, false)
      /\ transExecErr ExecutionErrorKeepState = (ErrorErrState, false)
      /\ transExecErr ExecutionErrorSetOk = (OkErrState, false)
      /\ forall s, s ∉ [""; ExecutionErrorSetAlerting; ExecutionErrorKeepState; ExecutionErrorSetOk] ->
           transExecErr s = (ErrorErrState, true)).
Proof.
  intros Hnd Hex.
  repeat match goal with
         | Hd : NoDup (_ :: _) |- _ => apply NoDup_cons in Hd; destruct Hd
         end.
  unfold transNoData, transExecErr.
  repeat split; try intros s Hs;
    repeat case_decide; try reflexivity; exfalso;
    repeat match goal with
           | Hn : _ ∉ _ :: _ |- _ => apply not_elem_of_cons in Hn; destruct Hn
           | Ho : _ \/ _ |- _ => destruct Ho
           | Ha : ~ (_ \/ _) |- _ => apply Decidable.not_or in Ha; destruct Ha
           end; congruence.
Qed.

Lemma trans_enums_witness :
  (@transNoData Fixtures.constants "keep_state" = (NoData, false)
   /\ @transNoData Fixtures.constants "bogus" = (NoData, true))
  /\ (@transExecErr Fixtures.constants "keep_state" = (ErrorErrState, false)
      /\ @transExecErr Fixtures.constants "bogus" = (ErrorErrState, true)).
Proof.
  assert (Hnd : NoDup [""; "ok"; "no_data"; "alerting"; "keep_state"])
    by (apply (bool_decide_unpack (NoDup _)); vm_compute; exact I).
  assert (Hex : NoDup [""; "alerting"; "keep_state"; "ok"])
    by (apply (bool_decide_unpack (NoDup _)); vm_compute; exact I).
  destruct (@trans_enums Fixtures.constants Hnd Hex)
    as [(_ & _ & _ & _ & Hk & Hother) (_ & _ & Hk' & _ & Hother')].
  split; split.
  - exact Hk.
  - apply Hother. apply (bool_decide_unpack (_ ∉ _)). vm_compute. exact I.
  - exact Hk'.
  - apply Hother'. apply (bool_decide_unpack (_ ∉ _)). vm_compute. exact I.
Defined.

(** ** Folder names *)

Lemma len_DASHBOARD_FOLDER (title uid : string) :
  len (DASHBOARD_FOLDER title uid) = len title + 10 + len uid.
Proof.
  unfold DASHBOARD_FOLDER. rewrite !len_app. change (len " Alerts - ") with 10. lia.
Qed.

(** C10. The cap on the title is 255 minus the length of the template
    applied to the UID, that is 245 minus the length of the UID. When the cap
    is not negative the function returns a name of at most 255 bytes; when
    the cap is negative the slice index is negative and the function panics. *)
Theorem folder_name_cap (dash : Dashboard.t) :
  maxLen dash = 245 - len (Dashboard.UID dash)
  /\ (0 <= maxLen dash ->
      exists name, getAlertFolderNameFromDashboard dash = Some name
                   /\ len name <= MaxFolderName)
  /\ (maxLen dash < 0 -> getAlertFolderNameFromDashboard dash = None).
Proof.
  assert (Hcap : maxLen dash = 245 - len (Dashboard.UID dash)).
  { unfold maxLen, MaxFolderName. rewrite len_DASHBOARD_FOLDER.
    change (len "") with 0. lia. }
  split; [exact Hcap|]. unfold getAlertFolderNameFromDashboard. split.
  - intros Hpos. destruct (Z.gtb_spec (len (Dashboard.Title dash)) (maxLen dash)) as [Hgt|Hle].
    + rewrite slice_to_in_range by lia. simpl.
      eexists. split; [reflexivity|].
      rewrite len_DASHBOARD_FOLDER. unfold len at 1.
      rewrite string_length_take by (unfold len in Hgt; lia).
      unfold MaxFolderName. lia.
    + simpl. eexists. split; [reflexivity|].
      rewrite len_DASHBOARD_FOLDER. unfold MaxFolderName. lia.
  - intros Hneg. pose proof (len_nonneg (Dashboard.Title dash)) as Ht.
    destruct (Z.gtb_spec (len (Dashboard.Title dash)) (maxLen dash)) as [Hgt|Hle]; [|lia].
    rewrite slice_to_negative by exact Hneg. reflexivity.
Qed.

Lemma folder_name_cap_witness :
  (exists name, getAlertFolderNameFromDashboard (Fixtures.dash "abc" "Load") = Some name
                /\ len name <= MaxFolderName)
  /\ getAlertFolderNameFromDashboard (Fixtures.dash (Repeat "x" 246) "Load") = None.
Proof.
  split.
  - apply (folder_name_cap (Fixtures.dash "abc" "Load")). vm_compute. discriminate.
  - apply (folder_name_cap (Fixtures.dash (Repeat "x" 246) "Load")). vm_compute. reflexivity.
Defined.

(** ** The UID allocator *)

(** the values the generator hands out in the next [n] attempts *)
Lemma generateUid_loop_spec `{StringsPkg} `{UtilPkg} (n : nat) (st : state) :
  match list_find (fun g => contains (seenUIDs st) g = false)
                  (GenerateShortUID <$> seq (rnd st) n) with
  | Some (i, g) =>
      generateUid_loop n st =
        (inr g, {| seenUIDs := add (seenUIDs st) g; rnd := (rnd st + S i)%nat; logs := logs st |})
  | None =>
      generateUid_loop n st =
        (inl (New "failed to generate UID"),
         {| seenUIDs := seenUIDs st; rnd := (rnd st + n)%nat; logs := logs st |})
  end.
Proof.
  revert st. induction n as [|n IH]; intros st.
  - simpl. unfold fail. destruct st as [seen r lg]; simpl.
    rewrite Nat.add_0_r. reflexivity.
  - cbn [seq fmap list_fmap list_find generateUid_loop].
    cbn [seenUIDs rnd logs].
    destruct (contains (seenUIDs st) (GenerateShortUID (rnd st))) eqn:Hc.
    + rewrite decide_False by congruence.
      specialize (IH {| seenUIDs := seenUIDs st; rnd := S (rnd st); logs := logs st |}).
      cbn [seenUIDs rnd logs] in IH.
      destruct (list_find _ _) as [[i g]|]; cbn [fmap option_fmap option_map prod_map fst snd id];
        rewrite IH; do 2 f_equal; lia.
    + rewrite decide_True by reflexivity. do 2 f_equal. lia.
Qed.

(** C4. A legacy UID that is non-empty and not in the set of seen UIDs is
    reused and the state is left as it was. Otherwise up to five values are
    drawn from the generator: the first one that the set does not contain
    (compared in lower case when the set is case-insensitive) is returned and
    added to the set; when all five are contained the allocation fails with
    an error. *)
Theorem determineChannelUid_spec `{StringsPkg} `{UtilPkg} (c : AlertNotification.t) (st : state) :
  let uid := AlertNotification.UID c in
  (uid <> "" -> contains (seenUIDs st) uid = false ->
   determineChannelUid c st = (inr uid, st))
  /\ (uid = "" \/ contains (seenUIDs st) uid = true ->
      match list_find (fun g => contains (seenUIDs st) g = false)
                      (GenerateShortUID <$> seq (rnd st) 5) with
      | Some (i, g) =>
          (i < 5)%nat
          /\ exists st', determineChannelUid c st = (inr g, st')
                         /\ seenUIDs st' = add (seenUIDs st) g
                         /\ rnd st' = (rnd st + S i)%nat
      | None =>
          exists st', determineChannelUid c st = (inl (New "failed to generate UID"), st')
                      /\ seenUIDs st' = seenUIDs st
                      /\ rnd st' = (rnd st + 5)%nat
      end)
  /\ (forall s u v, caseInsensitive s = true -> ToLower u = ToLower v ->
       contains (add s v) u = true)
  /\ (forall s u v, caseInsensitive s = false ->
       contains (add s v) u = true <-> u = v \/ contains s u = true).
Proof.
  intros uid. split; [|split; [|split]];
    [| | intros s u v Hci; unfold contains, add, dedup_key; simpl; rewrite Hci;
         rewrite ?bool_decide_eq_true; set_solver ..].
  - intros Hne Hnot. unfold determineChannelUid. fold uid.
    rewrite decide_False by exact Hne. rewrite Hnot. reflexivity.
  - intros Hgen. pose proof (generateUid_loop_spec 5 st) as Hloop.
    assert (Hrun : determineChannelUid c st =
                   match generateUid_loop 5 st with
                   | (inl e, st') => (inl e, st')
                   | (inr g, st') =>
                       (inr g, {| seenUIDs := seenUIDs st'; rnd := rnd st';
                                  logs := logs st' ++
                                    [(if decide (uid = "") then Info else Warn,
                                      if decide (uid = "")
                                      then "Legacy notification had an empty uid, generating a new one"
                                      else "Legacy notification had a UID that collides with a migrated record, generating a new one")] |})
                   end).
    { unfold determineChannelUid, generateUid, bind, log, ret. fold uid.
      destruct (decide (uid = "")) as [He|He].
      - destruct (generateUid_loop 5 st) as [[e|g] st']; reflexivity.
      - destruct Hgen as [He'|Hc]; [contradiction|]. rewrite Hc.
        destruct (generateUid_loop 5 st) as [[e|g] st']; reflexivity. }
    destruct (list_find _ _) as [[i g]|] eqn:Hfind.
    + split.
      * apply list_find_Some in Hfind as (Hlk & _ & _).
        apply lookup_lt_Some in Hlk. rewrite length_fmap, length_seq in Hlk. exact Hlk.
      * rewrite Hloop in Hrun. eexists. split; [exact Hrun|]. split; reflexivity.
    + rewrite Hloop in Hrun. eexists. split; [exact Hrun|]. split; reflexivity.
Qed.

Lemma determineChannelUid_spec_witness :
  @determineChannelUid Fixtures.strings_ascii Fixtures.util_fresh
    (Fixtures.chan 1 1 "abc" "mail" false) Fixtures.state0 = (inr "abc", Fixtures.state0)
  /\ (exists st', @determineChannelUid Fixtures.strings_ascii Fixtures.util_fresh
                    (Fixtures.chan 1 1 "ABC" "mail" false) (Fixtures.state_seen ["abc"; "u"] true)
                  = (inr "uu", st'))
  /\ (exists st', @determineChannelUid Fixtures.strings_ascii Fixtures.util_stuck
                    (Fixtures.chan 1 1 "" "mail" false) (Fixtures.state_seen ["stuck"] false)
                  = (inl (New "failed to generate UID"), st')).
Proof.
  split; [|split].
  - apply (@determineChannelUid_spec Fixtures.strings_ascii Fixtures.util_fresh
             (Fixtures.chan 1 1 "abc" "mail" false) Fixtures.state0).
    + discriminate.
    + vm_compute. reflexivity.
  - destruct (@determineChannelUid_spec Fixtures.strings_ascii Fixtures.util_fresh
                (Fixtures.chan 1 1 "ABC" "mail" false) (Fixtures.state_seen ["abc"; "u"] true))
      as (_ & Hgen & _).
    assert (Hseen : @contains Fixtures.strings_ascii
                      (seenUIDs (Fixtures.state_seen ["abc"; "u"] true)) "ABC" = true)
      by (vm_compute; reflexivity).
    specialize (Hgen (or_intror Hseen)).
    destruct Hgen as (_ & st' & Hrun & _). exists st'. exact Hrun.
  - destruct (@determineChannelUid_spec Fixtures.strings_ascii Fixtures.util_stuck
                (Fixtures.chan 1 1 "" "mail" false) (Fixtures.state_seen ["stuck"] false))
      as (_ & Hgen & _).
    specialize (Hgen (or_introl eq_refl)).
    destruct Hgen as (st' & Hrun & _). exists st'. exact Hrun.
Defined.

(** ** Prometheus queries of type Both *)

(** C8. Take a query model whose [instant] and [range] fields are both
    [true]. If its [datasource] field decodes to the type [prometheus], the
    fix returns the model with [instant] set to [false]: [range] is still
    [true] and every other field is as it was. If the [datasource] field is
    missing, does not decode, or decodes to another type (the empty one
    included), the fix returns the model unchanged. *)
Theorem fixPrometheusBothTypeQuery_spec (queryData : gmap string Json.raw) :
  queryData !! "instant" = Some (Json.RBool true) ->
  queryData !! "range" = Some (Json.RBool true) ->
  let ty := queryData !! "datasource" ≫= Json.Unmarshal_datasource in
  let fixed := fst (fixPrometheusBothTypeQuery queryData) in
  (ty = Some "prometheus" ->
   fixed !! "instant" = Some (Json.RBool false)
   /\ fixed !! "range" = Some (Json.RBool true)
   /\ forall k, k <> "instant" -> fixed !! k = queryData !! k)
  /\ (ty <> Some "prometheus" -> fixed = queryData).
Proof.
  intros Hi Hr ty fixed. subst ty fixed.
  unfold fixPrometheusBothTypeQuery, isPrometheusQuery. rewrite Hi, Hr. simpl.
  destruct (queryData !! "datasource") as [ds|]; simpl.
  - destruct (Json.Unmarshal_datasource ds) as [t|]; simpl.
    + destruct (decide (t = "")) as [->|Hne]; simpl.
      * split; [discriminate | reflexivity].
      * destruct (decide (t = "prometheus")) as [->|Hnp].
        -- rewrite bool_decide_eq_true_2 by reflexivity. simpl. split.
           ++ intros _. rewrite lookup_insert_eq. split; [reflexivity|].
              split; [rewrite lookup_insert_ne by discriminate; exact Hr|].
              intros k Hk. apply lookup_insert_ne. congruence.
           ++ intros Hc. contradiction Hc. reflexivity.
        -- rewrite bool_decide_eq_false_2 by exact Hnp. simpl. split.
           ++ intros Hc. congruence.
           ++ reflexivity.
    + split; [discriminate | reflexivity].
  - split; [discriminate | reflexivity].
Qed.

Lemma fixPrometheusBothTypeQuery_spec_witness :
  (fst (fixPrometheusBothTypeQuery (Fixtures.both_query "prometheus")) !! "instant"
     = Some (Json.RBool false)
   /\ fst (fixPrometheusBothTypeQuery (Fixtures.both_query "prometheus")) !! "range"
     = Some (Json.RBool true))
  /\ fst (fixPrometheusBothTypeQuery (Fixtures.both_query "something"))
     = Fixtures.both_query "something".
Proof.
  split.
  - destruct (fixPrometheusBothTypeQuery_spec (Fixtures.both_query "prometheus"))
      as [Hprom _]; [vm_compute; reflexivity .. |].
    destruct Hprom as (Hinstant & Hrange & _); [vm_compute; reflexivity|].
    split; assumption.
  - apply (fixPrometheusBothTypeQuery_spec (Fixtures.both_query "something"));
      [vm_compute; reflexivity .. |].
    vm_compute. discriminate.
Defined.

(** ** Routing labels *)

Lemma string_le_total : Total string_le.
Proof. intros s t. unfold string_le. apply String.leb_total. Qed.

(** the receiver names the channels of a rule resolve to *)
Lemma filter_loop_spec (receivers : gmap uidOrID PostableApiReceiver.t)
    (channelIDs : list uidOrID) (acc : gset string) (st : state) :
  exists st',
    foldM (filter_step receivers) acc channelIDs st =
      (inr (acc ∪ list_to_set
              (omap (fun id => PostableApiReceiver.Name <$> receivers !! id) channelIDs)), st').
Proof.
  revert acc st. induction channelIDs as [|id ids IH]; intros acc st; simpl.
  - exists st. unfold ret. do 2 f_equal. set_solver.
  - unfold bind, filter_step at 1.
    destruct (receivers !! id) as [recv|]; simpl.
    + destruct (IH ({[PostableApiReceiver.Name recv]} ∪ acc) st) as [st' ->].
      exists st'. do 2 f_equal. set_solver.
    + unfold bind, log, ret. simpl.
      match goal with |- context [foldM _ acc ids ?s] => destruct (IH acc s) as [st' ->] end.
      exists st'. reflexivity.
Qed.

Lemma filterReceiversForAlert_spec (name : string) (channelIDs : list uidOrID)
    (receivers : gmap uidOrID PostableApiReceiver.t) (defaultReceivers : gset string)
    (st : state) :
  let resolved : gset string :=
    list_to_set (omap (fun id => PostableApiReceiver.Name <$> receivers !! id) channelIDs) in
  exists st',
    filterReceiversForAlert name channelIDs receivers defaultReceivers st =
      (inr (if decide (resolved ⊆ defaultReceivers) then ∅ else resolved ∪ defaultReceivers), st').
Proof.
  intros resolved. unfold filterReceiversForAlert.
  destruct channelIDs as [|id ids].
  - exists st. subst resolved. simpl. rewrite decide_True by set_solver. reflexivity.
  - destruct (filter_loop_spec receivers (id :: ids) ∅ st) as [st' Hloop].
    unfold bind. rewrite Hloop. fold resolved. exists st'.
    assert (Hres : ∅ ∪ resolved = resolved) by set_solver. rewrite Hres.
    unfold coveredByDefault.
    destruct (decide (resolved ⊆ defaultReceivers)) as [Hsub|Hsub].
    + rewrite (bool_decide_eq_true_2 (set_Forall _ _)) by (intros n Hn; set_solver).
      rewrite orb_true_r. reflexivity.
    + rewrite (bool_decide_eq_false_2 (set_Forall _ _)) by (intros Hall; apply Hsub; intros n Hn; apply Hall, Hn).
      rewrite bool_decide_eq_false_2; [reflexivity|].
      intros Hsz. apply size_empty_inv in Hsz. apply Hsub. set_solver.
Qed.

(** C6, as the code has it. Let [resolved] be the set of receiver names
    the channel references of a rule resolve to (unresolvable references
    are dropped). If [resolved] is a subset of the default receivers (the
    empty set and the set of all default receivers included), the rule is
    left without contact-list label. Otherwise the label is set to the
    comma-joined list of the double-quoted names of [resolved] united with
    the default receivers, sorted as strings. *)
Theorem contact_label_spec `{Constants}
    (receivers : gmap uidOrID PostableApiReceiver.t) (defaultReceivers : gset string)
    (done : list (AlertRule.t * list uidOrID)) (ar : AlertRule.t)
    (channelUids : list uidOrID) (st : state) :
  let resolved : gset string :=
    list_to_set (omap (fun id => PostableApiReceiver.Name <$> receivers !! id) channelUids) in
  exists st' keys,
    Sorted string_le keys
    /\ keys ≡ₚ quote <$> elements (resolved ∪ defaultReceivers)
    /\ label_rule receivers defaultReceivers done (ar, channelUids) st =
         (inr (done ++ [(if decide (resolved ⊆ defaultReceivers) then ar
                         else with_label ar ContactLabel (Join keys ","), channelUids)]), st').
Proof.
  intros resolved.
  destruct (filterReceiversForAlert_spec (AlertRule.Title ar) channelUids receivers
              defaultReceivers st) as [st' Hf].
  fold resolved in Hf.
  exists st', (sort_Strings (quote <$> elements (resolved ∪ defaultReceivers))).
  split; [apply Sorted_merge_sort, string_le_total|].
  split; [apply merge_sort_Permutation|].
  unfold label_rule, bind. rewrite Hf.
  destruct (decide (resolved ⊆ defaultReceivers)) as [Hsub|Hsub].
  - rewrite bool_decide_eq_true_2 by apply size_empty. reflexivity.
  - rewrite bool_decide_eq_false_2; [reflexivity|].
    intros Hsz. apply size_empty_inv in Hsz. apply Hsub. set_solver.
Qed.

(** The claim as it is written fails: a rule whose only channel is one of
    two default channels resolves to a set that is neither empty nor equal
    to the set of default receivers, and still gets no label. *)
Lemma contact_label_counterexample :
  let receivers : gmap uidOrID PostableApiReceiver.t :=
    <[inl "uid-a" := Fixtures.recv "A"]> (<[inl "uid-b" := Fixtures.recv "B"]> ∅) in
  let defaultReceivers : gset string := {["A"; "B"]} in
  let ar := Fixtures.rule 1 "cpu" "r1" "folder" in
  let resolved : gset string :=
    list_to_set (omap (fun id => PostableApiReceiver.Name <$> receivers !! id) [inl "uid-a"]) in
  resolved = {["A"]}
  /\ resolved <> ∅
  /\ resolved <> defaultReceivers
  /\ fst (@label_rule Fixtures.constants receivers defaultReceivers [] (ar, [inl "uid-a"])
            Fixtures.state0) = inr [(ar, [inl "uid-a"])]
  /\ AlertRule.Labels ar !! (@ContactLabel Fixtures.constants) = None.
Proof.
  cbv zeta. split; [|split; [|split; [|split]]].
  - apply (bool_decide_unpack (_ = _)). vm_compute. exact I.
  - apply (bool_decide_unpack (_ <> _)). vm_compute. exact I.
  - apply (bool_decide_unpack (_ <> _)). vm_compute. exact I.
  - vm_compute. reflexivity.
  - reflexivity.
Qed.

(** ** The settings transcoder *)

(** whether the loop over the keys moves [k]: the key is listed, the
    secure settings hold no non-empty value for it, and the plain settings
    hold a non-empty string *)
Lemma migrateKey_fold_spec (keys : list string)
    (clone : gmap string Json.sjson) (sec : gmap string string) (k : string) :
  let moved :=
    k ∈ keys /\ (forall v, sec !! k = Some v -> v = "") /\ Json.Get_MustString clone k <> "" in
  forall clone' sec', fold_left migrateKey keys (clone, sec) = (clone', sec') ->
    (moved -> clone' !! k = None /\ sec' !! k = Some (Json.Get_MustString clone k))
    /\ (~ moved -> clone' !! k = clone !! k /\ sec' !! k = sec !! k).
Proof.
  revert clone sec. induction keys as [|k0 rest IH]; intros clone sec moved clone' sec' Hfold.
  - simpl in Hfold. injection Hfold as <- <-. subst moved. split.
    + intros (Hin & _). inversion Hin.
    + intros _. split; reflexivity.
  - cbn [fold_left] in Hfold.
    assert (Hstep : exists c1 s1, migrateKey (clone, sec) k0 = (c1, s1)
              /\ ((c1 = clone /\ s1 = sec
                   /\ ~ ((forall v, sec !! k0 = Some v -> v = "")
                         /\ Json.Get_MustString clone k0 <> ""))
                  \/ (c1 = delete k0 clone
                      /\ s1 = <[k0 := Json.Get_MustString clone k0]> sec
                      /\ (forall v, sec !! k0 = Some v -> v = "")
                      /\ Json.Get_MustString clone k0 <> ""))).
    { unfold migrateKey.
      destruct (sec !! k0) as [[|c v]|] eqn:Hs;
        try (destruct (decide (Json.Get_MustString clone k0 = "")) as [He|He]);
        eexists _, _; (split; [reflexivity|]);
        try (left; repeat split; intros [Hh Hg]; first [contradiction | specialize (Hh _ eq_refl); discriminate]);
        right; repeat split; try assumption; intros v' Hv'; congruence. }
    destruct Hstep as (c1 & s1 & Hmk & Hcases). rewrite Hmk in Hfold.
    specialize (IH c1 s1 clone' sec' Hfold). cbv zeta in IH. destruct IH as [IHm IHn].
    assert (Hget : k <> k0 -> Json.Get_MustString c1 k = Json.Get_MustString clone k
                              /\ c1 !! k = clone !! k /\ s1 !! k = sec !! k).
    { intros Hne. unfold Json.Get_MustString.
      destruct Hcases as [(-> & -> & _)|(-> & -> & _)]; [repeat split; reflexivity|].
      rewrite lookup_delete_ne, lookup_insert_ne by congruence. repeat split; reflexivity. }
    subst moved. destruct (decide (k = k0)) as [->|Hne].
    + destruct Hcases as [(-> & -> & Hnot)|(-> & -> & Hh & Hg)].
      * split; [intros (_ & Hh & Hg); contradiction Hnot; split; assumption|].
        intros _. apply IHn. intros (_ & Hh & Hg). apply Hnot. split; assumption.
      * assert (Hstay : ~ (k0 ∈ rest
                    /\ (forall v, <[k0 := Json.Get_MustString clone k0]> sec !! k0 = Some v -> v = "")
                    /\ Json.Get_MustString (delete k0 clone) k0 <> "")).
        { intros (_ & Hh' & _). rewrite lookup_insert_eq in Hh'.
          apply Hg. apply Hh'. reflexivity. }
        destruct (IHn Hstay) as [Hc Hs]. rewrite Hc, Hs, lookup_delete_eq, lookup_insert_eq.
        split; [intros _; split; reflexivity|].
        intros Hnm. contradiction Hnm. split; [left|split; assumption].
    + destruct (Hget Hne) as (Hg1 & Hc1 & Hs1). rewrite Hg1, Hs1 in IHm, IHn.
      rewrite Hc1 in IHn. split.
      * intros (Hin & Hh & Hg). apply IHm. split; [|split; assumption].
        apply elem_of_cons in Hin as [Heq|Hin]; [contradiction|exact Hin].
      * intros Hnm. apply IHn. intros (Hin & Hh & Hg). apply Hnm.
        split; [right; exact Hin|split; assumption].
Qed.

(** C9. When the transcoder succeeds, the plain settings are a JSON
    object and, with [moved k] meaning that [k] is listed for the channel
    type, that the secure settings hold no non-empty (decrypted) value for
    [k] and that the plain settings hold a non-empty string for [k]:
    a moved key is absent from the returned plain settings and its
    plain value, encrypted, is in the returned secure settings; every other
    key keeps its plain entry and its secure entry, re-encrypted; every
    value of the returned secure settings is the encoding of a ciphertext
    the encryption service returned. The table lists [url] and [token] for
    slack and [integrationKey] for pagerduty. *)
Theorem migrateSettingsToSecureSettings_spec `{SecretsPkg}
    (chanType : string) (settings : Json.sjson) (secureSettings : gmap string string)
    (st st' : state) (clone : gmap string Json.sjson) (secure : gmap string string) :
  migrateSettingsToSecureSettings chanType settings secureSettings st
    = (inr (clone, secure), st') ->
  exists settingsMap,
    settings = Json.SMap settingsMap
    /\ st' = st
    /\ (forall k,
          let moved :=
            k ∈ default [] (secureKeysToMigrate !! chanType)
            /\ (forall v, secureSettings !! k = Some v -> Decrypt v = "")
            /\ Json.Get_MustString settingsMap k <> "" in
          (moved ->
           clone !! k = None
           /\ exists ct, Encrypt (Json.Get_MustString settingsMap k) = Some ct
                         /\ secure !! k = Some (EncodeToString ct))
          /\ (~ moved ->
              clone !! k = settingsMap !! k
              /\ (secureSettings !! k = None -> secure !! k = None)
              /\ (forall v, secureSettings !! k = Some v ->
                    exists ct, Encrypt (Decrypt v) = Some ct
                               /\ secure !! k = Some (EncodeToString ct))))
    /\ (forall k v', secure !! k = Some v' ->
          exists v ct, Encrypt v = Some ct /\ v' = EncodeToString ct)
    /\ secureKeysToMigrate !! "slack" = Some ["url"; "token"]
    /\ secureKeysToMigrate !! "pagerduty" = Some ["integrationKey"].
Proof.
  unfold migrateSettingsToSecureSettings. intros Hrun.
  destruct settings as [| | | | |settingsMap]; try discriminate Hrun.
  cbn [Json.Map] in Hrun.
  destruct (fold_left migrateKey _ _) as [c1 s1] eqn:Hfold.
  unfold bind, encryptSecureSettings in Hrun.
  destruct (decide (map_Forall _ s1)) as [Hall|Hall]; [|discriminate Hrun].
  unfold ret in Hrun. injection Hrun as <- <- <-.
  assert (Henc : forall k v, s1 !! k = Some v ->
            exists ct, Encrypt v = Some ct
              /\ ((fun v => from_option EncodeToString "" (Encrypt v)) <$> s1) !! k
                 = Some (EncodeToString ct)).
  { intros k v Hk. destruct (Hall k v Hk) as [ct Hct]. exists ct.
    split; [exact Hct|]. rewrite lookup_fmap, Hk. simpl. rewrite Hct. reflexivity. }
  exists settingsMap. split; [reflexivity|]. split; [reflexivity|].
  split; [|split; [|split; reflexivity]].
  - intros k.
    pose proof (migrateKey_fold_spec _ _ _ k _ _ Hfold) as [Hm Hn].
    assert (Hheld : (forall v, (Decrypt <$> secureSettings) !! k = Some v -> v = "")
                    <-> (forall v, secureSettings !! k = Some v -> Decrypt v = "")).
    { rewrite lookup_fmap. destruct (secureSettings !! k) as [w|]; simpl; split;
        intros Hh v Hv; try discriminate.
      - injection Hv as <-. apply Hh. reflexivity.
      - injection Hv as <-. apply Hh. reflexivity. }
    rewrite Hheld in Hm, Hn. split.
    + intros Hmoved. destruct (Hm Hmoved) as [Hc Hs]. split; [exact Hc|].
      destruct (Henc _ _ Hs) as (ct & Hct & Hlk). exists ct. split; assumption.
    + intros Hnot. destruct (Hn Hnot) as [Hc Hs]. split; [exact Hc|].
      rewrite lookup_fmap in Hs. split.
      * intros Hnone. rewrite Hnone in Hs. rewrite lookup_fmap, Hs. reflexivity.
      * intros v Hv. rewrite Hv in Hs. apply (Henc _ _ Hs).
  - intros k v' Hk. rewrite lookup_fmap in Hk.
    destruct (s1 !! k) as [v|] eqn:Hs; [|discriminate Hk].
    destruct (Henc _ _ Hs) as (ct & Hct & Hlk). exists v, ct. split; [exact Hct|].
    simpl in Hk. rewrite Hct in Hk. simpl in Hk. congruence.
Qed.

Lemma migrateSettingsToSecureSettings_spec_witness :
  exists clone secure,
    @migrateSettingsToSecureSettings Fixtures.secrets_ok "slack"
      (Json.SMap Fixtures.slack_settings) Fixtures.slack_secure Fixtures.state0
      = (inr (clone, secure), Fixtures.state0)
    /\ clone !! "url" = None
    /\ secure !! "url" = Some "b64:enc:https://hook".
Proof.
  assert (Hrun : exists clone secure,
            @migrateSettingsToSecureSettings Fixtures.secrets_ok "slack"
              (Json.SMap Fixtures.slack_settings) Fixtures.slack_secure Fixtures.state0
            = (inr (clone, secure), Fixtures.state0))
    by (eexists _, _; vm_compute; reflexivity).
  destruct Hrun as (clone & secure & Hrun). exists clone, secure.
  destruct (@migrateSettingsToSecureSettings_spec Fixtures.secrets_ok _ _ _ _ _ _ _ Hrun)
    as (m & Hm & _ & Hkeys & _).
  injection Hm as <-.
  destruct (Hkeys "url") as [Hmoved _].
  destruct Hmoved as (Hclone & ct & Hct & Hsec).
  { split; [|split].
    - apply (bool_decide_unpack (_ ∈ _)). vm_compute. exact I.
    - intros v Hv. exfalso. revert Hv. apply (bool_decide_unpack (_ <> _)). vm_compute. exact I.
    - apply (bool_decide_unpack (_ <> _)). vm_compute. exact I. }
  split; [exact Hrun|]. split; [exact Hclone|].
  rewrite Hsec. f_equal.
  assert (Hct' : @Encrypt Fixtures.secrets_ok (Json.Get_MustString Fixtures.slack_settings "url")
                 = Some "enc:https://hook") by (vm_compute; reflexivity).
  rewrite Hct' in Hct. injection Hct as <-. reflexivity.
Defined.

(** ** Cleanup of a dashboard upgrade *)

Lemma remove_first_spec (uid : string) (created : list string) :
  match remove_first uid created with
  | (true, rest) =>
      exists l1 l2, created = l1 ++ (uid :: l2) /\ (uid ∉ l1) /\ rest = l1 ++ l2
  | (false, rest) => (uid ∉ created) /\ rest = created
  end.
Proof.
  induction created as [|u created IH]; simpl.
  - split; [apply not_elem_of_nil | reflexivity].
  - destruct (decide (u = uid)) as [->|Hne].
    + exists [], created. repeat split. apply not_elem_of_nil.
    + destruct (remove_first uid created) as [[|] rest].
      * destruct IH as (l1 & l2 & -> & Hnot & ->). exists (u :: l1), l2.
        repeat split. apply not_elem_of_cons. split; [congruence | exact Hnot].
      * destruct IH as [Hnot ->]. split; [|reflexivity].
        apply not_elem_of_cons. split; [congruence | exact Hnot].
Qed.

(** C3. Cleanup asks the store to delete a folder only when the folder is
    the new folder of the dashboard upgrade, differs from the folder the
    dashboard was in, and its UID is in the recorded list of created
    folders; the first occurrence of the UID is then taken out of the list.
    When no folder is deleted the list is as it was. The only other call
    deletes alert rules, and only rules recorded in the dashboard upgrade.
    Nothing else is asked of the store. *)
Theorem cleanup_deletes_only_created `{StorePkg}
    (om : OrgMigration) (du : option DashboardUpgrade.t) :
  let '(calls, om', err) := cleanupDashboardAlerts om du in
  orgID om' = orgID om
  /\ (forall org uid, DeleteFolders org uid ∈ calls ->
        org = orgID om
        /\ (exists d, du = Some d /\ uid = DashboardUpgrade.NewFolderUID d
                      /\ uid <> "" /\ uid <> DashboardUpgrade.FolderUID d)
        /\ exists l1 l2, CreatedFolders om = l1 ++ (uid :: l2) /\ (uid ∉ l1)
                         /\ CreatedFolders om' = l1 ++ l2)
  /\ ((forall org uid, DeleteFolders org uid ∉ calls) -> CreatedFolders om' = CreatedFolders om)
  /\ (forall org uids, DeleteAlertRules org uids ∈ calls ->
        org = orgID om
        /\ forall u, u ∈ uids ->
             u <> "" /\ exists d, du = Some d
               /\ {| DashboardUpgrade.AlertRule := Some u |} ∈ DashboardUpgrade.MigratedAlerts d)
  /\ (forall rules, InsertAlertRules rules ∉ calls).
Proof.
  unfold cleanupDashboardAlerts. destruct du as [d|].
  2:{ repeat split; try reflexivity; intros; try apply not_elem_of_nil;
      exfalso; eapply not_elem_of_nil; eassumption. }
  set (ruleUids := omap rule_uid (DashboardUpgrade.MigratedAlerts d)).
  assert (Hrules : forall u, u ∈ ruleUids ->
            u <> "" /\ exists d', Some d = Some d'
              /\ {| DashboardUpgrade.AlertRule := Some u |} ∈ DashboardUpgrade.MigratedAlerts d').
  { intros u Hu. apply list_elem_of_omap in Hu as ([[[|c s]|]] & Hin & Hr); try discriminate Hr.
    simpl in Hr. injection Hr as <-. split; [discriminate|]. exists d. split; [reflexivity | exact Hin]. }
  set (first_calls := match ruleUids with
                      | [] => ([], None)
                      | _ => ([DeleteAlertRules (orgID om) ruleUids],
                              store_error (DeleteAlertRules (orgID om) ruleUids))
                      end).
  assert (Hfirst : forall c, c ∈ first_calls.1 -> c = DeleteAlertRules (orgID om) ruleUids).
  { intros c. subst first_calls. destruct ruleUids; simpl; intros Hc.
    - inversion Hc.
    - apply list_elem_of_singleton in Hc. exact Hc. }
  destruct first_calls as [calls err] eqn:Hcalls. simpl in Hfirst.
  assert (Hnofolder : forall org uid, DeleteFolders org uid ∉ calls)
    by (intros org uid Hin; apply Hfirst in Hin; discriminate Hin).
  assert (Hnoinsert : forall rules, InsertAlertRules rules ∉ calls)
    by (intros rules Hin; apply Hfirst in Hin; discriminate Hin).
  assert (Hdel : forall org uids, DeleteAlertRules org uids ∈ calls ->
            org = orgID om /\ forall u, u ∈ uids -> u <> "" /\ exists d', Some d = Some d'
              /\ {| DashboardUpgrade.AlertRule := Some u |} ∈ DashboardUpgrade.MigratedAlerts d').
  { intros org uids Hin. apply Hfirst in Hin. injection Hin as -> ->. split; [reflexivity | exact Hrules]. }
  assert (Hquiet : orgID om = orgID om
            /\ (forall org uid, DeleteFolders org uid ∈ calls ->
                  org = orgID om
                  /\ (exists d', Some d = Some d' /\ uid = DashboardUpgrade.NewFolderUID d'
                                 /\ uid <> "" /\ uid <> DashboardUpgrade.FolderUID d')
                  /\ exists l1 l2, CreatedFolders om = l1 ++ (uid :: l2) /\ (uid ∉ l1)
                                   /\ CreatedFolders om = l1 ++ l2)
            /\ ((forall org uid, DeleteFolders org uid ∉ calls) -> CreatedFolders om = CreatedFolders om)
            /\ (forall org uids, DeleteAlertRules org uids ∈ calls ->
                  org = orgID om
                  /\ forall u, u ∈ uids -> u <> "" /\ exists d', Some d = Some d'
                       /\ {| DashboardUpgrade.AlertRule := Some u |} ∈ DashboardUpgrade.MigratedAlerts d')
            /\ (forall rules, InsertAlertRules rules ∉ calls)).
  { split; [reflexivity|]. split; [intros org uid Hin; exfalso; exact (Hnofolder _ _ Hin)|].
    split; [reflexivity|]. split; [exact Hdel | exact Hnoinsert]. }
  destruct err as [e|]; [exact Hquiet|].
  destruct (decide _) as [[Hne Hdiff]|_]; [|exact Hquiet].
  pose proof (remove_first_spec (DashboardUpgrade.NewFolderUID d) (CreatedFolders om)) as Hrm.
  destruct (remove_first _ _) as [[|] created].
  - destruct Hrm as (l1 & l2 & Hcr & Hnot & ->).
    assert (Hgoal : forall e', let '(calls', om', err') :=
              (calls ++ [DeleteFolders (orgID om) (DashboardUpgrade.NewFolderUID d)],
               {| orgID := orgID om; CreatedFolders := l1 ++ l2 |}, e' : option error) in
              orgID om' = orgID om
              /\ (forall org uid, DeleteFolders org uid ∈ calls' ->
                    org = orgID om
                    /\ (exists d', Some d = Some d' /\ uid = DashboardUpgrade.NewFolderUID d'
                                   /\ uid <> "" /\ uid <> DashboardUpgrade.FolderUID d')
                    /\ exists l1' l2', CreatedFolders om = l1' ++ (uid :: l2') /\ (uid ∉ l1')
                                       /\ CreatedFolders om' = l1' ++ l2')
              /\ ((forall org uid, DeleteFolders org uid ∉ calls') -> CreatedFolders om' = CreatedFolders om)
              /\ (forall org uids, DeleteAlertRules org uids ∈ calls' ->
                    org = orgID om
                    /\ forall u, u ∈ uids -> u <> "" /\ exists d', Some d = Some d'
                         /\ {| DashboardUpgrade.AlertRule := Some u |} ∈ DashboardUpgrade.MigratedAlerts d')
              /\ (forall rules, InsertAlertRules rules ∉ calls')).
    { intros e'. split; [reflexivity|]. split; [|split; [|split]].
      - intros org uid Hin. apply elem_of_app in Hin as [Hin|Hin]; [exfalso; exact (Hnofolder _ _ Hin)|].
        apply list_elem_of_singleton in Hin. injection Hin as -> ->.
        split; [reflexivity|]. split.
        + exists d. repeat split; assumption.
        + exists l1, l2. repeat split; assumption.
      - intros Hnone. exfalso. apply (Hnone (orgID om) (DashboardUpgrade.NewFolderUID d)).
        apply elem_of_app. right. apply list_elem_of_singleton. reflexivity.
      - intros org uids Hin. apply elem_of_app in Hin as [Hin|Hin]; [exact (Hdel _ _ Hin)|].
        apply list_elem_of_singleton in Hin. discriminate Hin.
      - intros rules Hin. apply elem_of_app in Hin as [Hin|Hin]; [exact (Hnoinsert _ Hin)|].
        apply list_elem_of_singleton in Hin. discriminate Hin. }
    simpl. destruct (store_error (DeleteFolders _ _)) as [e'|]; exact (Hgoal None).
  - destruct Hrm as [_ ->]. destruct om as [o cr]. exact Hquiet.
Qed.

(** ** Titles of the inserted rules *)

Lemma insert_step_recorded (td : gmap string (gset string)) (out : list AlertRule.t)
    (rule : AlertRule.t) :
  titles_recorded td out ->
  titles_recorded (insert_step (td, out) rule).1 (insert_step (td, out) rule).2.
Proof.
  intros Hinv ns t. unfold insert_step. cbn [fst snd].
  set (rule' := if bool_decide _ then with_uid_suffix rule else rule).
  assert (Hns : AlertRule.NamespaceUID rule' = AlertRule.NamespaceUID rule)
    by (subst rule'; destruct (bool_decide _); reflexivity).
  rewrite Hns. destruct (decide (AlertRule.NamespaceUID rule = ns)) as [<-|Hne].
  - rewrite lookup_insert_eq. cbn [from_option id]. rewrite elem_of_union, elem_of_singleton.
    rewrite (Hinv (AlertRule.NamespaceUID rule) t). split.
    + intros [->|(r & Hr & Hn & Ht)].
      * exists rule'. rewrite elem_of_app, list_elem_of_singleton. auto.
      * exists r. rewrite elem_of_app. auto.
    + intros (r & Hr & Hn & Ht). apply elem_of_app in Hr as [Hr|Hr].
      * right. exists r. auto.
      * apply list_elem_of_singleton in Hr. subst r. left. symmetry. exact Ht.
  - rewrite lookup_insert_ne by exact Hne. rewrite (Hinv ns t). split.
    + intros (r & Hr & Hn & Ht). exists r. rewrite elem_of_app. auto.
    + intros (r & Hr & Hn & Ht). apply elem_of_app in Hr as [Hr|Hr].
      * exists r. auto.
      * apply list_elem_of_singleton in Hr. subst r. congruence.
Qed.

Lemma insert_fold_recorded (l : list AlertRule.t) (td : gmap string (gset string))
    (out : list AlertRule.t) :
  titles_recorded td out ->
  titles_recorded (fold_left insert_step l (td, out)).1 (fold_left insert_step l (td, out)).2.
Proof.
  revert td out. induction l as [|r l IH]; intros td out Hinv; [exact Hinv|].
  cbn [fold_left]. destruct (insert_step (td, out) r) as [td1 out1] eqn:Hstep.
  apply IH. pose proof (insert_step_recorded td out r Hinv) as Hnext.
  rewrite Hstep in Hnext. exact Hnext.
Qed.

Lemma len_truncateRuleName `{Constants} (daName : string) :
  0 <= AlertDefinitionMaxTitleLength ->
  len (truncateRuleName daName) <= AlertDefinitionMaxTitleLength.
Proof.
  intros Hmax. unfold truncateRuleName.
  destruct (Z.gtb_spec (len daName) AlertDefinitionMaxTitleLength) as [Hgt|Hle]; [|exact Hle].
  unfold len in *. rewrite string_length_take by lia. lia.
Qed.

Lemma len_truncateRuleName_full `{Constants} (daName : string) :
  0 <= AlertDefinitionMaxTitleLength ->
  AlertDefinitionMaxTitleLength <= len daName ->
  len (truncateRuleName daName) = AlertDefinitionMaxTitleLength.
Proof.
  intros Hmax Hlong. unfold truncateRuleName.
  destruct (Z.gtb_spec (len daName) AlertDefinitionMaxTitleLength) as [Hgt|Hle]; [|lia].
  unfold len in *. rewrite string_length_take by lia. lia.
Qed.

(** C2. [insertRules] does not do what the claim says. Take two rules of
    one folder whose titles are the same name truncated by
    [truncateRuleName], the name being at least as long as the maximum title
    length of the store. [insertRules] hands the first rule to the store as
    it is and the second one with a space, not an underscore, and its UID
    appended to the title, and it does not look at the length again: the
    title handed to the store is that much longer than the maximum. *)
Theorem insertRules_title_overflow `{Constants} `{StorePkg} `{RangeOrder}
    (org : Z) (r1 r2 : AlertRule.t) (channels1 channels2 : list uidOrID) (daName : string) :
  0 <= AlertDefinitionMaxTitleLength ->
  AlertDefinitionMaxTitleLength <= len daName ->
  AlertRule.Title r1 = truncateRuleName daName ->
  AlertRule.Title r2 = truncateRuleName daName ->
  AlertRule.NamespaceUID r1 = AlertRule.NamespaceUID r2 ->
  exists r2',
    (insertRules {[org := [(r1, channels1); (r2, channels2)]]}).1 = [InsertAlertRules [r1; r2']]
    /\ AlertRule.Title r2' = truncateRuleName daName +:+ " " +:+ AlertRule.UID r2
    /\ AlertRule.Title r2' <> truncateRuleName daName +:+ "_" +:+ AlertRule.UID r2
    /\ len (AlertRule.Title r2')
       = AlertDefinitionMaxTitleLength + 1 + len (AlertRule.UID r2)
    /\ AlertDefinitionMaxTitleLength < len (AlertRule.Title r2').
Proof.
  intros Hmax Hlong Ht1 Ht2 Hns. exists (with_uid_suffix r2).
  assert (Hdedup : dedup_titles [r1; r2] = [r1; with_uid_suffix r2]).
  { unfold dedup_titles. cbn [fold_left]. unfold insert_step at 2.
    rewrite lookup_empty. cbn [default from_option id].
    rewrite (bool_decide_eq_false_2 (AlertRule.Title r1 ∈ (∅ : gset string)))
      by apply not_elem_of_empty.
    unfold insert_step. rewrite <- Hns, lookup_insert_eq. cbn [default from_option id].
    rewrite bool_decide_eq_true_2; [reflexivity|].
    rewrite Ht2, <- Ht1. apply elem_of_union. left. apply elem_of_singleton. reflexivity. }
  split.
  - unfold insertRules.
    assert (Hrange : range ({[org := [(r1, channels1); (r2, channels2)]]}
                            : gmap Z (list (AlertRule.t * list uidOrID)))
                     = [(org, [(r1, channels1); (r2, channels2)])]).
    { apply Permutation_singleton_r. rewrite range_perm, map_to_list_singleton. reflexivity. }
    rewrite Hrange. cbn [insertRules_loop fmap list_fmap snd fst].
    change (fst <$> [(r1, channels1); (r2, channels2)]) with [r1; r2].
    rewrite Hdedup. destruct (store_error _); reflexivity.
  - cbn [with_uid_suffix AlertRule.Title]. rewrite Ht2.
    split; [reflexivity|]. split.
    + intros Heq. apply (String.app_inj (truncateRuleName daName)) in Heq. discriminate Heq.
    + assert (Hlen : len (truncateRuleName daName +:+ " " +:+ AlertRule.UID r2)
                     = AlertDefinitionMaxTitleLength + 1 + len (AlertRule.UID r2)).
      { rewrite !len_app, (len_truncateRuleName_full daName Hmax Hlong).
        change (len " ") with 1. lia. }
      split; [exact Hlen|]. rewrite Hlen. pose proof (len_nonneg (AlertRule.UID r2)). lia.
Qed.

Lemma insertRules_title_overflow_witness :
  let t := @truncateRuleName Fixtures.constants (Repeat "a" 191) in
  let r1 := Fixtures.rule 1 t "uid1" "folder" in
  let r2 := Fixtures.rule 1 t "uid2" "folder" in
  len t = 190
  /\ exists r2',
       (@insertRules Fixtures.store_ok Fixtures.range_list {[1 := [(r1, []); (r2, [])]]}).1
       = [InsertAlertRules [r1; r2']]
       /\ AlertRule.Title r2' = t +:+ " " +:+ "uid2"
       /\ AlertRule.Title r2' <> t +:+ "_" +:+ "uid2"
       /\ len (AlertRule.Title r2') = 195
       /\ @AlertDefinitionMaxTitleLength Fixtures.constants < len (AlertRule.Title r2').
Proof.
  cbv zeta. split; [vm_compute; reflexivity|].
  apply (@insertRules_title_overflow Fixtures.constants Fixtures.store_ok Fixtures.range_list
           1 (Fixtures.rule 1 (@truncateRuleName Fixtures.constants (Repeat "a" 191))
                "uid1" "folder")
           (Fixtures.rule 1 (@truncateRuleName Fixtures.constants (Repeat "a" 191))
              "uid2" "folder")
           [] [] (Repeat "a" 191)).
  - vm_compute. discriminate.
  - vm_compute. discriminate.
  - reflexivity.
  - reflexivity.
  - reflexivity.
Defined.

(** ** Receiver names *)

(** C5 fails on the code. The three channels below have pairwise distinct
    names. The second one is sanitized to [a_]; the third one, [a_], collides
    with it and gets the short hash of its name appended, which gives
    [a__576e09]: the name of the first receiver. The suffixed name is not
    checked against the names given out, so two receivers share a name. *)
Lemma createReceivers_duplicate_names :
  NoDup (AlertNotification.Name <$> Fixtures.colliding_channels)
  /\ hash_suffix "a_" = "_576e09"
  /\ exists receiversMap receivers st',
       @createReceivers Fixtures.strings_ascii Fixtures.util_fresh Fixtures.secrets_ok
         Fixtures.colliding_channels Fixtures.state0 = (inr (receiversMap, receivers), st')
       /\ (fun cr => PostableApiReceiver.Name (receiver cr)) <$> receivers
          = ["a__576e09"; "a_"; "a__576e09"]
       /\ ~ NoDup ((fun cr => PostableApiReceiver.Name (receiver cr)) <$> receivers).
Proof.
  split; [apply (bool_decide_unpack (NoDup _)); vm_compute; exact I|].
  split; [vm_compute; reflexivity|].
  eexists _, _, _. split; [vm_compute; reflexivity|].
  split; [vm_compute; reflexivity|].
  apply (bool_decide_unpack (~ NoDup _)). vm_compute. exact I.
Qed.

(** ** The root route *)

Lemma bind_inr {A B} (m : M A) (k : A -> M B) (st st' : state) (b : B) :
  bind m k st = (inr b, st') ->
  exists a st1, m st = (inr a, st1) /\ k a st1 = (inr b, st').
Proof.
  unfold bind. destruct (m st) as [[e|a] st1]; intros Hrun; [discriminate Hrun|].
  exists a, st1. split; [reflexivity | exact Hrun].
Qed.

Lemma wrap_inr {A} (msg : string) (m : M A) (st st' : state) (a : A) :
  wrap msg m st = (inr a, st') -> m st = (inr a, st').
Proof.
  unfold wrap. destruct (m st) as [[e|a'] st1]; intros Hrun; [discriminate Hrun | exact Hrun].
Qed.

Lemma ret_inr {A} (a a' : A) (st st' : state) :
  ret a st = (inr a', st') -> a = a' /\ st = st'.
Proof. unfold ret. intros Hrun. injection Hrun as <- <-. split; reflexivity. Qed.

Ltac inv_bind H :=
  let a := fresh "a" in
  let st1 := fresh "st" in
  let H1 := fresh "Hrun" in
  apply bind_inr in H; destruct H as (a & st1 & H1 & H).

Lemma createReceivers_step_length `{StringsPkg} `{UtilPkg} `{SecretsPkg}
    (acc acc' : receivers_acc) (c : AlertNotification.t) (st st' : state) :
  createReceivers_step acc c st = (inr acc', st') ->
  length acc'.1.1 = S (length acc.1.1).
Proof.
  destruct acc as [[receivers receiversMap] names]. unfold createReceivers_step.
  intros Hrun. inv_bind Hrun. inv_bind Hrun.
  apply ret_inr in Hrun as [<- _]. cbn [fst]. rewrite length_app. simpl. lia.
Qed.

Lemma createReceivers_loop_length `{StringsPkg} `{UtilPkg} `{SecretsPkg}
    (chans : list AlertNotification.t) (acc acc' : receivers_acc) (st st' : state) :
  foldM createReceivers_step acc chans st = (inr acc', st') ->
  length acc'.1.1 = (length acc.1.1 + length chans)%nat.
Proof.
  revert acc st. induction chans as [|c chans IH]; intros acc st Hrun; cbn [foldM] in Hrun.
  - apply ret_inr in Hrun as [<- _]. simpl. lia.
  - inv_bind Hrun. apply IH in Hrun. apply createReceivers_step_length in Hrun0.
    rewrite Hrun, Hrun0. simpl. lia.
Qed.

Lemma createReceivers_length `{StringsPkg} `{UtilPkg} `{SecretsPkg}
    (chans : list AlertNotification.t) (st st' : state)
    (receiversMap : gmap uidOrID PostableApiReceiver.t) (receivers : list channelReceiver) :
  createReceivers chans st = (inr (receiversMap, receivers), st') ->
  length receivers = length chans.
Proof.
  unfold createReceivers. intros Hrun. inv_bind Hrun.
  destruct a as [[rs rm] names]. apply ret_inr in Hrun as [Heq _]. injection Heq as <- <-.
  apply createReceivers_loop_length in Hrun0. exact Hrun0.
Qed.

Lemma createDefaultRouteAndReceiver_receiver `{StringsPkg} `{UtilPkg} `{SecretsPkg} `{Constants}
    (defaultChannels : list AlertNotification.t) (st st' : state)
    (defaultReceiver : option PostableApiReceiver.t) (defaultRoute : Route.t) :
  createDefaultRouteAndReceiver defaultChannels st = (inr (defaultReceiver, defaultRoute), st') ->
  Route.Receiver defaultRoute =
    match defaultChannels with
    | [c0] => AlertNotification.Name c0
    | _ => defaultReceiverName
    end.
Proof.
  unfold createDefaultRouteAndReceiver. destruct defaultChannels as [|c0 [|c1 rest]]; intros Hrun.
  - apply ret_inr in Hrun as [Heq _]. injection Heq as <- <-. reflexivity.
  - apply ret_inr in Hrun as [Heq _]. injection Heq as <- <-. reflexivity.
  - inv_bind Hrun. destruct a as [recv interval].
    apply ret_inr in Hrun as [Heq _]. injection Heq as <- <-. reflexivity.
Qed.

Lemma lookup_append_at (m : gmap Z (list AlertNotification.t)) (k org : Z)
    (c : AlertNotification.t) :
  append_at m k c !! org
  = if decide (k = org) then Some (default [] (m !! org) ++ [c]) else m !! org.
Proof.
  unfold append_at. destruct (decide (k = org)) as [->|Hne].
  - apply lookup_insert_eq.
  - apply lookup_insert_ne. exact Hne.
Qed.

Lemma group_step {A} (P : Prop) `{Decision P} (o : option (list A)) (c : A) (l : list A) :
  match (if decide P then c :: l else l) with
  | [] => o
  | x :: l' => Some (default [] o ++ x :: l')
  end
  = match l with
    | [] => if decide P then Some (default [] o ++ [c]) else o
    | x :: l' =>
        Some (default [] (if decide P then Some (default [] o ++ [c]) else o) ++ x :: l')
    end.
Proof.
  destruct (decide P), l as [|x l]; simpl; try reflexivity.
  rewrite <- app_assoc. reflexivity.
Qed.

(** the maps of [getNotificationChannelMap]: the channels of an
    organisation that are not discontinued, in the order of the rows, and
    those of them that are default channels; an organisation without such
    channels has no entry *)
Lemma channelMap_loop_spec (rows : list AlertNotification.t) :
  forall all0 def0 st all def st',
    foldM channelMap_step (all0, def0) rows st = (inr (all, def), st') ->
    forall org,
      all !! org
      = match filter (fun c => AlertNotification.OrgID c = org /\ discontinued c = false) rows with
        | [] => all0 !! org
        | x :: l => Some (default [] (all0 !! org) ++ x :: l)
        end
      /\ def !! org
         = match filter (fun c => AlertNotification.OrgID c = org
                                  /\ discontinued c = false
                                  /\ AlertNotification.IsDefault c = true) rows with
           | [] => def0 !! org
           | x :: l => Some (default [] (def0 !! org) ++ x :: l)
           end.
Proof.
  induction rows as [|c rows IH]; intros all0 def0 st all def st' Hrun org; cbn [foldM] in Hrun.
  - apply ret_inr in Hrun as [Heq _]. injection Heq as <- <-. split; reflexivity.
  - inv_bind Hrun. destruct a as [all1 def1].
    specialize (IH _ _ _ _ _ _ Hrun org). destruct IH as [IHall IHdef].
    rewrite !filter_cons.
    assert (Hstep : all1 !! org
                    = (if decide (AlertNotification.OrgID c = org /\ discontinued c = false)
                       then Some (default [] (all0 !! org) ++ [c]) else all0 !! org)
                    /\ def1 !! org
                       = (if decide (AlertNotification.OrgID c = org
                                     /\ discontinued c = false
                                     /\ AlertNotification.IsDefault c = true)
                          then Some (default [] (def0 !! org) ++ [c]) else def0 !! org)).
    { unfold channelMap_step in Hrun0. destruct (discontinued c) eqn:Hdisc.
      - inv_bind Hrun0. apply ret_inr in Hrun0 as [Heq _]. injection Heq as <- <-.
        rewrite !decide_False by (intros Hc; destruct Hc as (_ & Hc); destruct_and?; congruence).
        split; reflexivity.
      - apply ret_inr in Hrun0 as [Heq _]. injection Heq as <- <-.
        rewrite lookup_append_at. split.
        + destruct (decide (AlertNotification.OrgID c = org)) as [He|He].
          * rewrite decide_True by (split; [exact He | reflexivity]). reflexivity.
          * rewrite decide_False by (intros [Hc _]; contradiction). reflexivity.
        + destruct (AlertNotification.IsDefault c) eqn:Hdef.
          * rewrite lookup_append_at.
            destruct (decide (AlertNotification.OrgID c = org)) as [He|He].
            -- rewrite decide_True by (split; [exact He | split; reflexivity]). reflexivity.
            -- rewrite decide_False by (intros [Hc _]; contradiction). reflexivity.
          * rewrite decide_False by (intros (_ & _ & Hc); discriminate Hc). reflexivity. }
    destruct Hstep as [Hall1 Hdef1]. rewrite Hall1 in IHall. rewrite Hdef1 in IHdef.
    rewrite IHall, IHdef. split; symmetry; apply group_step.
Qed.

Lemma setup_step_spec
    `{StringsPkg} `{UtilPkg} `{SecretsPkg} `{RegexpPkg} `{NotifyPkg} `{Constants}
    (defaultChannelsPerOrg : gmap Z (list AlertNotification.t))
    (acc acc' : setup_acc) (org : Z) (chans : list AlertNotification.t) (st st' : state) :
  chans <> [] ->
  setup_step defaultChannelsPerOrg acc (org, chans) st = (inr acc', st') ->
  exists cfg route,
    acc'.1 = <[org := cfg]> acc.1
    /\ PostableUserConfig.Route cfg = Some route
    /\ Route.Receiver route =
         match default [] (defaultChannelsPerOrg !! org) with
         | [c0] => AlertNotification.Name c0
         | _ => defaultReceiverName
         end.
Proof.
  destruct acc as [cfgs rules]. unfold setup_step. intros Hne Hrun.
  inv_bind Hrun. destruct a as [receiversMap receivers].
  apply wrap_inr, createReceivers_length in Hrun0.
  destruct receivers as [|cr receivers].
  { destruct chans; [contradiction | discriminate Hrun0]. }
  inv_bind Hrun. destruct a as [defaultReceiver defaultRoute].
  apply wrap_inr, createDefaultRouteAndReceiver_receiver in Hrun1.
  inv_bind Hrun. inv_bind Hrun.
  destruct (validateAlertmanagerConfig _) as [err|]; [discriminate Hrun|].
  apply ret_inr in Hrun as [<- _]. cbn [fst].
  eexists _, _. split; [apply insert_insert_eq|]. split; [reflexivity|].
  cbn [with_Routes Route.Receiver]. exact Hrun1.
Qed.

Lemma setup_loop_spec
    `{StringsPkg} `{UtilPkg} `{SecretsPkg} `{RegexpPkg} `{NotifyPkg} `{Constants}
    (defaultChannelsPerOrg : gmap Z (list AlertNotification.t))
    (l : list (Z * list AlertNotification.t)) :
  forall (acc acc' : setup_acc) (st st' : state),
    (forall org chans, (org, chans) ∈ l -> chans <> []) ->
    foldM (setup_step defaultChannelsPerOrg) acc l st = (inr acc', st') ->
    forall org,
      (org ∈ l.*1 ->
       exists cfg route,
         acc'.1 !! org = Some cfg
         /\ PostableUserConfig.Route cfg = Some route
         /\ Route.Receiver route =
              match default [] (defaultChannelsPerOrg !! org) with
              | [c0] => AlertNotification.Name c0
              | _ => defaultReceiverName
              end)
      /\ (org ∉ l.*1 -> acc'.1 !! org = acc.1 !! org).
Proof.
  induction l as [|[o chans] l IH]; intros acc acc' st st' Hne Hrun org; cbn [foldM] in Hrun.
  - apply ret_inr in Hrun as [<- _]. split; [intros Hin; inversion Hin | reflexivity].
  - inv_bind Hrun.
    apply setup_step_spec in Hrun0 as (cfg & route & Hcfg & Hroute & Hrecv);
      [|apply (Hne o); left].
    assert (Hne' : forall org chans, (org, chans) ∈ l -> chans <> [])
      by (intros org' chans' Hin; apply (Hne org'); right; exact Hin).
    destruct (IH _ _ _ _ Hne' Hrun org) as [IHin IHout].
    cbn [fmap list_fmap fst].
    assert (Hhere : org ∉ l.*1 -> o = org ->
              exists cfg route,
                acc'.1 !! org = Some cfg
                /\ PostableUserConfig.Route cfg = Some route
                /\ Route.Receiver route =
                     match default [] (defaultChannelsPerOrg !! org) with
                     | [c0] => AlertNotification.Name c0
                     | _ => defaultReceiverName
                     end).
    { intros Hout <-. exists cfg, route. rewrite (IHout Hout), Hcfg, lookup_insert_eq.
      repeat split; assumption. }
    split.
    + intros Hin. destruct (decide (org ∈ l.*1)) as [Hl|Hl]; [exact (IHin Hl)|].
      apply elem_of_cons in Hin as [->|Hin]; [apply Hhere; [exact Hl | reflexivity] | contradiction].
    + intros Hout. apply not_elem_of_cons in Hout as [Hneq Hout].
      rewrite (IHout Hout), Hcfg. apply lookup_insert_ne. congruence.
Qed.

Lemma getNotificationChannelMap_rows (rows : list AlertNotification.t) :
  getNotificationChannelMap (inr rows) = foldM channelMap_step (∅, ∅) rows.
Proof. destruct rows; reflexivity. Qed.

(** C1, as the code has it. When [setupAlertmanagerConfigs] succeeds, an
    organisation with at least one channel that is not discontinued gets a
    configuration with a root route; the receiver of the root route is the
    name of the default channel when exactly one of the channels of the
    organisation that are not discontinued is a default channel, and
    [autogen-contact-point-default] otherwise, also when none is. An
    organisation without such a channel gets no configuration. *)
Theorem setupAlertmanagerConfigs_root_route
    `{StringsPkg} `{UtilPkg} `{SecretsPkg} `{RegexpPkg} `{NotifyPkg} `{Constants} `{RangeOrder}
    (rows : list AlertNotification.t)
    (rulesPerOrg rules' : gmap Z (list (AlertRule.t * list uidOrID)))
    (cfgs : gmap Z PostableUserConfig.t) (st st' : state) :
  setupAlertmanagerConfigs (inr rows) rulesPerOrg st = (inr (cfgs, rules'), st') ->
  forall org,
    let channels :=
      filter (fun c => AlertNotification.OrgID c = org /\ discontinued c = false) rows in
    let defaults :=
      filter (fun c => AlertNotification.OrgID c = org /\ discontinued c = false
                       /\ AlertNotification.IsDefault c = true) rows in
    (channels = [] -> cfgs !! org = None)
    /\ (channels <> [] ->
        exists cfg route,
          cfgs !! org = Some cfg
          /\ PostableUserConfig.Route cfg = Some route
          /\ Route.Receiver route =
               match defaults with
               | [c0] => AlertNotification.Name c0
               | _ => defaultReceiverName
               end).
Proof.
  intros Hrun org. cbv zeta.
  set (channels := filter (fun c => AlertNotification.OrgID c = org /\ discontinued c = false) rows).
  set (defaults := filter (fun c => AlertNotification.OrgID c = org /\ discontinued c = false
                                    /\ AlertNotification.IsDefault c = true) rows).
  unfold setupAlertmanagerConfigs in Hrun.
  inv_bind Hrun. destruct a as [allChannelsPerOrg defaultChannelsPerOrg].
  apply wrap_inr in Hrun0. rewrite getNotificationChannelMap_rows in Hrun0.
  destruct (channelMap_loop_spec _ _ _ _ _ _ _ Hrun0 org) as [Hall Hdef].
  fold channels in Hall. fold defaults in Hdef. rewrite lookup_empty in Hall, Hdef.
  assert (Hin : forall o chans, (o, chans) ∈ range allChannelsPerOrg
                                <-> allChannelsPerOrg !! o = Some chans).
  { intros o chans. rewrite (range_perm _ allChannelsPerOrg). apply elem_of_map_to_list. }
  assert (Hne : forall o chans, (o, chans) ∈ range allChannelsPerOrg -> chans <> []).
  { intros o chans Ho. apply Hin in Ho.
    destruct (channelMap_loop_spec _ _ _ _ _ _ _ Hrun0 o) as [Ho' _].
    rewrite Ho in Ho'. rewrite lookup_empty in Ho'.
    match type of Ho' with
    | context [match ?f with [] => _ | _ => _ end] => destruct f
    end; [discriminate Ho'|]. injection Ho' as ->. discriminate. }
  destruct (setup_loop_spec _ _ _ _ _ _ Hne Hrun org) as [Hproc Hskip].
  cbn [fst] in Hproc, Hskip.
  assert (Hkeys : org ∈ (range allChannelsPerOrg).*1 <-> is_Some (allChannelsPerOrg !! org)).
  { rewrite list_elem_of_fmap. split.
    - intros ([o chans] & -> & Ho). apply Hin in Ho. eexists. exact Ho.
    - intros [chans Ho]. exists (org, chans). split; [reflexivity | apply Hin, Ho]. }
  split.
  - intros Hnone. rewrite Hnone in Hall. rewrite Hskip; [apply lookup_empty|].
    rewrite Hkeys, Hall. intros [x Hx]. discriminate Hx.
  - intros Hsome. destruct Hproc as (cfg & route & Hcfg & Hroute & Hrecv).
    { rewrite Hkeys, Hall. destruct channels; [contradiction | eexists; reflexivity]. }
    exists cfg, route. split; [exact Hcfg|]. split; [exact Hroute|].
    rewrite Hrecv, Hdef. destruct defaults as [|c0 [|c1 rest]]; reflexivity.
Qed.

Lemma setupAlertmanagerConfigs_root_route_witness :
  exists cfgs rules' st',
    @setupAlertmanagerConfigs Fixtures.strings_ascii Fixtures.util_fresh Fixtures.secrets_ok
      Fixtures.regexp_ok Fixtures.notify_ok Fixtures.constants Fixtures.range_list
      (inr Fixtures.two_orgs) (Fixtures.rules_of 1 [inl "u2"]) Fixtures.state0
    = (inr (cfgs, rules'), st')
    /\ (exists cfg route,
          cfgs !! 1 = Some cfg /\ PostableUserConfig.Route cfg = Some route
          /\ Route.Receiver route = "mail")
    /\ (exists cfg route,
          cfgs !! 2 = Some cfg /\ PostableUserConfig.Route cfg = Some route
          /\ Route.Receiver route = "autogen-contact-point-default")
    /\ cfgs !! 3 = None.
Proof.
  assert (Hrun : exists cfgs rules' st',
            @setupAlertmanagerConfigs Fixtures.strings_ascii Fixtures.util_fresh
              Fixtures.secrets_ok Fixtures.regexp_ok Fixtures.notify_ok Fixtures.constants
              Fixtures.range_list (inr Fixtures.two_orgs) (Fixtures.rules_of 1 [inl "u2"])
              Fixtures.state0
            = (inr (cfgs, rules'), st'))
    by (eexists _, _, _; vm_compute; reflexivity).
  destruct Hrun as (cfgs & rules' & st' & Hrun). exists cfgs, rules', st'.
  split; [exact Hrun|].
  pose proof (@setupAlertmanagerConfigs_root_route Fixtures.strings_ascii Fixtures.util_fresh
                Fixtures.secrets_ok Fixtures.regexp_ok Fixtures.notify_ok Fixtures.constants
                Fixtures.range_list _ _ _ _ _ _ Hrun) as Hspec.
  split; [|split].
  - destruct (Hspec 1) as [_ Hsome]. apply Hsome. cbv. discriminate.
  - destruct (Hspec 2) as [_ Hsome]. apply Hsome. cbv. discriminate.
  - destruct (Hspec 3) as [Hnone _]. apply Hnone. reflexivity.
Defined.

(** The claim as it is written fails: an organisation that has a rule to
    route and no notification channel gets no configuration at all, hence no
    root route, while the organisation that has a channel gets one. Were the
    body of the loop run for an organisation with an empty list of channels,
    it would leave a configuration without root route. *)
Lemma setupAlertmanagerConfigs_counterexample :
  (exists cfgs rules' st',
     @setupAlertmanagerConfigs Fixtures.strings_ascii Fixtures.util_fresh Fixtures.secrets_ok
       Fixtures.regexp_ok Fixtures.notify_ok Fixtures.constants Fixtures.range_list
       (inr [Fixtures.chan 7 2 "u7" "mail" true]) (Fixtures.rules_of 1 []) Fixtures.state0
     = (inr (cfgs, rules'), st')
     /\ is_Some (rules' !! 1)
     /\ cfgs !! 1 = None
     /\ is_Some (cfgs !! 2))
  /\ (exists cfgs rules' st' cfg,
        @setup_step Fixtures.strings_ascii Fixtures.util_fresh Fixtures.secrets_ok
          Fixtures.regexp_ok Fixtures.notify_ok Fixtures.constants
          ∅ (∅, Fixtures.rules_of 1 []) (1, []) Fixtures.state0
        = (inr (cfgs, rules'), st')
        /\ cfgs !! 1 = Some cfg
        /\ PostableUserConfig.Route cfg = None).
Proof.
  split.
  - eexists _, _, _. split; [vm_compute; reflexivity|].
    split; [eexists; vm_compute; reflexivity|].
    split; [vm_compute; reflexivity|].
    eexists; vm_compute; reflexivity.
  - eexists _, _, _, _. split; [vm_compute; reflexivity|].
    split; vm_compute; reflexivity.
Qed.

(** * Part III: further properties of the code *)

(** ** Generated UIDs *)

Lemma generateUid_inr `{StringsPkg} `{UtilPkg} (st st' : state) (g : string) :
  generateUid st = (inr g, st') ->
  contains (seenUIDs st) g = false
  /\ seenUIDs st' = add (seenUIDs st) g
  /\ logs st' = logs st
  /\ (rnd st < rnd st' <= rnd st + 5)%nat.
Proof.
  unfold generateUid. intros Hrun. pose proof (generateUid_loop_spec 5 st) as Hloop.
  destruct (list_find _ _) as [[i g']|] eqn:Hfind; rewrite Hloop in Hrun;
    [|discriminate Hrun].
  injection Hrun as <- <-. apply list_find_Some in Hfind as (Hlk & Hfresh & _).
  apply lookup_lt_Some in Hlk. rewrite length_fmap, length_seq in Hlk.
  cbn [seenUIDs rnd logs]. repeat split; try assumption; lia.
Qed.

(** X1. A UID that [generateUid] returns was not in the set of seen UIDs
    and is in it afterwards, so a later call, made in any state whose set
    still holds what the set held after the first call, returns another
    UID. *)
Theorem generateUid_never_repeats `{StringsPkg} `{UtilPkg}
    (st st1 st' st2 : state) (g1 g2 : string) :
  generateUid st = (inr g1, st1) ->
  caseInsensitive (seenUIDs st') = caseInsensitive (seenUIDs st1) ->
  set (seenUIDs st1) ⊆ set (seenUIDs st') ->
  generateUid st' = (inr g2, st2) ->
  contains (seenUIDs st) g1 = false
  /\ contains (seenUIDs st1) g1 = true
  /\ g1 <> g2
  /\ dedup_key (seenUIDs st1) g1 <> dedup_key (seenUIDs st1) g2.
Proof.
  intros Hfirst Hflag Hgrow Hsecond.
  apply generateUid_inr in Hfirst as (Hfresh1 & Hseen1 & _).
  apply generateUid_inr in Hsecond as (Hfresh2 & _).
  assert (Hin1 : dedup_key (seenUIDs st1) g1 ∈ set (seenUIDs st1)).
  { rewrite Hseen1. unfold add, dedup_key. cbn [set caseInsensitive]. set_solver. }
  assert (Hkey : dedup_key (seenUIDs st1) g1 <> dedup_key (seenUIDs st1) g2).
  { intros Heq. unfold contains in Hfresh2. apply bool_decide_eq_false in Hfresh2.
    apply Hfresh2. unfold dedup_key in *. rewrite Hflag, <- Heq. apply Hgrow, Hin1. }
  split; [exact Hfresh1|]. split; [unfold contains; apply bool_decide_eq_true; exact Hin1|].
  split; [intros ->; apply Hkey; reflexivity | exact Hkey].
Qed.

Lemma generateUid_never_repeats_witness :
  exists st1 st2,
    @generateUid Fixtures.strings_ascii Fixtures.util_fresh Fixtures.state0 = (inr "u", st1)
    /\ @generateUid Fixtures.strings_ascii Fixtures.util_fresh st1 = (inr "uu", st2)
    /\ "u" <> "uu".
Proof.
  assert (Hruns : exists st1 st2,
            @generateUid Fixtures.strings_ascii Fixtures.util_fresh Fixtures.state0 = (inr "u", st1)
            /\ @generateUid Fixtures.strings_ascii Fixtures.util_fresh st1 = (inr "uu", st2)).
  { exists {| seenUIDs := @add Fixtures.strings_ascii (seenUIDs Fixtures.state0) "u";
              rnd := 1; logs := [] |}.
    exists {| seenUIDs := @add Fixtures.strings_ascii
                            (@add Fixtures.strings_ascii (seenUIDs Fixtures.state0) "u") "uu";
              rnd := 2; logs := [] |}.
    split; reflexivity. }
  destruct Hruns as (st1 & st2 & Hfirst & Hsecond). exists st1, st2.
  split; [exact Hfirst|]. split; [exact Hsecond|].
  apply (@generateUid_never_repeats Fixtures.strings_ascii Fixtures.util_fresh
           _ _ st1 _ _ _ Hfirst eq_refl (reflexivity _) Hsecond).
Defined.

(** ** Loops in the monad *)

(** an invariant over the elements visited so far holds when the loop ends
    without error *)
Lemma foldM_inv {A B} (f : B -> A -> M B) (I : list A -> B -> Prop) :
  (forall done acc x st acc' st',
      I done acc -> f acc x st = (inr acc', st') -> I (done ++ [x]) acc') ->
  forall xs done acc st acc' st',
    I done acc -> foldM f acc xs st = (inr acc', st') -> I (done ++ xs) acc'.
Proof.
  intros Hstep xs. induction xs as [|x xs IH]; intros done acc st acc' st' Hinv Hrun;
    cbn [foldM] in Hrun.
  - apply ret_inr in Hrun as [<- _]. rewrite app_nil_r. exact Hinv.
  - inv_bind Hrun. replace (done ++ x :: xs) with ((done ++ [x]) ++ xs)
      by (rewrite <- app_assoc; reflexivity).
    eapply IH; [|exact Hrun]. eapply Hstep; eassumption.
Qed.

(** ** Receivers *)

(** the name [createReceivers] gives a receiver, given the names given out *)
Lemma createReceivers_step_inr `{StringsPkg} `{UtilPkg} `{SecretsPkg}
    (receivers : list channelReceiver) (receiversMap : gmap uidOrID PostableApiReceiver.t)
    (names : gset string) (acc' : receivers_acc) (c : AlertNotification.t) (st st' : state) :
  createReceivers_step (receivers, receiversMap, names) c st = (inr acc', st') ->
  exists notifier st1,
    createNotifier c st = (inr notifier, st1)
    /\ let sanitized := ReplaceAll (AlertNotification.Name c) dquote "_" in
       let name := if bool_decide (sanitized ∈ names)
                   then sanitized +:+ hash_suffix (AlertNotification.Name c) else sanitized in
       let recv := {| PostableApiReceiver.Name := name;
                      PostableApiReceiver.GrafanaManagedReceivers := [with_Name notifier name] |} in
       acc' = (receivers ++ [{| channel := c; receiver := recv |}],
               (if decide (AlertNotification.ID c = 0) then id
                else insert (inr (AlertNotification.ID c)) recv)
                 ((if decide (AlertNotification.UID c = "") then id
                   else insert (inl (AlertNotification.UID c)) recv) receiversMap),
               {[name]} ∪ names).
Proof.
  unfold createReceivers_step. intros Hrun. inv_bind Hrun. exists a, st0.
  split; [exact Hrun0|]. cbv zeta.
  destruct (bool_decide _).
  - inv_bind Hrun. inv_bind Hrun1. apply ret_inr in Hrun1 as [<- _].
    apply ret_inr in Hrun as [<- _].
    destruct (decide (AlertNotification.UID c = "")), (decide (AlertNotification.ID c = 0));
      reflexivity.
  - inv_bind Hrun. apply ret_inr in Hrun1 as [<- _]. apply ret_inr in Hrun as [<- _].
    destruct (decide (AlertNotification.UID c = "")), (decide (AlertNotification.ID c = 0));
      reflexivity.
Qed.

Lemma createNotifier_inr `{StringsPkg} `{UtilPkg} `{SecretsPkg}
    (c : AlertNotification.t) (st st' : state) (notifier : PostableGrafanaReceiver.t) :
  createNotifier c st = (inr notifier, st') ->
  PostableGrafanaReceiver.Name notifier = AlertNotification.Name c
  /\ PostableGrafanaReceiver.Type_ notifier = AlertNotification.Type_ c
  /\ PostableGrafanaReceiver.DisableResolveMessage notifier
     = AlertNotification.DisableResolveMessage c.
Proof.
  unfold createNotifier. intros Hrun. inv_bind Hrun. inv_bind Hrun.
  destruct a0 as [settings secure]. apply ret_inr in Hrun as [<- _]. repeat split.
Qed.

Lemma createReceivers_inr `{StringsPkg} `{UtilPkg} `{SecretsPkg}
    (allChannels : list AlertNotification.t) (st st' : state)
    (receiversMap : gmap uidOrID PostableApiReceiver.t) (receivers : list channelReceiver) :
  createReceivers allChannels st = (inr (receiversMap, receivers), st') ->
  exists names st1,
    foldM createReceivers_step ([], ∅, ∅) allChannels st
    = (inr (receivers, receiversMap, names), st1).
Proof.
  unfold createReceivers. intros Hrun. inv_bind Hrun. destruct a as [[rs rm] names].
  apply ret_inr in Hrun as [Heq _]. injection Heq as <- <-. exists names, st0. exact Hrun0.
Qed.

Lemma list_ascii_of_string_app (s t : string) :
  list_ascii_of_string (s +:+ t) = list_ascii_of_string s ++ list_ascii_of_string t.
Proof. induction s as [|c s IH]; simpl; [reflexivity | rewrite IH; reflexivity]. Qed.

Lemma quote_free_app (s t : string) : quote_free s -> quote_free t -> quote_free (s +:+ t).
Proof.
  unfold quote_free. rewrite list_ascii_of_string_app, elem_of_app. tauto.
Qed.

Lemma quote_free_ReplaceAll (s : string) : quote_free (ReplaceAll s dquote "_").
Proof.
  unfold quote_free. induction s as [|c s IH]; simpl.
  - apply not_elem_of_nil.
  - apply not_elem_of_cons. split; [|exact IH].
    destruct (decide (c = dquote)) as [->|Hne]; [discriminate | congruence].
Qed.

Lemma hex_digit_not_quote (n : Z) : 0 <= n < 16 -> hex_digit n <> dquote.
Proof.
  intros Hn Heq. unfold hex_digit, dquote in Heq.
  apply (f_equal nat_of_ascii) in Heq.
  rewrite !nat_ascii_embedding in Heq by (destruct (n <? 10); lia).
  destruct (n <? 10); lia.
Qed.

Lemma quote_free_hex_prec (prec : nat) (bytes : list Z) :
  Forall (fun b => 0 <= b < 256) bytes -> quote_free (hex_prec prec bytes).
Proof.
  unfold hex_prec. intros Hall. apply (Forall_take _ prec) in Hall.
  induction Hall as [|b bs Hb _ IH]; simpl.
  - apply not_elem_of_nil.
  - apply (quote_free_app (hex_byte b)); [|exact IH].
    unfold quote_free, hex_byte. simpl. rewrite !not_elem_of_cons.
    assert (H1 : 0 <= b / 16 < 16)
      by (split; [apply Z.div_pos; lia | apply Z.div_lt_upper_bound; lia]).
    assert (H2 : 0 <= b mod 16 < 16) by (apply Z.mod_pos_bound; lia).
    repeat split; try apply not_elem_of_nil; intros Heq; symmetry in Heq;
      revert Heq; apply hex_digit_not_quote; assumption.
Qed.

Lemma le_bytes_range (n : nat) (x : Z) : Forall (fun b => 0 <= b < 256) (MD5.le_bytes n x).
Proof.
  unfold MD5.le_bytes. apply Forall_forall. intros b Hb.
  apply list_elem_of_fmap in Hb as (i & -> & _). apply Z.mod_pos_bound. lia.
Qed.

Lemma md5_Sum_range (msg : list Z) : Forall (fun b => 0 <= b < 256) (MD5.Sum msg).
Proof.
  unfold MD5.Sum. destruct (MD5.blocks _ _ _) as [[[a b] c] d].
  repeat apply Forall_app_2; apply le_bytes_range.
Qed.

Lemma quote_free_hash_suffix (name : string) : quote_free (hash_suffix name).
Proof.
  unfold hash_suffix. apply (quote_free_app "_").
  - unfold quote_free. simpl. rewrite not_elem_of_cons. split; [discriminate | apply not_elem_of_nil].
  - apply quote_free_hex_prec, md5_Sum_range.
Qed.

Lemma createReceivers_forall2 `{StringsPkg} `{UtilPkg} `{SecretsPkg}
    (allChannels : list AlertNotification.t) (st st' : state)
    (receiversMap : gmap uidOrID PostableApiReceiver.t) (receivers : list channelReceiver) :
  createReceivers allChannels st = (inr (receiversMap, receivers), st') ->
  Forall2 (fun cr c =>
             channel cr = c
             /\ quote_free (PostableApiReceiver.Name (receiver cr))
             /\ exists notifier,
                  PostableApiReceiver.GrafanaManagedReceivers (receiver cr) = [notifier]
                  /\ PostableGrafanaReceiver.Name notifier = PostableApiReceiver.Name (receiver cr)
                  /\ PostableGrafanaReceiver.Type_ notifier = AlertNotification.Type_ c
                  /\ PostableGrafanaReceiver.DisableResolveMessage notifier
                     = AlertNotification.DisableResolveMessage c)
          receivers allChannels.
Proof.
  intros Hrun. apply createReceivers_inr in Hrun as (names & st1 & Hrun).
  apply (foldM_inv createReceivers_step
           (fun done acc =>
              Forall2 (fun cr c =>
                 channel cr = c
                 /\ quote_free (PostableApiReceiver.Name (receiver cr))
                 /\ exists notifier,
                      PostableApiReceiver.GrafanaManagedReceivers (receiver cr) = [notifier]
                      /\ PostableGrafanaReceiver.Name notifier
                         = PostableApiReceiver.Name (receiver cr)
                      /\ PostableGrafanaReceiver.Type_ notifier = AlertNotification.Type_ c
                      /\ PostableGrafanaReceiver.DisableResolveMessage notifier
                         = AlertNotification.DisableResolveMessage c) acc.1.1 done)
           ) with (done := []) in Hrun; [exact Hrun| |constructor].
  clear. intros done [[rs rm] names] c st acc' st' Hall Hstep.
  apply createReceivers_step_inr in Hstep as (notifier & st1 & Hnot & ->).
  apply createNotifier_inr in Hnot as (_ & Hty & Hdis). cbn [fst] in *.
  apply Forall2_app; [exact Hall|]. constructor; [|constructor]. cbn.
  split; [reflexivity|]. split.
  - destruct (bool_decide _); [apply quote_free_app|];
      first [apply quote_free_ReplaceAll | apply quote_free_hash_suffix].
  - eexists. split; [reflexivity|]. repeat split; assumption.
Qed.

(** X2. When [createReceivers] succeeds there is one receiver for each
    channel, in the order of the channels; a receiver holds exactly one
    notifier, which carries the name of the receiver and the type and the
    resolve-message flag of the channel; and no receiver name holds a double
    quote, the separator of the contact label. *)
Theorem createReceivers_shape `{StringsPkg} `{UtilPkg} `{SecretsPkg}
    (allChannels : list AlertNotification.t) (st st' : state)
    (receiversMap : gmap uidOrID PostableApiReceiver.t) (receivers : list channelReceiver) :
  createReceivers allChannels st = (inr (receiversMap, receivers), st') ->
  channel <$> receivers = allChannels
  /\ Forall (fun cr =>
       quote_free (PostableApiReceiver.Name (receiver cr))
       /\ exists notifier,
            PostableApiReceiver.GrafanaManagedReceivers (receiver cr) = [notifier]
            /\ PostableGrafanaReceiver.Name notifier = PostableApiReceiver.Name (receiver cr)
            /\ PostableGrafanaReceiver.Type_ notifier = AlertNotification.Type_ (channel cr)
            /\ PostableGrafanaReceiver.DisableResolveMessage notifier
               = AlertNotification.DisableResolveMessage (channel cr)) receivers.
Proof.
  intros Hrun. apply createReceivers_forall2 in Hrun. split.
  - induction Hrun as [|cr c rs cs (Hc & _) _ IH]; [reflexivity|].
    rewrite fmap_cons, Hc, IH. reflexivity.
  - induction Hrun as [|cr c rs cs (<- & Hfree & Hnot) _ IH]; constructor; [|exact IH].
    split; [exact Hfree | exact Hnot].
Qed.

Lemma createReceivers_shape_witness :
  exists receiversMap receivers st',
    @createReceivers Fixtures.strings_ascii Fixtures.util_fresh Fixtures.secrets_ok
      Fixtures.two_orgs Fixtures.state0 = (inr (receiversMap, receivers), st')
    /\ channel <$> receivers = Fixtures.two_orgs.
Proof.
  assert (Hrun : exists receiversMap receivers st',
            @createReceivers Fixtures.strings_ascii Fixtures.util_fresh Fixtures.secrets_ok
              Fixtures.two_orgs Fixtures.state0 = (inr (receiversMap, receivers), st'))
    by (eexists _, _, _; vm_compute; reflexivity).
  destruct Hrun as (rm & rs & st' & Hrun). exists rm, rs, st'. split; [exact Hrun|].
  apply (@createReceivers_shape Fixtures.strings_ascii Fixtures.util_fresh Fixtures.secrets_ok
           _ _ _ _ _ Hrun).
Defined.

(** X3. When the sanitized names of the channels (every double quote
    replaced by an underscore) are pairwise distinct, [createReceivers] adds
    no suffix: the receiver names are the sanitized names, in the order of
    the channels, and so pairwise distinct. *)
Theorem createReceivers_names_distinct `{StringsPkg} `{UtilPkg} `{SecretsPkg}
    (allChannels : list AlertNotification.t) (st st' : state)
    (receiversMap : gmap uidOrID PostableApiReceiver.t) (receivers : list channelReceiver) :
  createReceivers allChannels st = (inr (receiversMap, receivers), st') ->
  NoDup ((fun c => ReplaceAll (AlertNotification.Name c) dquote "_") <$> allChannels) ->
  (fun cr => PostableApiReceiver.Name (receiver cr)) <$> receivers
  = (fun c => ReplaceAll (AlertNotification.Name c) dquote "_") <$> allChannels
  /\ NoDup ((fun cr => PostableApiReceiver.Name (receiver cr)) <$> receivers).
Proof.
  intros Hrun Hnd. apply createReceivers_inr in Hrun as (names & st1 & Hrun).
  set (san := fun c => ReplaceAll (AlertNotification.Name c) dquote "_") in *.
  pose proof (foldM_inv createReceivers_step
           (fun done acc =>
              NoDup (san <$> done) ->
              (fun cr => PostableApiReceiver.Name (receiver cr)) <$> acc.1.1 = san <$> done
              /\ forall x, x ∈ acc.2 <-> x ∈ san <$> done)) as Hfold.
  cbv beta in Hfold.
  assert (Hgoal : (fun cr => PostableApiReceiver.Name (receiver cr)) <$> receivers
                  = san <$> allChannels
                  /\ forall x, x ∈ names <-> x ∈ san <$> allChannels).
  { refine (Hfold _ allChannels [] _ _ _ _ _ Hrun Hnd).
    - clear. intros done [[rs rm] names] c st acc' st' Hinv Hstep Hnd.
      apply createReceivers_step_inr in Hstep as (notifier & st1 & _ & ->).
      rewrite fmap_app in Hnd. apply NoDup_app in Hnd as (Hnd & Hfresh & _).
      destruct (Hinv Hnd) as [Hnames Hset]. cbn [fst snd] in *.
      assert (Hnew : san c ∉ names).
      { rewrite Hset. intros Hin. apply (Hfresh _ Hin). left. }
      unfold san in Hnew at 1. rewrite (bool_decide_eq_false_2 _ Hnew). split.
      + rewrite !fmap_app, Hnames. reflexivity.
      + intros x. rewrite elem_of_union, elem_of_singleton, Hset, fmap_app, elem_of_app.
        cbn. rewrite list_elem_of_singleton. tauto.
    - intros _. split; [reflexivity|]. intros x. cbn. split; intros Hx; [set_solver | inversion Hx]. }
  destruct Hgoal as [Heq _]. split; [exact Heq|]. rewrite Heq. exact Hnd.
Qed.

Lemma createReceivers_names_distinct_witness :
  exists receiversMap receivers st',
    @createReceivers Fixtures.strings_ascii Fixtures.util_fresh Fixtures.secrets_ok
      Fixtures.two_orgs Fixtures.state0 = (inr (receiversMap, receivers), st')
    /\ (fun cr => PostableApiReceiver.Name (receiver cr)) <$> receivers
       = ["mail"; "pager"; "hook"].
Proof.
  assert (Hrun : exists receiversMap receivers st',
            @createReceivers Fixtures.strings_ascii Fixtures.util_fresh Fixtures.secrets_ok
              Fixtures.two_orgs Fixtures.state0 = (inr (receiversMap, receivers), st'))
    by (eexists _, _, _; vm_compute; reflexivity).
  destruct Hrun as (rm & rs & st' & Hrun). exists rm, rs, st'. split; [exact Hrun|].
  apply (@createReceivers_names_distinct Fixtures.strings_ascii Fixtures.util_fresh
           Fixtures.secrets_ok _ _ _ _ _ Hrun).
  apply (bool_decide_unpack (NoDup _)). vm_compute. exact I.
Defined.

(** X4. When [createReceivers] succeeds, the map from UID or ID to
    receiver has an entry under the UID of every channel with a non-empty
    UID and under the ID of every channel with a non-zero ID, and every
    entry of the map is the receiver of a channel that has that UID or that
    ID: an empty UID and a zero ID are never keys. *)
Theorem createReceivers_map `{StringsPkg} `{UtilPkg} `{SecretsPkg}
    (allChannels : list AlertNotification.t) (st st' : state)
    (receiversMap : gmap uidOrID PostableApiReceiver.t) (receivers : list channelReceiver) :
  createReceivers allChannels st = (inr (receiversMap, receivers), st') ->
  (forall k r, receiversMap !! k = Some r ->
     exists cr, cr ∈ receivers /\ r = receiver cr
       /\ ((k = inl (AlertNotification.UID (channel cr)) /\ AlertNotification.UID (channel cr) <> "")
           \/ (k = inr (AlertNotification.ID (channel cr)) /\ AlertNotification.ID (channel cr) <> 0)))
  /\ (forall c, c ∈ allChannels -> AlertNotification.UID c <> "" ->
        is_Some (receiversMap !! inl (AlertNotification.UID c)))
  /\ (forall c, c ∈ allChannels -> AlertNotification.ID c <> 0 ->
        is_Some (receiversMap !! inr (AlertNotification.ID c))).
Proof.
  intros Hrun. apply createReceivers_inr in Hrun as (names & st1 & Hrun).
  apply (foldM_inv createReceivers_step
           (fun done acc =>
              (forall k r, (acc.1.2 : gmap uidOrID PostableApiReceiver.t) !! k = Some r ->
                 exists cr, cr ∈ acc.1.1 /\ r = receiver cr
                   /\ ((k = inl (AlertNotification.UID (channel cr))
                        /\ AlertNotification.UID (channel cr) <> "")
                       \/ (k = inr (AlertNotification.ID (channel cr))
                           /\ AlertNotification.ID (channel cr) <> 0)))
              /\ (forall c, c ∈ done -> AlertNotification.UID c <> "" ->
                    is_Some ((acc.1.2 : gmap uidOrID PostableApiReceiver.t)
                               !! inl (AlertNotification.UID c)))
              /\ (forall c, c ∈ done -> AlertNotification.ID c <> 0 ->
                    is_Some ((acc.1.2 : gmap uidOrID PostableApiReceiver.t)
                               !! inr (AlertNotification.ID c))))
           ) with (done := []) in Hrun; [exact Hrun| |].
  - clear. intros done [[rs rm] names] c st acc' st' (Hval & Huid & Hid) Hstep.
    apply createReceivers_step_inr in Hstep as (notifier & st1 & _ & ->). cbn [fst snd] in *.
    set (name := if bool_decide _ then _ else _).
    set (recv := {| PostableApiReceiver.Name := name;
                    PostableApiReceiver.GrafanaManagedReceivers := [with_Name notifier name] |}).
    set (rm1 := (if decide (AlertNotification.UID c = "") then id
                 else insert (inl (AlertNotification.UID c)) recv) rm).
    set (rm2 := (if decide (AlertNotification.ID c = 0) then id
                 else insert (inr (AlertNotification.ID c)) recv) rm1).
    assert (Hlk1 : forall k, rm1 !! k
              = if decide (AlertNotification.UID c <> "" /\ k = inl (AlertNotification.UID c))
                then Some recv else rm !! k).
    { intros k. subst rm1. destruct (decide (AlertNotification.UID c = "")) as [He|He].
      - rewrite decide_False by tauto. reflexivity.
      - destruct (decide (k = inl (AlertNotification.UID c))) as [->|Hk].
        + rewrite decide_True by tauto. apply lookup_insert_eq.
        + rewrite decide_False by tauto. apply lookup_insert_ne. congruence. }
    assert (Hlk2 : forall k, rm2 !! k
              = if decide (AlertNotification.ID c <> 0 /\ k = inr (AlertNotification.ID c))
                then Some recv else rm1 !! k).
    { intros k. subst rm2. destruct (decide (AlertNotification.ID c = 0)) as [He|He].
      - rewrite decide_False by tauto. reflexivity.
      - destruct (decide (k = inr (AlertNotification.ID c))) as [->|Hk].
        + rewrite decide_True by tauto. apply lookup_insert_eq.
        + rewrite decide_False by tauto. apply lookup_insert_ne. congruence. }
    split; [|split].
    + intros k r. rewrite Hlk2, Hlk1.
      destruct (decide (AlertNotification.ID c <> 0 /\ k = inr (AlertNotification.ID c)))
        as [[Hne ->]|_].
      { intros Hr. injection Hr as <-. exists {| channel := c; receiver := recv |}.
        split; [apply elem_of_app; right; left|]. split; [reflexivity|]. right. split; [reflexivity | exact Hne]. }
      destruct (decide (AlertNotification.UID c <> "" /\ k = inl (AlertNotification.UID c)))
        as [[Hne ->]|_].
      { intros Hr. injection Hr as <-. exists {| channel := c; receiver := recv |}.
        split; [apply elem_of_app; right; left|]. split; [reflexivity|]. left. split; [reflexivity | exact Hne]. }
      intros Hr. destruct (Hval k r Hr) as (cr & Hin & Hrest). exists cr.
      split; [apply elem_of_app; left; exact Hin | exact Hrest].
    + intros c' Hin Hne. rewrite Hlk2, decide_False by (intros [_ Hc]; discriminate Hc).
      rewrite Hlk1. apply elem_of_app in Hin as [Hin|Hin].
      * destruct (decide (_ /\ _)); [eexists; reflexivity | apply Huid; assumption].
      * apply list_elem_of_singleton in Hin. subst c'.
        rewrite decide_True by (split; [exact Hne | reflexivity]). eexists; reflexivity.
    + intros c' Hin Hne. rewrite Hlk2. apply elem_of_app in Hin as [Hin|Hin].
      * destruct (decide (_ /\ _)); [eexists; reflexivity|].
        rewrite Hlk1, decide_False by (intros [_ Hc]; discriminate Hc). apply Hid; assumption.
      * apply list_elem_of_singleton in Hin. subst c'.
        rewrite decide_True by (split; [exact Hne | reflexivity]). eexists; reflexivity.
  - cbn. split; [|split].
    + intros k r Hr. rewrite lookup_empty in Hr. discriminate Hr.
    + intros c Hin. inversion Hin.
    + intros c Hin. inversion Hin.
Qed.

Lemma createReceivers_map_witness :
  exists receiversMap receivers st',
    @createReceivers Fixtures.strings_ascii Fixtures.util_fresh Fixtures.secrets_ok
      Fixtures.two_orgs Fixtures.state0 = (inr (receiversMap, receivers), st')
    /\ is_Some (receiversMap !! inl "u2")
    /\ is_Some (receiversMap !! inr 3).
Proof.
  assert (Hrun : exists receiversMap receivers st',
            @createReceivers Fixtures.strings_ascii Fixtures.util_fresh Fixtures.secrets_ok
              Fixtures.two_orgs Fixtures.state0 = (inr (receiversMap, receivers), st'))
    by (eexists _, _, _; vm_compute; reflexivity).
  destruct Hrun as (rm & rs & st' & Hrun). exists rm, rs, st'. split; [exact Hrun|].
  destruct (@createReceivers_map Fixtures.strings_ascii Fixtures.util_fresh Fixtures.secrets_ok
              _ _ _ _ _ Hrun) as (_ & Huid & Hid).
  split.
  - apply (Huid (Fixtures.chan 2 1 "u2" "pager" false)); [right; left | discriminate].
  - apply (Hid (Fixtures.chan 3 2 "u3" "hook" false)); [right; right; left | discriminate].
Defined.


(** ** The root route and the default receiver *)

(** the loop over several default channels: one notifier for each channel,
    and the lowest frequency of the channels that send reminders, never
    above the start value *)
Lemma defaultReceiver_loop_inr `{StringsPkg} `{UtilPkg} `{SecretsPkg}
    (defaultChannels : list AlertNotification.t) (recv0 recv : PostableApiReceiver.t)
    (start interval : Z) (st st' : state) :
  foldM defaultReceiver_step (recv0, start) defaultChannels st = (inr (recv, interval), st') ->
  PostableApiReceiver.Name recv = PostableApiReceiver.Name recv0
  /\ (exists notifiers,
        PostableApiReceiver.GrafanaManagedReceivers recv
        = PostableApiReceiver.GrafanaManagedReceivers recv0 ++ notifiers
        /\ Forall2 (fun n c =>
                      PostableGrafanaReceiver.Name n = AlertNotification.Name c
                      /\ PostableGrafanaReceiver.Type_ n = AlertNotification.Type_ c
                      /\ PostableGrafanaReceiver.DisableResolveMessage n
                         = AlertNotification.DisableResolveMessage c)
                   notifiers defaultChannels)
  /\ interval <= start
  /\ (forall c, c ∈ defaultChannels -> AlertNotification.SendReminder c = true ->
        interval <= AlertNotification.Frequency c)
  /\ (interval = start
      \/ exists c, c ∈ defaultChannels /\ AlertNotification.SendReminder c = true
                   /\ interval = AlertNotification.Frequency c).
Proof.
  intros Hrun.
  apply (foldM_inv defaultReceiver_step
           (fun done acc =>
              PostableApiReceiver.Name acc.1 = PostableApiReceiver.Name recv0
              /\ (exists notifiers,
                    PostableApiReceiver.GrafanaManagedReceivers acc.1
                    = PostableApiReceiver.GrafanaManagedReceivers recv0 ++ notifiers
                    /\ Forall2 (fun n c =>
                                  PostableGrafanaReceiver.Name n = AlertNotification.Name c
                                  /\ PostableGrafanaReceiver.Type_ n = AlertNotification.Type_ c
                                  /\ PostableGrafanaReceiver.DisableResolveMessage n
                                     = AlertNotification.DisableResolveMessage c)
                               notifiers done)
              /\ acc.2 <= start
              /\ (forall c, c ∈ done -> AlertNotification.SendReminder c = true ->
                    acc.2 <= AlertNotification.Frequency c)
              /\ (acc.2 = start
                  \/ exists c, c ∈ done /\ AlertNotification.SendReminder c = true
                               /\ acc.2 = AlertNotification.Frequency c))
           ) with (done := []) in Hrun; [exact Hrun| |].
  - clear. intros done [r i] c st [r' i'] st' (Hname & (ns & Hns & Hall) & Hle & Hmin & Hcase) Hstep.
    unfold defaultReceiver_step in Hstep. inv_bind Hstep.
    apply ret_inr in Hstep as [Heq _]. injection Heq as <- <-.
    apply createNotifier_inr in Hrun. cbn [fst snd] in *.
    split; [exact Hname|]. split.
    { exists (ns ++ [a]). split.
      - cbn [with_notifier PostableApiReceiver.GrafanaManagedReceivers]. rewrite Hns.
        symmetry. apply app_assoc.
      - apply Forall2_app; [exact Hall|]. constructor; [exact Hrun | constructor]. }
    destruct (AlertNotification.SendReminder c) eqn:Hrem; cbn [andb].
    + destruct (Z.ltb_spec (AlertNotification.Frequency c) i) as [Hlt|Hge].
      * split; [lia|]. split.
        -- intros c' Hin Hrem'. apply elem_of_app in Hin as [Hin|Hin].
           ++ specialize (Hmin _ Hin Hrem'). lia.
           ++ apply list_elem_of_singleton in Hin. subst c'. lia.
        -- right. exists c. split; [apply elem_of_app; right; left|]. split; [exact Hrem | reflexivity].
      * split; [exact Hle|]. split.
        -- intros c' Hin Hrem'. apply elem_of_app in Hin as [Hin|Hin].
           ++ exact (Hmin _ Hin Hrem').
           ++ apply list_elem_of_singleton in Hin. subst c'. exact Hge.
        -- destruct Hcase as [Hs|(c' & Hin & Hrem' & Hfreq)]; [left; exact Hs|].
           right. exists c'. split; [apply elem_of_app; left; exact Hin|]. split; assumption.
    + split; [exact Hle|]. split.
      * intros c' Hin Hrem'. apply elem_of_app in Hin as [Hin|Hin].
        -- exact (Hmin _ Hin Hrem').
        -- apply list_elem_of_singleton in Hin. subst c'. congruence.
      * destruct Hcase as [Hs|(c' & Hin & Hrem' & Hfreq)]; [left; exact Hs|].
        right. exists c'. split; [apply elem_of_app; left; exact Hin|]. split; assumption.
  - cbn [fst snd]. split; [reflexivity|]. split.
    { exists []. split; [symmetry; apply app_nil_r | constructor]. }
    split; [lia|]. split; [intros c Hin; inversion Hin | left; reflexivity].
Qed.

(** X5. The root route that [createDefaultRouteAndReceiver] returns has no
    matchers and no child routes yet, does not continue, and groups by
    folder title and alert name. Without default channels it has no repeat
    interval. With default channels its repeat interval is at most the
    frequency of every default channel that sends reminders, and it is the
    frequency of such a channel or the pseudo-disabled interval of 8736
    hours; with two or more default channels it never exceeds that
    interval. *)
Theorem createDefaultRouteAndReceiver_route `{StringsPkg} `{UtilPkg} `{SecretsPkg} `{Constants}
    (defaultChannels : list AlertNotification.t) (st st' : state)
    (defaultReceiver : option PostableApiReceiver.t) (defaultRoute : Route.t) :
  createDefaultRouteAndReceiver defaultChannels st = (inr (defaultReceiver, defaultRoute), st') ->
  Route.ObjectMatchers defaultRoute = []
  /\ Route.Routes defaultRoute = []
  /\ Route.Continue defaultRoute = false
  /\ Route.GroupByStr defaultRoute = [FolderTitleLabel; AlertNameLabel]
  /\ match defaultChannels with
     | [] => Route.RepeatInterval defaultRoute = None
     | _ =>
       exists interval,
         Route.RepeatInterval defaultRoute = Some interval
         /\ (forall c, c ∈ defaultChannels -> AlertNotification.SendReminder c = true ->
               interval <= AlertNotification.Frequency c)
         /\ (interval = DisabledRepeatInterval
             \/ exists c, c ∈ defaultChannels /\ AlertNotification.SendReminder c = true
                          /\ interval = AlertNotification.Frequency c)
         /\ ((2 <= length defaultChannels)%nat -> interval <= DisabledRepeatInterval)
     end.
Proof.
  unfold createDefaultRouteAndReceiver. destruct defaultChannels as [|c0 [|c1 rest]]; intros Hrun.
  - apply ret_inr in Hrun as [Heq _]. injection Heq as <- <-. repeat split.
  - apply ret_inr in Hrun as [Heq _]. injection Heq as <- <-.
    do 4 (split; [reflexivity|]). eexists. split; [reflexivity|].
    destruct (AlertNotification.SendReminder c0) eqn:Hrem.
    + split; [|split].
      * intros c Hin _. apply list_elem_of_singleton in Hin. subst c. lia.
      * right. exists c0. split; [left|]. split; [exact Hrem | reflexivity].
      * cbn [length]. lia.
    + split; [|split].
      * intros c Hin Hrem'. apply list_elem_of_singleton in Hin. subst c. congruence.
      * left. reflexivity.
      * cbn [length]. lia.
  - inv_bind Hrun. destruct a as [recv interval].
    apply ret_inr in Hrun as [Heq _]. injection Heq as <- <-.
    apply defaultReceiver_loop_inr in Hrun0 as (_ & _ & Hle & Hmin & Hcase).
    do 4 (split; [reflexivity|]). exists interval. split; [reflexivity|].
    split; [exact Hmin|]. split; [exact Hcase|]. intros _. exact Hle.
Qed.

Lemma createDefaultRouteAndReceiver_route_witness :
  exists defaultReceiver defaultRoute st',
    @createDefaultRouteAndReceiver Fixtures.strings_ascii Fixtures.util_fresh Fixtures.secrets_ok
      Fixtures.constants Fixtures.three_defaults Fixtures.state0
    = (inr (defaultReceiver, defaultRoute), st')
    /\ Route.Routes defaultRoute = []
    /\ Route.RepeatInterval defaultRoute = Some 30.
Proof.
  assert (Hrun : exists defaultReceiver defaultRoute st',
            @createDefaultRouteAndReceiver Fixtures.strings_ascii Fixtures.util_fresh
              Fixtures.secrets_ok Fixtures.constants Fixtures.three_defaults Fixtures.state0
            = (inr (defaultReceiver, defaultRoute), st')
            /\ Route.RepeatInterval defaultRoute = Some 30)
    by (eexists _, _, _; vm_compute; split; reflexivity).
  destruct Hrun as (dr & route & st' & Hrun & Hint). exists dr, route, st'.
  split; [exact Hrun|]. split; [|exact Hint].
  apply (@createDefaultRouteAndReceiver_route Fixtures.strings_ascii Fixtures.util_fresh
           Fixtures.secrets_ok Fixtures.constants _ _ _ _ _ Hrun).
Defined.

(** X6. The receiver that [createDefaultRouteAndReceiver] returns for the
    root route. Without default channels it is a receiver named
    [autogen-contact-point-default] that holds no notifier. With a single
    default channel none is made and the root route names that channel.
    With two or more default channels it is a receiver named
    [autogen-contact-point-default] that holds one notifier for each default
    channel, in their order, with the name, the type and the
    resolve-message flag of the channel, and the root route names it. *)
Theorem createDefaultRouteAndReceiver_default_receiver
    `{StringsPkg} `{UtilPkg} `{SecretsPkg} `{Constants}
    (defaultChannels : list AlertNotification.t) (st st' : state)
    (defaultReceiver : option PostableApiReceiver.t) (defaultRoute : Route.t) :
  createDefaultRouteAndReceiver defaultChannels st = (inr (defaultReceiver, defaultRoute), st') ->
  match defaultChannels with
  | [c0] => defaultReceiver = None /\ Route.Receiver defaultRoute = AlertNotification.Name c0
  | _ =>
    exists recv,
      defaultReceiver = Some recv
      /\ Route.Receiver defaultRoute = PostableApiReceiver.Name recv
      /\ PostableApiReceiver.Name recv = defaultReceiverName
      /\ Forall2 (fun n c =>
                    PostableGrafanaReceiver.Name n = AlertNotification.Name c
                    /\ PostableGrafanaReceiver.Type_ n = AlertNotification.Type_ c
                    /\ PostableGrafanaReceiver.DisableResolveMessage n
                       = AlertNotification.DisableResolveMessage c)
                 (PostableApiReceiver.GrafanaManagedReceivers recv) defaultChannels
  end.
Proof.
  unfold createDefaultRouteAndReceiver. destruct defaultChannels as [|c0 [|c1 rest]]; intros Hrun.
  - apply ret_inr in Hrun as [Heq _]. injection Heq as <- <-.
    eexists. split; [reflexivity|]. split; [reflexivity|]. split; [reflexivity | constructor].
  - apply ret_inr in Hrun as [Heq _]. injection Heq as <- <-. split; reflexivity.
  - inv_bind Hrun. destruct a as [recv interval].
    apply ret_inr in Hrun as [Heq _]. injection Heq as <- <-.
    apply defaultReceiver_loop_inr in Hrun0 as (Hname & (ns & Hns & Hall) & _).
    cbn [PostableApiReceiver.Name PostableApiReceiver.GrafanaManagedReceivers app] in Hname, Hns.
    exists recv. split; [reflexivity|]. split; [symmetry; exact Hname|].
    split; [exact Hname|]. rewrite Hns. exact Hall.
Qed.

Lemma createDefaultRouteAndReceiver_default_receiver_witness :
  exists defaultReceiver defaultRoute st' recv,
    @createDefaultRouteAndReceiver Fixtures.strings_ascii Fixtures.util_fresh Fixtures.secrets_ok
      Fixtures.constants Fixtures.three_defaults Fixtures.state0
    = (inr (defaultReceiver, defaultRoute), st')
    /\ defaultReceiver = Some recv
    /\ PostableApiReceiver.Name recv = defaultReceiverName.
Proof.
  assert (Hrun : exists defaultReceiver defaultRoute st',
            @createDefaultRouteAndReceiver Fixtures.strings_ascii Fixtures.util_fresh
              Fixtures.secrets_ok Fixtures.constants Fixtures.three_defaults Fixtures.state0
            = (inr (defaultReceiver, defaultRoute), st'))
    by (eexists _, _, _; vm_compute; reflexivity).
  destruct Hrun as (dr & route & st' & Hrun).
  destruct (@createDefaultRouteAndReceiver_default_receiver Fixtures.strings_ascii
              Fixtures.util_fresh Fixtures.secrets_ok Fixtures.constants _ _ _ _ _ Hrun)
    as (recv & Hsome & _ & Hname & _).
  exists dr, route, st', recv. split; [exact Hrun|]. split; [exact Hsome | exact Hname].
Defined.


(** ** The channels of every organisation *)

Lemma channelMap_loop_total (rows : list AlertNotification.t) :
  forall acc st, exists all def st', foldM channelMap_step acc rows st = (inr (all, def), st').
Proof.
  induction rows as [|c rows IH]; intros [all0 def0] st; cbn [foldM].
  - eexists _, _, _. reflexivity.
  - unfold bind at 1. unfold channelMap_step at 1. destruct (discontinued c).
    + unfold bind at 1, log at 1, ret at 1. apply IH.
    + unfold ret at 1. apply IH.
Qed.

(** X7. When the query for the notification channels gives rows,
    [getNotificationChannelMap] never fails. An organisation is a key of the
    first map exactly when it has a channel that is not discontinued
    (neither [hipchat] nor [sensu]), and the entry holds those channels in
    the order of the rows; it is a key of the second map exactly when one of
    those channels is a default channel, and the entry holds the default
    ones among them, in the same order. When the query fails its error is
    returned and nothing else happens. *)
Theorem getNotificationChannelMap_groups (rows : list AlertNotification.t) (st : state) :
  (exists all def st',
     getNotificationChannelMap (inr rows) st = (inr (all, def), st')
     /\ forall org,
          let channels :=
            filter (fun c => AlertNotification.OrgID c = org /\ discontinued c = false) rows in
          let defaults := filter (fun c => AlertNotification.IsDefault c = true) channels in
          all !! org = (if decide (channels = []) then None else Some channels)
          /\ def !! org = (if decide (defaults = []) then None else Some defaults))
  /\ forall err, getNotificationChannelMap (inl err) st = (inl err, st).
Proof.
  split; [|reflexivity].
  rewrite getNotificationChannelMap_rows.
  destruct (channelMap_loop_total rows (∅, ∅) st) as (all & def & st' & Hrun).
  exists all, def, st'. split; [exact Hrun|]. intros org. cbv zeta.
  destruct (channelMap_loop_spec _ _ _ _ _ _ _ Hrun org) as [Hall Hdef].
  rewrite lookup_empty in Hall, Hdef.
  assert (Hm : forall l : list AlertNotification.t,
            match l with [] => None | x :: l' => Some (default [] None ++ x :: l') end
            = if decide (l = []) then None else Some l)
    by (intros [|x l]; reflexivity).
  rewrite Hm in Hall, Hdef. split; [exact Hall|].
  rewrite list_filter_filter.
  replace (filter (fun x => AlertNotification.IsDefault x = true
                            /\ AlertNotification.OrgID x = org /\ discontinued x = false) rows)
    with (filter (fun c => AlertNotification.OrgID c = org /\ discontinued c = false
                           /\ AlertNotification.IsDefault c = true) rows)
    by (apply list_filter_iff; intros x; tauto).
  exact Hdef.
Qed.


(** ** The configuration of an organisation *)

Lemma createRoute_inr `{RegexpPkg} `{Constants} (cr : channelReceiver) (route : Route.t) :
  createRoute cr = inr route ->
  route = {| Route.Receiver := PostableApiReceiver.Name (receiver cr);
             Route.GroupByStr := [];
             Route.ObjectMatchers :=
               [{| Matcher.Type_ := Matcher.MatchRegexp;
                   Matcher.Name := ContactLabel;
                   Matcher.Value :=
                     ".*" +:+ QuoteMeta (quote (PostableApiReceiver.Name (receiver cr)))
                          +:+ ".*" |}];
             Route.Continue := true;
             Route.Routes := [];
             Route.RepeatInterval :=
               Some (if AlertNotification.SendReminder (channel cr)
                     then AlertNotification.Frequency (channel cr)
                     else DisabledRepeatInterval) |}.
Proof.
  unfold createRoute, NewMatcher. destruct (compiles _); intros Hrun; [|discriminate Hrun].
  injection Hrun as <-. reflexivity.
Qed.

Lemma route_loop_inr `{RegexpPkg} `{Constants} (receivers : list channelReceiver)
    (routes0 routes : list Route.t) (st st' : state) :
  foldM route_step routes0 receivers st = (inr routes, st') ->
  exists made, routes = routes0 ++ made
               /\ Forall2 (fun route cr => createRoute cr = inr route) made receivers.
Proof.
  intros Hrun.
  apply (foldM_inv route_step
           (fun done acc => exists made, acc = routes0 ++ made
              /\ Forall2 (fun route cr => createRoute cr = inr route) made done)
           ) with (done := []) in Hrun; [exact Hrun| |].
  - clear. intros done acc cr st acc' st' (made & -> & Hall) Hstep.
    unfold route_step in Hstep. destruct (createRoute cr) as [err|route] eqn:Hroute;
      [discriminate Hstep|].
    apply ret_inr in Hstep as [<- _]. exists (made ++ [route]).
    split; [symmetry; apply app_assoc|]. apply Forall2_app; [exact Hall|].
    constructor; [exact Hroute | constructor].
  - exists []. split; [symmetry; apply app_nil_r | constructor].
Qed.

(** what a successful run of the body of the loop over the organisations
    has done *)
Lemma setup_step_inr
    `{StringsPkg} `{UtilPkg} `{SecretsPkg} `{RegexpPkg} `{NotifyPkg} `{Constants}
    (defaultChannelsPerOrg : gmap Z (list AlertNotification.t))
    (cfgs : gmap Z PostableUserConfig.t) (rules : gmap Z (list (AlertRule.t * list uidOrID)))
    (acc' : setup_acc) (org : Z) (chans : list AlertNotification.t) (st st' : state) :
  chans <> [] ->
  setup_step defaultChannelsPerOrg (cfgs, rules) (org, chans) st = (inr acc', st') ->
  exists receiversMap receivers st1 defaultReceiver defaultRoute st2 routes st3 rules',
    createReceivers chans st = (inr (receiversMap, receivers), st1)
    /\ createDefaultRouteAndReceiver (default [] (defaultChannelsPerOrg !! org)) st1
       = (inr (defaultReceiver, defaultRoute), st2)
    /\ foldM route_step [] receivers st2 = (inr routes, st3)
    /\ match rules !! org with
       | None => rules' = rules /\ st' = st3
       | Some orgRules =>
           exists labelled,
             foldM (label_rule receiversMap
                      (list_to_set (AlertNotification.Name
                                      <$> default [] (defaultChannelsPerOrg !! org))))
                   [] orgRules st3 = (inr labelled, st')
             /\ rules' = <[org := labelled]> rules
       end
    /\ let cfg := {| PostableUserConfig.Receivers :=
                       (receiver <$> receivers) ++ option_list defaultReceiver;
                     PostableUserConfig.Route := Some (with_Routes defaultRoute routes) |} in
       validateAlertmanagerConfig cfg = None
       /\ acc' = (<[org := cfg]> cfgs, rules').
Proof.
  unfold setup_step. intros Hne Hrun.
  inv_bind Hrun. destruct a as [receiversMap receivers]. apply wrap_inr in Hrun0.
  pose proof (createReceivers_length _ _ _ _ _ Hrun0) as Hlen.
  destruct receivers as [|cr receivers].
  { destruct chans; [contradiction | discriminate Hlen]. }
  inv_bind Hrun. destruct a as [defaultReceiver defaultRoute]. apply wrap_inr in Hrun1.
  inv_bind Hrun. rename a into routes. inv_bind Hrun. rename a into rules'.
  destruct (validateAlertmanagerConfig _) as [err|] eqn:Hvalid; [discriminate Hrun|].
  apply ret_inr in Hrun as [<- <-].
  exists receiversMap, (cr :: receivers), st0, defaultReceiver, defaultRoute, st1, routes, st2,
    rules'.
  split; [exact Hrun0|]. split; [exact Hrun1|]. split; [exact Hrun2|]. split.
  - destruct (rules !! org) as [orgRules|].
    + inv_bind Hrun3. apply ret_inr in Hrun3 as [<- <-]. exists a. split; [exact Hrun|reflexivity].
    + apply ret_inr in Hrun3 as [<- <-]. split; reflexivity.
  - cbv zeta. split; [exact Hvalid|]. rewrite insert_insert_eq. reflexivity.
Qed.

Lemma setup_loop_configs
    `{StringsPkg} `{UtilPkg} `{SecretsPkg} `{RegexpPkg} `{NotifyPkg} `{Constants}
    (defaultChannelsPerOrg : gmap Z (list AlertNotification.t))
    (P : Z -> list AlertNotification.t -> PostableUserConfig.t -> Prop)
    (l : list (Z * list AlertNotification.t)) :
  (forall cfgs rules org chans st acc' st',
      (org, chans) ∈ l ->
      setup_step defaultChannelsPerOrg (cfgs, rules) (org, chans) st = (inr acc', st') ->
      exists cfg, acc'.1 = <[org := cfg]> cfgs /\ P org chans cfg) ->
  forall (acc acc' : setup_acc) (st st' : state),
    foldM (setup_step defaultChannelsPerOrg) acc l st = (inr acc', st') ->
    forall org cfg,
      acc'.1 !! org = Some cfg ->
      acc.1 !! org = Some cfg \/ exists chans, (org, chans) ∈ l /\ P org chans cfg.
Proof.
  induction l as [|[o chans] l IH]; intros Hstep acc acc' st st' Hrun org cfg Hcfg;
    cbn [foldM] in Hrun.
  - apply ret_inr in Hrun as [<- _]. left. exact Hcfg.
  - inv_bind Hrun. destruct acc as [cfgs rules].
    destruct (Hstep _ _ _ _ _ _ _ (list_elem_of_here _ _) Hrun0) as (cfg1 & Hacc & HP).
    assert (Hstep' : forall cfgs rules org chans st acc' st',
               (org, chans) ∈ l ->
               setup_step defaultChannelsPerOrg (cfgs, rules) (org, chans) st = (inr acc', st') ->
               exists cfg, acc'.1 = <[org := cfg]> cfgs /\ P org chans cfg).
    { intros cfgs0 rules0 org0 chans0 st1 acc1 st2 Hin. apply Hstep. right. exact Hin. }
    destruct (IH Hstep' _ _ _ _ Hrun org cfg Hcfg) as [Hold|(chans' & Hin & HP')].
    + rewrite Hacc in Hold. cbn [fst]. destruct (decide (o = org)) as [->|Hne].
      * rewrite lookup_insert_eq in Hold. injection Hold as <-.
        right. exists chans. split; [left | exact HP].
      * rewrite lookup_insert_ne in Hold by exact Hne. left. exact Hold.
    + right. exists chans'. split; [right; exact Hin | exact HP'].
Qed.

(** the loop of [setupAlertmanagerConfigs] runs over the organisations that
    have a channel that is not discontinued, with these channels *)
Lemma setupAlertmanagerConfigs_inr
    `{StringsPkg} `{UtilPkg} `{SecretsPkg} `{RegexpPkg} `{NotifyPkg} `{Constants} `{RangeOrder}
    (rows : list AlertNotification.t)
    (rulesPerOrg : gmap Z (list (AlertRule.t * list uidOrID)))
    (acc' : setup_acc) (st st' : state) :
  setupAlertmanagerConfigs (inr rows) rulesPerOrg st = (inr acc', st') ->
  exists allChannelsPerOrg defaultChannelsPerOrg st1,
    foldM (setup_step defaultChannelsPerOrg) (∅, rulesPerOrg) (range allChannelsPerOrg) st1
    = (inr acc', st')
    /\ (forall org chans,
          (org, chans) ∈ range allChannelsPerOrg
          <-> chans <> []
              /\ chans = filter (fun c => AlertNotification.OrgID c = org
                                          /\ discontinued c = false) rows)
    /\ (forall org,
          default [] (defaultChannelsPerOrg !! org)
          = filter (fun c => AlertNotification.IsDefault c = true)
              (filter (fun c => AlertNotification.OrgID c = org /\ discontinued c = false) rows)).
Proof.
  unfold setupAlertmanagerConfigs. intros Hrun.
  inv_bind Hrun. destruct a as [allChannelsPerOrg defaultChannelsPerOrg].
  apply wrap_inr in Hrun0. rewrite getNotificationChannelMap_rows in Hrun0.
  exists allChannelsPerOrg, defaultChannelsPerOrg, st0. split; [exact Hrun|].
  assert (Hm : forall o l : list AlertNotification.t,
            match l with [] => None | x :: l' => Some (default [] None ++ x :: l') end
            = if decide (l = []) then None else Some l)
    by (intros _ [|x l]; reflexivity).
  split.
  - intros org chans. rewrite (range_perm _ allChannelsPerOrg), elem_of_map_to_list.
    destruct (channelMap_loop_spec _ _ _ _ _ _ _ Hrun0 org) as [Hall _].
    rewrite lookup_empty, (Hm []) in Hall. rewrite Hall.
    destruct (decide _) as [He|Hne].
    + split; [discriminate|]. intros [Hne ->]. contradiction.
    + split; [intros [= <-]; split; [exact Hne | reflexivity]|]. intros [_ ->]. reflexivity.
  - intros org. destruct (channelMap_loop_spec _ _ _ _ _ _ _ Hrun0 org) as [_ Hdef].
    rewrite lookup_empty, (Hm []) in Hdef. rewrite Hdef, list_filter_filter.
    replace (filter (fun x => AlertNotification.IsDefault x = true
                              /\ AlertNotification.OrgID x = org /\ discontinued x = false) rows)
      with (filter (fun c => AlertNotification.OrgID c = org /\ discontinued c = false
                             /\ AlertNotification.IsDefault c = true) rows)
      by (apply list_filter_iff; intros x; tauto).
    destruct (decide _) as [->|_]; reflexivity.
Qed.

(** a property that the body of the loop gives the configuration it builds
    holds for every configuration that [setupAlertmanagerConfigs] returns *)
Lemma setupAlertmanagerConfigs_configs
    `{StringsPkg} `{UtilPkg} `{SecretsPkg} `{RegexpPkg} `{NotifyPkg} `{Constants} `{RangeOrder}
    (P : list AlertNotification.t -> list AlertNotification.t -> PostableUserConfig.t -> Prop)
    (rows : list AlertNotification.t)
    (rulesPerOrg rules' : gmap Z (list (AlertRule.t * list uidOrID)))
    (cfgs : gmap Z PostableUserConfig.t) (st st' : state) :
  (forall defaultChannelsPerOrg cfgs rules org chans st acc' st',
      chans <> [] ->
      setup_step defaultChannelsPerOrg (cfgs, rules) (org, chans) st = (inr acc', st') ->
      exists cfg, acc'.1 = <[org := cfg]> cfgs
                  /\ P chans (default [] (defaultChannelsPerOrg !! org)) cfg) ->
  setupAlertmanagerConfigs (inr rows) rulesPerOrg st = (inr (cfgs, rules'), st') ->
  forall org cfg,
    cfgs !! org = Some cfg ->
    let channels :=
      filter (fun c => AlertNotification.OrgID c = org /\ discontinued c = false) rows in
    channels <> []
    /\ P channels (filter (fun c => AlertNotification.IsDefault c = true) channels) cfg.
Proof.
  intros Hstep Hrun org cfg Hcfg channels.
  apply setupAlertmanagerConfigs_inr in Hrun as (all & def & st1 & Hrun & Hall & Hdef).
  apply (setup_loop_configs def
           (fun org chans cfg => chans <> []
              /\ chans = filter (fun c => AlertNotification.OrgID c = org
                                          /\ discontinued c = false) rows
              /\ P chans (default [] (def !! org)) cfg))
    with (org := org) (cfg := cfg) in Hrun.
  - destruct Hrun as [Hc|(chans & _ & Hne & -> & HP)]; [cbn [fst] in Hc; rewrite lookup_empty in Hc; discriminate Hc|].
    split; [exact Hne|]. rewrite Hdef in HP. exact HP.
  - intros cfgs0 rules0 org0 chans0 st2 acc2 st3 Hin Hrun0.
    apply Hall in Hin as [Hne Heq].
    destruct (Hstep _ _ _ _ _ _ _ _ Hne Hrun0) as (cfg0 & Hacc & HP).
    exists cfg0. split; [exact Hacc|]. split; [exact Hne|]. split; [exact Heq | exact HP].
  - exact Hcfg.
Qed.


(** X8. Every configuration that [setupAlertmanagerConfigs] returns
    belongs to an organisation with a channel that is not discontinued and
    has passed [validateAlertmanagerConfig]. Its receivers are one receiver
    for each such channel of the organisation, in the order of the rows,
    each with a single notifier of the type of the channel, followed by the
    receiver [autogen-contact-point-default] unless exactly one of these
    channels is a default channel; that receiver holds one notifier for each
    default channel among them. *)
Theorem setupAlertmanagerConfigs_receivers
    `{StringsPkg} `{UtilPkg} `{SecretsPkg} `{RegexpPkg} `{NotifyPkg} `{Constants} `{RangeOrder}
    (rows : list AlertNotification.t)
    (rulesPerOrg rules' : gmap Z (list (AlertRule.t * list uidOrID)))
    (cfgs : gmap Z PostableUserConfig.t) (st st' : state) :
  setupAlertmanagerConfigs (inr rows) rulesPerOrg st = (inr (cfgs, rules'), st') ->
  forall org cfg,
    cfgs !! org = Some cfg ->
    let channels :=
      filter (fun c => AlertNotification.OrgID c = org /\ discontinued c = false) rows in
    let defaults := filter (fun c => AlertNotification.IsDefault c = true) channels in
    channels <> []
    /\ validateAlertmanagerConfig cfg = None
    /\ exists receivers defaultReceiver,
         PostableUserConfig.Receivers cfg = receivers ++ option_list defaultReceiver
         /\ Forall2 (fun r c =>
                       exists notifier,
                         PostableApiReceiver.GrafanaManagedReceivers r = [notifier]
                         /\ PostableGrafanaReceiver.Name notifier = PostableApiReceiver.Name r
                         /\ PostableGrafanaReceiver.Type_ notifier = AlertNotification.Type_ c)
                    receivers channels
         /\ match defaults with
            | [c0] => defaultReceiver = None
            | _ =>
              exists r, defaultReceiver = Some r
                /\ PostableApiReceiver.Name r = defaultReceiverName
                /\ Forall2 (fun n c =>
                              PostableGrafanaReceiver.Name n = AlertNotification.Name c
                              /\ PostableGrafanaReceiver.Type_ n = AlertNotification.Type_ c)
                           (PostableApiReceiver.GrafanaManagedReceivers r) defaults
            end.
Proof.
  intros Hrun org cfg Hcfg channels defaults.
  apply (setupAlertmanagerConfigs_configs
           (fun chans dflts cfg =>
              validateAlertmanagerConfig cfg = None
              /\ exists receivers defaultReceiver,
                   PostableUserConfig.Receivers cfg = receivers ++ option_list defaultReceiver
                   /\ Forall2 (fun r c =>
                        exists notifier,
                          PostableApiReceiver.GrafanaManagedReceivers r = [notifier]
                          /\ PostableGrafanaReceiver.Name notifier = PostableApiReceiver.Name r
                          /\ PostableGrafanaReceiver.Type_ notifier = AlertNotification.Type_ c)
                        receivers chans
                   /\ match dflts with
                      | [c0] => defaultReceiver = None
                      | _ =>
                        exists r, defaultReceiver = Some r
                          /\ PostableApiReceiver.Name r = defaultReceiverName
                          /\ Forall2 (fun n c =>
                               PostableGrafanaReceiver.Name n = AlertNotification.Name c
                               /\ PostableGrafanaReceiver.Type_ n = AlertNotification.Type_ c)
                               (PostableApiReceiver.GrafanaManagedReceivers r) dflts
                      end)) with (org := org) (cfg := cfg) in Hrun; [exact Hrun| |exact Hcfg].
  clear. intros def cfgs rules org chans st acc' st' Hne Hstep.
  apply setup_step_inr in Hstep
    as (rm & rs & st1 & dr & droute & st2 & routes & st3 & rules' & Hrecv & Hdef & _ & _ & Hcfg);
    [|exact Hne].
  cbv zeta in Hcfg. destruct Hcfg as [Hvalid ->]. eexists. split; [reflexivity|].
  split; [exact Hvalid|]. exists (receiver <$> rs), dr. split; [reflexivity|]. split.
  - apply createReceivers_forall2 in Hrecv. apply Forall2_fmap_l.
    eapply Forall2_impl; [exact Hrecv|]. cbv beta.
    intros cr c (_ & _ & notifier & Hn & Hname & Hty & _). exists notifier. repeat split; assumption.
  - unfold createDefaultRouteAndReceiver in Hdef.
    destruct (default [] (def !! org)) as [|c0 [|c1 rest]].
    + apply ret_inr in Hdef as [Heq _]. injection Heq as <- _.
      eexists. split; [reflexivity|]. split; [reflexivity | constructor].
    + apply ret_inr in Hdef as [Heq _]. injection Heq as <- _. reflexivity.
    + inv_bind Hdef. destruct a as [recv interval].
      apply ret_inr in Hdef as [Heq _]. injection Heq as <- _.
      apply defaultReceiver_loop_inr in Hrun as (Hname & (ns & Hns & Hall) & _).
      cbn [PostableApiReceiver.Name PostableApiReceiver.GrafanaManagedReceivers app] in Hname, Hns.
      exists recv. split; [reflexivity|]. split; [exact Hname|]. rewrite Hns.
      eapply Forall2_impl; [exact Hall|]. cbv beta. intros n c (Hn & Hty & _). split; assumption.
Qed.

Lemma setupAlertmanagerConfigs_receivers_witness :
  exists cfgs rules' st' cfg,
    @setupAlertmanagerConfigs Fixtures.strings_ascii Fixtures.util_fresh Fixtures.secrets_ok
      Fixtures.regexp_ok Fixtures.notify_ok Fixtures.constants Fixtures.range_list
      (inr Fixtures.two_orgs) (Fixtures.rules_of 1 [inl "u2"]) Fixtures.state0
    = (inr (cfgs, rules'), st')
    /\ cfgs !! 1 = Some cfg
    /\ @validateAlertmanagerConfig Fixtures.notify_ok cfg = None.
Proof.
  assert (Hrun : exists cfgs rules' st' cfg,
            @setupAlertmanagerConfigs Fixtures.strings_ascii Fixtures.util_fresh
              Fixtures.secrets_ok Fixtures.regexp_ok Fixtures.notify_ok Fixtures.constants
              Fixtures.range_list (inr Fixtures.two_orgs) (Fixtures.rules_of 1 [inl "u2"])
              Fixtures.state0
            = (inr (cfgs, rules'), st')
            /\ cfgs !! 1 = Some cfg)
    by (eexists _, _, _, _; split; vm_compute; reflexivity).
  destruct Hrun as (cfgs & rules' & st' & cfg & Hrun & Hcfg). exists cfgs, rules', st', cfg.
  split; [exact Hrun|]. split; [exact Hcfg|].
  apply (@setupAlertmanagerConfigs_receivers Fixtures.strings_ascii Fixtures.util_fresh
           Fixtures.secrets_ok Fixtures.regexp_ok Fixtures.notify_ok Fixtures.constants
           Fixtures.range_list _ _ _ _ _ _ Hrun 1 cfg Hcfg).
Defined.

Lemma ReplaceAll_quote_free (s : string) : quote_free s -> ReplaceAll s dquote "_" = s.
Proof.
  unfold quote_free. induction s as [|c s IH]; simpl; [reflexivity|].
  intros Hfree. apply not_elem_of_cons in Hfree as [Hne Hfree].
  rewrite decide_False by congruence. rewrite (IH Hfree). reflexivity.
Qed.

(** the sanitized name of every channel is the name of a receiver: of the
    receiver of the channel, or of an earlier one when the name was taken *)
Lemma createReceivers_names_cover `{StringsPkg} `{UtilPkg} `{SecretsPkg}
    (allChannels : list AlertNotification.t) (st st' : state)
    (receiversMap : gmap uidOrID PostableApiReceiver.t) (receivers : list channelReceiver) :
  createReceivers allChannels st = (inr (receiversMap, receivers), st') ->
  forall c, c ∈ allChannels ->
    ReplaceAll (AlertNotification.Name c) dquote "_"
    ∈ (fun cr => PostableApiReceiver.Name (receiver cr)) <$> receivers.
Proof.
  intros Hrun. apply createReceivers_inr in Hrun as (names & st1 & Hrun).
  apply (foldM_inv createReceivers_step
           (fun done acc =>
              (forall x, x ∈ acc.2
                 -> x ∈ (fun cr => PostableApiReceiver.Name (receiver cr)) <$> acc.1.1)
              /\ forall c, c ∈ done ->
                   ReplaceAll (AlertNotification.Name c) dquote "_"
                   ∈ (fun cr => PostableApiReceiver.Name (receiver cr)) <$> acc.1.1)
           ) with (done := []) in Hrun; [exact (proj2 Hrun)| |].
  - clear. intros done [[rs rm] names] c st acc' st' [Hset Hcover] Hstep.
    apply createReceivers_step_inr in Hstep as (notifier & st1 & _ & ->). cbn [fst snd] in *.
    split.
    + intros x Hx. rewrite fmap_app, elem_of_app. apply elem_of_union in Hx as [Hx|Hx].
      * apply elem_of_singleton in Hx. subst x. right. left.
      * left. apply Hset, Hx.
    + intros c' Hin. rewrite fmap_app, elem_of_app. apply elem_of_app in Hin as [Hin|Hin].
      * left. apply Hcover, Hin.
      * apply list_elem_of_singleton in Hin. subst c'.
        destruct (bool_decide (ReplaceAll (AlertNotification.Name c) dquote "_" ∈ names)) eqn:Hdup.
        -- left. apply Hset. apply bool_decide_eq_true in Hdup. exact Hdup.
        -- right. left.
  - split; [intros x Hx; set_solver | intros c Hc; inversion Hc].
Qed.

(** X9. In every configuration that [setupAlertmanagerConfigs] returns
    the root route has no matcher, does not continue and groups by folder
    title and alert name, and its child routes are one route for each
    channel of the organisation that is not discontinued, in the order of
    the rows: a route that continues, has no children, repeats at the
    frequency of the channel when the channel sends reminders and at the
    pseudo-disabled interval otherwise, names the receiver made for the
    channel (the receiver at the same position in the configuration), and
    matches the contact label against the quoted and escaped name of that
    receiver, which holds no double quote. *)
Theorem setupAlertmanagerConfigs_routes
    `{StringsPkg} `{UtilPkg} `{SecretsPkg} `{RegexpPkg} `{NotifyPkg} `{Constants} `{RangeOrder}
    (rows : list AlertNotification.t)
    (rulesPerOrg rules' : gmap Z (list (AlertRule.t * list uidOrID)))
    (cfgs : gmap Z PostableUserConfig.t) (st st' : state) :
  setupAlertmanagerConfigs (inr rows) rulesPerOrg st = (inr (cfgs, rules'), st') ->
  forall org cfg,
    cfgs !! org = Some cfg ->
    let channels :=
      filter (fun c => AlertNotification.OrgID c = org /\ discontinued c = false) rows in
    exists root,
      PostableUserConfig.Route cfg = Some root
      /\ Route.ObjectMatchers root = []
      /\ Route.Continue root = false
      /\ Route.GroupByStr root = [FolderTitleLabel; AlertNameLabel]
      /\ Forall2 (fun child c =>
                    Route.Continue child = true
                    /\ Route.Routes child = []
                    /\ Route.RepeatInterval child
                       = Some (if AlertNotification.SendReminder c
                               then AlertNotification.Frequency c else DisabledRepeatInterval)
                    /\ quote_free (Route.Receiver child)
                    /\ Route.ObjectMatchers child
                       = [{| Matcher.Type_ := Matcher.MatchRegexp;
                             Matcher.Name := ContactLabel;
                             Matcher.Value :=
                               ".*" +:+ QuoteMeta (quote (Route.Receiver child)) +:+ ".*" |}])
                 (Route.Routes root) channels
      /\ Route.Receiver <$> Route.Routes root
         = PostableApiReceiver.Name <$> firstn (length channels) (PostableUserConfig.Receivers cfg).
Proof.
  intros Hrun org cfg Hcfg channels.
  apply (setupAlertmanagerConfigs_configs
           (fun chans dflts cfg =>
              exists root,
                PostableUserConfig.Route cfg = Some root
                /\ Route.ObjectMatchers root = []
                /\ Route.Continue root = false
                /\ Route.GroupByStr root = [FolderTitleLabel; AlertNameLabel]
                /\ Forall2 (fun child c =>
                     Route.Continue child = true
                     /\ Route.Routes child = []
                     /\ Route.RepeatInterval child
                        = Some (if AlertNotification.SendReminder c
                                then AlertNotification.Frequency c else DisabledRepeatInterval)
                     /\ quote_free (Route.Receiver child)
                     /\ Route.ObjectMatchers child
                        = [{| Matcher.Type_ := Matcher.MatchRegexp;
                              Matcher.Name := ContactLabel;
                              Matcher.Value :=
                                ".*" +:+ QuoteMeta (quote (Route.Receiver child)) +:+ ".*" |}])
                     (Route.Routes root) chans
                /\ Route.Receiver <$> Route.Routes root
                   = PostableApiReceiver.Name
                       <$> firstn (length chans) (PostableUserConfig.Receivers cfg)))
    with (org := org) (cfg := cfg) in Hrun; [exact (proj2 Hrun)| |exact Hcfg].
  clear. intros def cfgs rules org chans st acc' st' Hne Hstep.
  apply setup_step_inr in Hstep
    as (rm & rs & st1 & dr & droute & st2 & routes & st3 & rules' & Hrecv & Hdef & Hroutes
        & _ & Hcfg); [|exact Hne].
  cbv zeta in Hcfg. destruct Hcfg as [_ ->]. eexists. split; [reflexivity|].
  exists (with_Routes droute routes). split; [reflexivity|].
  assert (Hroot : Route.ObjectMatchers droute = [] /\ Route.Continue droute = false
                  /\ Route.GroupByStr droute = [FolderTitleLabel; AlertNameLabel]
                  /\ Route.Routes droute = []).
  { unfold createDefaultRouteAndReceiver in Hdef.
    destruct (default [] (def !! org)) as [|c0 [|c1 rest]].
    - apply ret_inr in Hdef as [Heq _]. injection Heq as _ <-. repeat split.
    - apply ret_inr in Hdef as [Heq _]. injection Heq as _ <-. repeat split.
    - inv_bind Hdef. destruct a as [recv interval].
      apply ret_inr in Hdef as [Heq _]. injection Heq as _ <-. repeat split. }
  destruct Hroot as (Hm & Hc & Hg & Hr). cbn [with_Routes Route.ObjectMatchers Route.Continue
    Route.GroupByStr Route.Routes]. rewrite Hr. cbn [app].
  do 3 (split; [assumption|]).
  apply route_loop_inr in Hroutes as (made & -> & Hmade). cbn [app].
  pose proof (createReceivers_forall2 _ _ _ _ _ Hrecv) as Hall.
  assert (Hlen : length rs = length chans) by (eapply Forall2_length; exact Hall).
  split.
  - clear Hlen Hne Hrecv Hdef. revert made Hmade.
    induction Hall as [|cr c rs chans (Hch & Hfree & _) Hall IH]; intros made Hmade.
    + inversion Hmade. constructor.
    + inversion Hmade as [|route cr' made' rs' Hroute Hmade']. subst.
      constructor; [|apply IH; exact Hmade'].
      apply createRoute_inr in Hroute. subst route.
      cbn [Route.Continue Route.Routes Route.RepeatInterval Route.Receiver Route.ObjectMatchers].
      repeat split. exact Hfree.
  - cbn [PostableUserConfig.Receivers].
    rewrite <- Hlen, <- (length_fmap receiver), take_app_length. clear -Hmade.
    induction Hmade as [|route cr made rs Hroute Hmade IH]; [reflexivity|].
    cbn [fmap list_fmap]. cbn [fmap] in IH. rewrite IH.
    apply createRoute_inr in Hroute. subst route. reflexivity.
Qed.

Lemma setupAlertmanagerConfigs_routes_witness :
  exists cfgs rules' st' cfg root,
    @setupAlertmanagerConfigs Fixtures.strings_ascii Fixtures.util_fresh Fixtures.secrets_ok
      Fixtures.regexp_ok Fixtures.notify_ok Fixtures.constants Fixtures.range_list
      (inr Fixtures.two_orgs) (Fixtures.rules_of 1 [inl "u2"]) Fixtures.state0
    = (inr (cfgs, rules'), st')
    /\ cfgs !! 1 = Some cfg
    /\ PostableUserConfig.Route cfg = Some root
    /\ Route.Continue root = false
    /\ length (Route.Routes root) = 2%nat.
Proof.
  assert (Hrun : exists cfgs rules' st' cfg,
            @setupAlertmanagerConfigs Fixtures.strings_ascii Fixtures.util_fresh
              Fixtures.secrets_ok Fixtures.regexp_ok Fixtures.notify_ok Fixtures.constants
              Fixtures.range_list (inr Fixtures.two_orgs) (Fixtures.rules_of 1 [inl "u2"])
              Fixtures.state0
            = (inr (cfgs, rules'), st')
            /\ cfgs !! 1 = Some cfg)
    by (eexists _, _, _, _; split; vm_compute; reflexivity).
  destruct Hrun as (cfgs & rules' & st' & cfg & Hrun & Hcfg).
  destruct (@setupAlertmanagerConfigs_routes Fixtures.strings_ascii Fixtures.util_fresh
              Fixtures.secrets_ok Fixtures.regexp_ok Fixtures.notify_ok Fixtures.constants
              Fixtures.range_list _ _ _ _ _ _ Hrun 1 cfg Hcfg)
    as (root & Hroot & _ & Hcont & _ & Hchildren & _).
  exists cfgs, rules', st', cfg, root.
  split; [exact Hrun|]. split; [exact Hcfg|]. split; [exact Hroot|]. split; [exact Hcont|].
  apply Forall2_length in Hchildren. rewrite Hchildren. reflexivity.
Defined.

(** X10. In every configuration that [setupAlertmanagerConfigs] returns
    every child route names a receiver of the configuration. Default
    channels are counted among the channels of the organisation that are not
    discontinued. The root route names a receiver of the configuration when
    the organisation does not have exactly one such default channel; when it
    has exactly one, the root route is given the name of that channel as it
    is, while the receivers are given sanitized names, so the root route
    names a receiver of the configuration exactly when the name of the
    default channel holds no double quote. *)
Theorem setupAlertmanagerConfigs_routes_resolve
    `{StringsPkg} `{UtilPkg} `{SecretsPkg} `{RegexpPkg} `{NotifyPkg} `{Constants} `{RangeOrder}
    (rows : list AlertNotification.t)
    (rulesPerOrg rules' : gmap Z (list (AlertRule.t * list uidOrID)))
    (cfgs : gmap Z PostableUserConfig.t) (st st' : state) :
  setupAlertmanagerConfigs (inr rows) rulesPerOrg st = (inr (cfgs, rules'), st') ->
  forall org cfg,
    cfgs !! org = Some cfg ->
    let channels :=
      filter (fun c => AlertNotification.OrgID c = org /\ discontinued c = false) rows in
    let defaults := filter (fun c => AlertNotification.IsDefault c = true) channels in
    let names := PostableApiReceiver.Name <$> PostableUserConfig.Receivers cfg in
    exists root,
      PostableUserConfig.Route cfg = Some root
      /\ (forall child, child ∈ Route.Routes root -> Route.Receiver child ∈ names)
      /\ match defaults with
         | [c0] => Route.Receiver root ∈ names <-> quote_free (AlertNotification.Name c0)
         | _ => Route.Receiver root ∈ names
         end.
Proof.
  intros Hrun org cfg Hcfg channels defaults names.
  apply (setupAlertmanagerConfigs_configs
           (fun chans dflts cfg =>
              exists root,
                PostableUserConfig.Route cfg = Some root
                /\ (forall child, child ∈ Route.Routes root ->
                      Route.Receiver child
                      ∈ PostableApiReceiver.Name <$> PostableUserConfig.Receivers cfg)
                /\ ((forall c, c ∈ dflts -> c ∈ chans) ->
                    match dflts with
                    | [c0] =>
                        Route.Receiver root
                        ∈ PostableApiReceiver.Name <$> PostableUserConfig.Receivers cfg
                        <-> quote_free (AlertNotification.Name c0)
                    | _ => Route.Receiver root
                           ∈ PostableApiReceiver.Name <$> PostableUserConfig.Receivers cfg
                    end)))
    with (org := org) (cfg := cfg) in Hrun; [| |exact Hcfg].
  { destruct Hrun as (_ & root & Hroot & Hchild & Hres). exists root.
    split; [exact Hroot|]. split; [exact Hchild|]. apply Hres.
    intros c Hc. apply list_elem_of_filter in Hc as [_ Hc]. exact Hc. }
  clear. intros def cfgs rules org chans st acc' st' Hne Hstep.
  apply setup_step_inr in Hstep
    as (rm & rs & st1 & dr & droute & st2 & routes & st3 & rules' & Hrecv & Hdef & Hroutes
        & _ & Hcfg); [|exact Hne].
  cbv zeta in Hcfg. destruct Hcfg as [_ ->]. eexists. split; [reflexivity|].
  exists (with_Routes droute routes). split; [reflexivity|].
  cbn [PostableUserConfig.Receivers]. rewrite fmap_app, <- list_fmap_compose.
  pose proof (createReceivers_forall2 _ _ _ _ _ Hrecv) as Hall.
  pose proof (createReceivers_names_cover _ _ _ _ _ Hrecv) as Hcover.
  apply route_loop_inr in Hroutes as (made & -> & Hmade). cbn [app] in *.
  unfold createDefaultRouteAndReceiver in Hdef. split.
  - assert (Hr : Route.Routes droute = []).
    { destruct (default [] (def !! org)) as [|c0 [|c1 rest]].
      - apply ret_inr in Hdef as [Heq _]. injection Heq as _ <-. reflexivity.
      - apply ret_inr in Hdef as [Heq _]. injection Heq as _ <-. reflexivity.
      - inv_bind Hdef. destruct a as [recv interval].
        apply ret_inr in Hdef as [Heq _]. injection Heq as _ <-. reflexivity. }
    cbn [with_Routes Route.Routes]. rewrite Hr. cbn [app]. intros child Hchild.
    apply elem_of_app. left. clear -Hmade Hchild.
    induction Hmade as [|route cr made rs Hroute Hmade IH]; [inversion Hchild|].
    cbn [fmap list_fmap]. apply elem_of_cons in Hchild as [->|Hchild].
    + apply createRoute_inr in Hroute. subst route. left.
    + right. apply IH, Hchild.
  - intros Hsub. cbn [with_Routes Route.Receiver].
    destruct (default [] (def !! org)) as [|c0 [|c1 rest]].
    + apply ret_inr in Hdef as [Heq _]. injection Heq as <- <-.
      apply elem_of_app. right. left.
    + apply ret_inr in Hdef as [Heq _]. injection Heq as <- <-.
      cbn [option_list fmap list_fmap Route.Receiver]. rewrite app_nil_r. split.
      * intros Hin. apply list_elem_of_fmap in Hin as (cr & Hname & Hin).
        cbn [compose] in Hname. rewrite Hname.
        assert (Hfree : Forall (fun cr => quote_free (PostableApiReceiver.Name (receiver cr))) rs).
        { clear -Hall. induction Hall as [|? ? ? ? (_ & Hf & _)]; constructor; assumption. }
        rewrite Forall_forall in Hfree. apply Hfree, Hin.
      * intros Hfree. rewrite <- (ReplaceAll_quote_free _ Hfree). apply Hcover, Hsub. left.
    + inv_bind Hdef. destruct a as [recv interval].
      apply ret_inr in Hdef as [Heq _]. injection Heq as <- <-.
      apply defaultReceiver_loop_inr in Hrun as (Hname & _).
      cbn [Route.Receiver]. apply elem_of_app. right.
      change (defaultReceiverName ∈ [PostableApiReceiver.Name recv]).
      cbn [PostableApiReceiver.Name] in Hname. rewrite Hname. left.
Qed.

Lemma setupAlertmanagerConfigs_routes_resolve_witness :
  exists cfgs rules' st' cfg root,
    @setupAlertmanagerConfigs Fixtures.strings_ascii Fixtures.util_fresh Fixtures.secrets_ok
      Fixtures.regexp_ok Fixtures.notify_ok Fixtures.constants Fixtures.range_list
      (inr Fixtures.two_orgs) (Fixtures.rules_of 1 [inl "u2"]) Fixtures.state0
    = (inr (cfgs, rules'), st')
    /\ cfgs !! 1 = Some cfg
    /\ PostableUserConfig.Route cfg = Some root
    /\ Route.Receiver root ∈ PostableApiReceiver.Name <$> PostableUserConfig.Receivers cfg.
Proof.
  assert (Hrun : exists cfgs rules' st' cfg,
            @setupAlertmanagerConfigs Fixtures.strings_ascii Fixtures.util_fresh
              Fixtures.secrets_ok Fixtures.regexp_ok Fixtures.notify_ok Fixtures.constants
              Fixtures.range_list (inr Fixtures.two_orgs) (Fixtures.rules_of 1 [inl "u2"])
              Fixtures.state0
            = (inr (cfgs, rules'), st')
            /\ cfgs !! 1 = Some cfg)
    by (eexists _, _, _, _; split; vm_compute; reflexivity).
  destruct Hrun as (cfgs & rules' & st' & cfg & Hrun & Hcfg).
  destruct (@setupAlertmanagerConfigs_routes_resolve Fixtures.strings_ascii Fixtures.util_fresh
              Fixtures.secrets_ok Fixtures.regexp_ok Fixtures.notify_ok Fixtures.constants
              Fixtures.range_list _ _ _ _ _ _ Hrun 1 cfg Hcfg)
    as (root & Hroot & _ & Hres).
  exists cfgs, rules', st', cfg, root.
  split; [exact Hrun|]. split; [exact Hcfg|]. split; [exact Hroot|].
  apply Hres. apply (bool_decide_unpack (_ ∉ _)). vm_compute. exact I.
Defined.


(** ** The rules of an organisation *)

Lemma same_but_contact_label_refl `{Constants} (a : AlertRule.t * list uidOrID) :
  same_but_contact_label a a.
Proof. unfold same_but_contact_label. repeat split. Qed.

Lemma same_but_contact_label_trans `{Constants} (a b c : AlertRule.t * list uidOrID) :
  same_but_contact_label a b -> same_but_contact_label b c -> same_but_contact_label a c.
Proof.
  unfold same_but_contact_label.
  intros (H1 & H2 & H3 & H4 & H5 & H6 & H7) (K1 & K2 & K3 & K4 & K5 & K6 & K7).
  repeat split; try congruence. intros k Hk. rewrite (K7 k Hk). apply H7, Hk.
Qed.

Lemma label_loop_inr `{Constants}
    (receiversMap : gmap uidOrID PostableApiReceiver.t) (defaultReceivers : gset string)
    (rules done0 out : list (AlertRule.t * list uidOrID)) (st st' : state) :
  foldM (label_rule receiversMap defaultReceivers) done0 rules st = (inr out, st') ->
  exists labelled, out = done0 ++ labelled /\ Forall2 same_but_contact_label rules labelled.
Proof.
  intros Hrun.
  apply (foldM_inv (label_rule receiversMap defaultReceivers)
           (fun done acc => exists labelled, acc = done0 ++ labelled
              /\ Forall2 same_but_contact_label done labelled)
           ) with (done := []) in Hrun; [exact Hrun| |].
  - clear. intros done acc [ar channelUids] st acc' st' (labelled & -> & Hall) Hstep.
    unfold label_rule in Hstep. inv_bind Hstep.
    destruct (bool_decide _); apply ret_inr in Hstep as [<- _].
    + exists (labelled ++ [(ar, channelUids)]). split; [symmetry; apply app_assoc|].
      apply Forall2_app; [exact Hall|]. constructor; [|constructor].
      apply same_but_contact_label_refl.
    + eexists (labelled ++ [_]). split; [symmetry; apply app_assoc|].
      apply Forall2_app; [exact Hall|]. constructor; [|constructor].
      unfold same_but_contact_label. cbn. repeat split.
      intros k Hk. apply lookup_insert_ne. congruence.
  - exists []. split; [symmetry; apply app_nil_r | constructor].
Qed.

(** what the body of the loop over the organisations does to the rules *)
Lemma setup_step_rules
    `{StringsPkg} `{UtilPkg} `{SecretsPkg} `{RegexpPkg} `{NotifyPkg} `{Constants}
    (defaultChannelsPerOrg : gmap Z (list AlertNotification.t))
    (cfgs : gmap Z PostableUserConfig.t) (rules : gmap Z (list (AlertRule.t * list uidOrID)))
    (acc' : setup_acc) (org : Z) (chans : list AlertNotification.t) (st st' : state) :
  setup_step defaultChannelsPerOrg (cfgs, rules) (org, chans) st = (inr acc', st') ->
  (exists cfg, acc'.1 = <[org := cfg]> cfgs)
  /\ (acc'.2 = rules
      \/ exists orgRules labelled,
           rules !! org = Some orgRules
           /\ acc'.2 = <[org := labelled]> rules
           /\ Forall2 same_but_contact_label orgRules labelled).
Proof.
  unfold setup_step. intros Hrun.
  inv_bind Hrun. destruct a as [receiversMap receivers].
  destruct receivers as [|cr receivers].
  { inv_bind Hrun. apply ret_inr in Hrun as [<- _]. split; [eexists; reflexivity | left; reflexivity]. }
  inv_bind Hrun. destruct a as [defaultReceiver defaultRoute].
  inv_bind Hrun. inv_bind Hrun. rename a0 into rules'.
  destruct (validateAlertmanagerConfig _) as [err|]; [discriminate Hrun|].
  apply ret_inr in Hrun as [<- _]. cbn [fst snd].
  split; [eexists; apply insert_insert_eq|].
  destruct (rules !! org) as [orgRules|] eqn:Hrules.
  - inv_bind Hrun3. apply ret_inr in Hrun3 as [<- _].
    apply label_loop_inr in Hrun as (labelled & -> & Hall).
    right. exists orgRules, labelled. split; [reflexivity|]. split; [reflexivity | exact Hall].
  - apply ret_inr in Hrun3 as [<- _]. left. reflexivity.
Qed.

Lemma Forall2_same_but_contact_label_trans `{Constants}
    (l1 l2 l3 : list (AlertRule.t * list uidOrID)) :
  Forall2 same_but_contact_label l1 l2 -> Forall2 same_but_contact_label l2 l3 ->
  Forall2 same_but_contact_label l1 l3.
Proof.
  intros H12. revert l3. induction H12 as [|a b l1 l2 Hab H12 IH]; intros l3 H23.
  - inversion H23. constructor.
  - inversion H23 as [|b' c l2' l3' Hbc H23']. subst. constructor.
    + eapply same_but_contact_label_trans; eassumption.
    + apply IH, H23'.
Qed.

(** X11. [setupAlertmanagerConfigs] returns the rules of the same
    organisations, as many for each organisation and in the same order; of
    a rule it changes nothing but the value of the contact label: the
    organisation, the title, the UID, the folder, the group, the other
    labels and the channels the rule names are as they were. The rules of
    an organisation that gets no configuration are returned as they were. *)
Theorem setupAlertmanagerConfigs_rules
    `{StringsPkg} `{UtilPkg} `{SecretsPkg} `{RegexpPkg} `{NotifyPkg} `{Constants} `{RangeOrder}
    (query : error + list AlertNotification.t)
    (rulesPerOrg rules' : gmap Z (list (AlertRule.t * list uidOrID)))
    (cfgs : gmap Z PostableUserConfig.t) (st st' : state) :
  setupAlertmanagerConfigs query rulesPerOrg st = (inr (cfgs, rules'), st') ->
  forall org,
    match rulesPerOrg !! org with
    | None => rules' !! org = None
    | Some orgRules =>
        exists labelled,
          rules' !! org = Some labelled
          /\ Forall2 same_but_contact_label orgRules labelled
          /\ (cfgs !! org = None -> labelled = orgRules)
    end.
Proof.
  unfold setupAlertmanagerConfigs. intros Hrun org.
  inv_bind Hrun. destruct a as [allChannelsPerOrg defaultChannelsPerOrg].
  assert (Hinv :
            forall org,
              (cfgs !! org = None -> rules' !! org = rulesPerOrg !! org)
              /\ match rulesPerOrg !! org with
                 | None => rules' !! org = None
                 | Some orgRules =>
                     exists labelled,
                       rules' !! org = Some labelled
                       /\ Forall2 same_but_contact_label orgRules labelled
                 end).
  { refine (foldM_inv (setup_step defaultChannelsPerOrg)
              (fun (done : list (Z * list AlertNotification.t)) (acc : setup_acc) =>
                 forall org,
                   (acc.1 !! org = None -> acc.2 !! org = rulesPerOrg !! org)
                   /\ match rulesPerOrg !! org with
                      | None => acc.2 !! org = None
                      | Some orgRules =>
                          exists labelled,
                            acc.2 !! org = Some labelled
                            /\ Forall2 same_but_contact_label orgRules labelled
                      end) _ _ [] _ _ _ _ _ Hrun).
    - clear. intros done [cfgs rules] [o chans] st acc' st' Hinv Hstep org.
      apply setup_step_rules in Hstep as [[cfg Hcfg] Hrules]. cbn [fst snd] in *.
      destruct (Hinv org) as [Hsame Hrel]. rewrite Hcfg. split.
      + destruct (decide (o = org)) as [->|Hne].
        * rewrite lookup_insert_eq. discriminate.
        * rewrite lookup_insert_ne by exact Hne. intros Hnone.
          destruct Hrules as [->|(orgRules & labelled & _ & -> & _)]; [apply Hsame, Hnone|].
          rewrite lookup_insert_ne by exact Hne. apply Hsame, Hnone.
      + destruct Hrules as [->|(orgRules & labelled & Ho & -> & Hall)]; [exact Hrel|].
        destruct (decide (o = org)) as [->|Hne].
        * rewrite lookup_insert_eq. rewrite Ho in Hrel.
          destruct (rulesPerOrg !! org) as [rules0|]; [|discriminate Hrel].
          destruct Hrel as (l & Hl & Hall0). injection Hl as <-. exists labelled.
          split; [reflexivity|]. eapply Forall2_same_but_contact_label_trans; eassumption.
        * rewrite lookup_insert_ne by exact Hne. exact Hrel.
    - intros org'. cbn [fst snd]. split; [reflexivity|].
      destruct (rulesPerOrg !! org') as [orgRules|]; [|reflexivity].
      exists orgRules. split; [reflexivity|]. clear.
      induction orgRules; constructor; [apply same_but_contact_label_refl | assumption]. }
  destruct (Hinv org) as [Hsame Hrel].
  destruct (rulesPerOrg !! org) as [orgRules|]; [|exact Hrel].
  destruct Hrel as (labelled & Hl & Hall). exists labelled.
  split; [exact Hl|]. split; [exact Hall|]. intros Hnone.
  rewrite (Hsame Hnone) in Hl. injection Hl as <-. reflexivity.
Qed.

Lemma setupAlertmanagerConfigs_rules_witness :
  exists cfgs rules' st' labelled,
    @setupAlertmanagerConfigs Fixtures.strings_ascii Fixtures.util_fresh Fixtures.secrets_ok
      Fixtures.regexp_ok Fixtures.notify_ok Fixtures.constants Fixtures.range_list
      (inr Fixtures.two_orgs) (Fixtures.rules_of 1 [inl "u2"]) Fixtures.state0
    = (inr (cfgs, rules'), st')
    /\ rules' !! 1 = Some labelled
    /\ Forall2 (@same_but_contact_label Fixtures.constants)
         [(Fixtures.rule 1 "cpu" "r1" "folder", [inl "u2"])] labelled.
Proof.
  assert (Hrun : exists cfgs rules' st',
            @setupAlertmanagerConfigs Fixtures.strings_ascii Fixtures.util_fresh
              Fixtures.secrets_ok Fixtures.regexp_ok Fixtures.notify_ok Fixtures.constants
              Fixtures.range_list (inr Fixtures.two_orgs) (Fixtures.rules_of 1 [inl "u2"])
              Fixtures.state0
            = (inr (cfgs, rules'), st'))
    by (eexists _, _, _; vm_compute; reflexivity).
  destruct Hrun as (cfgs & rules' & st' & Hrun).
  pose proof (@setupAlertmanagerConfigs_rules Fixtures.strings_ascii Fixtures.util_fresh
                Fixtures.secrets_ok Fixtures.regexp_ok Fixtures.notify_ok Fixtures.constants
                Fixtures.range_list _ _ _ _ _ _ Hrun 1) as Hspec.
  change (Fixtures.rules_of 1 [inl "u2"] !! 1)
    with (Some [(Fixtures.rule 1 "cpu" "r1" "folder", [inl "u2" : uidOrID])]) in Hspec.
  destruct Hspec as (labelled & Hl & Hall & _).
  exists cfgs, rules', st', labelled. split; [exact Hrun|]. split; [exact Hl | exact Hall].
Defined.


(** ** Intervals and queries of a migrated rule *)

(** X12. [ruleAdjustInterval] gives a multiple of ten seconds that is at
    least ten: ten for every frequency up to ten, and above ten the
    frequency rounded down to the ten below, so less than ten seconds are
    lost. An adjusted interval is not changed by a second adjustment. *)
Theorem ruleAdjustInterval_spec (freq : Z) :
  let interval := ruleAdjustInterval freq in
  10 <= interval
  /\ Z.rem interval 10 = 0
  /\ (freq <= 10 -> interval = 10)
  /\ (10 <= freq -> interval <= freq < interval + 10)
  /\ ruleAdjustInterval interval = interval.
Proof.
  cbv zeta. unfold ruleAdjustInterval.
  destruct (Z.leb_spec freq 10) as [Hle|Hgt].
  - cbn. repeat split; lia.
  - pose proof (Z.rem_bound_pos freq 10 ltac:(lia) ltac:(lia)) as Hrem.
    pose proof (Z.rem_mod_nonneg freq 10 ltac:(lia) ltac:(lia)) as Hmod.
    assert (Hdiv : freq - Z.rem freq 10 = 10 * (freq / 10)).
    { rewrite Hmod. pose proof (Z.div_mod freq 10 ltac:(lia)). lia. }
    assert (Hq : 1 <= freq / 10) by (apply Z.div_le_lower_bound; lia).
    assert (Hrem0 : Z.rem (freq - Z.rem freq 10) 10 = 0).
    { rewrite Hdiv, Z.rem_mod_nonneg by lia. rewrite Z.mul_comm. apply Z.mod_mul. lia. }
    split; [lia|]. split; [exact Hrem0|]. split; [lia|]. split; [lia|].
    destruct (Z.leb_spec (freq - Z.rem freq 10) 10) as [Hle'|Hgt']; [lia|].
    rewrite Hrem0. lia.
Qed.

(** X13. Where the two field names of the package [graphite] differ,
    [fixGraphiteReferencedSubQueries] moves the value of the full target to
    the target: afterwards the model has no full target, its target is the
    former full target when there was one, and every other field is as it
    was; a model without full target is returned as it is. *)
Theorem fixGraphiteReferencedSubQueries_spec `{GraphitePkg} (queryData : gmap string Json.raw) :
  TargetFullModelField <> TargetModelField ->
  let fixed := fixGraphiteReferencedSubQueries queryData in
  fixed !! TargetFullModelField = None
  /\ (forall fullQuery, queryData !! TargetFullModelField = Some fullQuery ->
        fixed !! TargetModelField = Some fullQuery)
  /\ (queryData !! TargetFullModelField = None -> fixed = queryData)
  /\ (forall k, k <> TargetFullModelField -> k <> TargetModelField ->
        fixed !! k = queryData !! k)
  /\ fixGraphiteReferencedSubQueries fixed = fixed.
Proof.
  intros Hne. cbv zeta.
  destruct (queryData !! TargetFullModelField) as [fullQuery|] eqn:Hfull.
  - assert (Heq : fixGraphiteReferencedSubQueries queryData
                  = <[TargetModelField := fullQuery]> (delete TargetFullModelField queryData))
      by (unfold fixGraphiteReferencedSubQueries; rewrite Hfull; reflexivity).
    rewrite Heq.
    assert (Hgone : (<[TargetModelField := fullQuery]> (delete TargetFullModelField queryData))
                      !! TargetFullModelField = None).
    { rewrite lookup_insert_ne by congruence. apply lookup_delete_eq. }
    split; [exact Hgone|]. split.
    { intros v [= <-]. apply lookup_insert_eq. }
    split; [discriminate|]. split.
    { intros k Hk1 Hk2. rewrite lookup_insert_ne by congruence. apply lookup_delete_ne. congruence. }
    unfold fixGraphiteReferencedSubQueries. rewrite Hgone. reflexivity.
  - assert (Heq : fixGraphiteReferencedSubQueries queryData = queryData)
      by (unfold fixGraphiteReferencedSubQueries; rewrite Hfull; reflexivity).
    rewrite !Heq. split; [exact Hfull|]. split; [discriminate|]. split; [reflexivity|].
    split; reflexivity.
Qed.

Lemma fixGraphiteReferencedSubQueries_spec_witness :
  let queryData : gmap string Json.raw :=
    <["targetFull" := Json.RString "sumSeries(a.b)"]> (<["target" := Json.RString "#A"]> ∅) in
  @fixGraphiteReferencedSubQueries Fixtures.graphite queryData !! "targetFull" = None
  /\ @fixGraphiteReferencedSubQueries Fixtures.graphite queryData !! "target"
     = Some (Json.RString "sumSeries(a.b)").
Proof.
  cbv zeta.
  destruct (@fixGraphiteReferencedSubQueries_spec Fixtures.graphite
              (<["targetFull" := Json.RString "sumSeries(a.b)"]>
                 (<["target" := Json.RString "#A"]> ∅)))
    as (Hgone & Hmove & _); [discriminate|].
  split; [exact Hgone|]. apply Hmove. reflexivity.
Defined.

(** encoding a map and decoding the text gives the map back *)
Lemma Unmarshal_Marshal_map (m : option (gmap string Json.raw)) :
  JsonMap.Unmarshal_map (JsonMap.Marshal_map m) = Some m.
Proof.
  destruct m as [m|]; [|reflexivity]. unfold JsonMap.Marshal_map, JsonMap.Unmarshal_map.
  do 2 f_equal. rewrite <- (list_to_map_to_list m) at 2.
  assert (Hperm : reverse (merge_sort JsonMap.key_le (map_to_list m)) ≡ₚ map_to_list m).
  { rewrite reverse_Permutation. apply merge_sort_Permutation. }
  apply list_to_map_proper; [|exact Hperm].
  rewrite Hperm. apply NoDup_fst_map_to_list.
Qed.

Lemma fixPrometheusBothTypeQuery_lookup (queryData : gmap string Json.raw) (k : string) :
  k <> "instant" -> (fixPrometheusBothTypeQuery queryData).1 !! k = queryData !! k.
Proof.
  intros Hk. unfold fixPrometheusBothTypeQuery.
  destruct (from_option _ _ (queryData !! "instant")) as [instant|]; [|reflexivity].
  destruct (from_option _ _ (queryData !! "range")) as [rng|]; [|reflexivity].
  destruct (negb instant || negb rng); [reflexivity|].
  destruct (isPrometheusQuery queryData) as [err|[|]]; try reflexivity.
  cbn [fst]. apply lookup_insert_ne. congruence.
Qed.

(** what the loop of [migrateAlertRuleQueries] makes of a query *)
Lemma migrateQueries_inr `{GraphitePkg} (data : list AlertQuery.t) :
  forall acc result lines,
    migrateQueries acc data = inr (result, lines) ->
    exists made,
      result = acc.1 ++ made
      /\ Forall2 (fun d d' =>
           if decide (AlertQuery.DatasourceUID d = expressionDatasourceUID) then d' = d
           else match JsonMap.Unmarshal_map (AlertQuery.Model d) with
                | None => False
                | Some None => d' = with_Model d Json.RNull
                | Some (Some m) =>
                    d' = with_Model d
                           (JsonMap.Marshal_map
                              (Some (fixPrometheusBothTypeQuery
                                       (fixGraphiteReferencedSubQueries (delete "hide" m))).1))
                end) data made.
Proof.
  induction data as [|d data IH]; intros [result0 lines0] result lines Hrun;
    cbn [migrateQueries] in Hrun.
  - injection Hrun as <- <-. exists []. split; [symmetry; apply app_nil_r | constructor].
  - destruct (migrateQuery (result0, lines0) d) as [err|[result1 lines1]] eqn:Hstep;
      [discriminate Hrun|].
    apply IH in Hrun as (made & -> & Hall). cbn [fst] in *.
    unfold migrateQuery in Hstep.
    destruct (decide (AlertQuery.DatasourceUID d = expressionDatasourceUID)) as [Hexpr|Hexpr].
    + injection Hstep as <- <-. exists (d :: made).
      split; [rewrite <- app_assoc; reflexivity|]. constructor; [|exact Hall].
      rewrite decide_True by exact Hexpr. reflexivity.
    + destruct (JsonMap.Unmarshal_map (AlertQuery.Model d)) as [[m|]|] eqn:Hmodel;
        [| |discriminate Hstep].
      * destruct (fixPrometheusBothTypeQuery _) as [fixed logged] eqn:Hfix.
        injection Hstep as <- <-. eexists (_ :: made).
        split; [rewrite <- app_assoc; reflexivity|]. constructor; [|exact Hall].
        rewrite decide_False by exact Hexpr. rewrite Hmodel, Hfix. reflexivity.
      * injection Hstep as <- <-. eexists (_ :: made).
        split; [rewrite <- app_assoc; reflexivity|]. constructor; [|exact Hall].
        rewrite decide_False by exact Hexpr. rewrite Hmodel. reflexivity.
Qed.

(** X14. [migrateAlertRuleQueries] fails exactly when the model of a
    query that is not an expression is neither a JSON object nor [null]. *)
Theorem migrateAlertRuleQueries_fails `{GraphitePkg} (data : list AlertQuery.t) :
  (exists err, migrateAlertRuleQueries data = inl err)
  <-> Exists (fun d => AlertQuery.DatasourceUID d <> expressionDatasourceUID
                       /\ JsonMap.Unmarshal_map (AlertQuery.Model d) = None) data.
Proof.
  unfold migrateAlertRuleQueries. generalize (@nil AlertQuery.t, @nil (level * string)).
  induction data as [|d data IH]; intros acc; cbn [migrateQueries].
  - split; [intros [err Herr]; discriminate Herr | intros Hex; inversion Hex].
  - rewrite Exists_cons. destruct acc as [result lines]. unfold migrateQuery at 1.
    destruct (decide (AlertQuery.DatasourceUID d = expressionDatasourceUID)) as [Hexpr|Hexpr].
    + rewrite IH. split; [intros Hex; right; exact Hex|].
      intros [[Hne _]|Hex]; [contradiction | exact Hex].
    + destruct (JsonMap.Unmarshal_map (AlertQuery.Model d)) as [[m|]|] eqn:Hmodel.
      * destruct (fixPrometheusBothTypeQuery _) as [fixed logged]. rewrite IH.
        split; [intros Hex; right; exact Hex|].
        intros [[_ Hnone]|Hex]; [discriminate Hnone | exact Hex].
      * rewrite IH. split; [intros Hex; right; exact Hex|].
        intros [[_ Hnone]|Hex]; [discriminate Hnone | exact Hex].
      * split; [intros _; left; split; [exact Hexpr | reflexivity]|].
        intros _. eexists. reflexivity.
Qed.

(** X15. When [migrateAlertRuleQueries] succeeds it returns as many
    queries as it was given, in the same order and with the same reference
    IDs and data sources. An expression is returned as it is. The model of
    another query is [null] when it was [null]; otherwise it is an object
    that has no field [hide] and no full target, and whose fields other than
    [hide], the two graphite targets and [instant] are those of the given
    model. The names of the graphite fields are taken to differ from each
    other, the target from [hide] and the full target from [instant]. *)
Theorem migrateAlertRuleQueries_spec `{GraphitePkg}
    (data result : list AlertQuery.t) (lines : list (level * string)) :
  TargetFullModelField <> TargetModelField ->
  TargetModelField <> "hide" ->
  TargetFullModelField <> "instant" ->
  migrateAlertRuleQueries data = inr (result, lines) ->
  Forall2 (fun d d' =>
    AlertQuery.RefID d' = AlertQuery.RefID d
    /\ AlertQuery.DatasourceUID d' = AlertQuery.DatasourceUID d
    /\ (AlertQuery.DatasourceUID d = expressionDatasourceUID -> d' = d)
    /\ (AlertQuery.DatasourceUID d <> expressionDatasourceUID ->
        match JsonMap.Unmarshal_map (AlertQuery.Model d) with
        | None => False
        | Some None => AlertQuery.Model d' = Json.RNull
        | Some (Some m) =>
            exists m',
              JsonMap.Unmarshal_map (AlertQuery.Model d') = Some (Some m')
              /\ m' !! "hide" = None
              /\ m' !! TargetFullModelField = None
              /\ forall k, k <> "hide" -> k <> TargetFullModelField ->
                           k <> TargetModelField -> k <> "instant" -> m' !! k = m !! k
        end)) data result.
Proof.
  intros Hne Hhide Hinstant Hrun. unfold migrateAlertRuleQueries in Hrun.
  apply migrateQueries_inr in Hrun as (made & -> & Hall). cbn [fst app].
  eapply Forall2_impl; [exact Hall|]. cbv beta. clear Hall. intros d d' Hd.
  destruct (decide (AlertQuery.DatasourceUID d = expressionDatasourceUID)) as [Hexpr|Hexpr].
  { subst d'. repeat split. intros Hc. contradiction. }
  destruct (JsonMap.Unmarshal_map (AlertQuery.Model d)) as [[m|]|]; [| |contradiction].
  - subst d'. split; [reflexivity|]. split; [reflexivity|]. split; [intros Hc; contradiction|].
    intros _. eexists. cbn [with_Model AlertQuery.Model].
    split; [apply Unmarshal_Marshal_map|].
    split; [|split].
    + rewrite fixPrometheusBothTypeQuery_lookup by discriminate.
      unfold fixGraphiteReferencedSubQueries.
      destruct (delete "hide" m !! TargetFullModelField) as [fullQuery|] eqn:Hfull.
      * rewrite lookup_insert_ne by congruence.
        destruct (decide (TargetFullModelField = "hide")) as [Heq|Hdiff].
        -- rewrite Heq, lookup_delete_eq in Hfull. discriminate Hfull.
        -- rewrite lookup_delete_ne by congruence. apply lookup_delete_eq.
      * apply lookup_delete_eq.
    + rewrite fixPrometheusBothTypeQuery_lookup by exact Hinstant.
      unfold fixGraphiteReferencedSubQueries.
      destruct (delete "hide" m !! TargetFullModelField) as [fullQuery|] eqn:Hfull.
      * rewrite lookup_insert_ne by congruence. apply lookup_delete_eq.
      * exact Hfull.
    + intros k Hk1 Hk2 Hk3 Hk4. rewrite fixPrometheusBothTypeQuery_lookup by exact Hk4.
      unfold fixGraphiteReferencedSubQueries.
      destruct (delete "hide" m !! TargetFullModelField) as [fullQuery|] eqn:Hfull.
      * rewrite lookup_insert_ne by congruence. rewrite lookup_delete_ne by congruence.
        apply lookup_delete_ne. congruence.
      * apply lookup_delete_ne. congruence.
  - subst d'. split; [reflexivity|]. split; [reflexivity|]. split; [intros Hc; contradiction|].
    intros _. reflexivity.
Qed.

Lemma migrateAlertRuleQueries_spec_witness :
  let hidden : AlertQuery.t :=
    {| AlertQuery.RefID := "A"; AlertQuery.DatasourceUID := "gr";
       AlertQuery.Model :=
         Json.RObject [("hide", Json.RBool true); ("target", Json.RString "#B");
                       ("targetFull", Json.RString "sumSeries(a.b)")] |} in
  exists result lines,
    @migrateAlertRuleQueries Fixtures.graphite [hidden] = inr (result, lines)
    /\ length result = 1%nat.
Proof.
  cbv zeta.
  assert (Hrun : exists result lines,
            @migrateAlertRuleQueries Fixtures.graphite
              [{| AlertQuery.RefID := "A"; AlertQuery.DatasourceUID := "gr";
                  AlertQuery.Model :=
                    Json.RObject [("hide", Json.RBool true); ("target", Json.RString "#B");
                                  ("targetFull", Json.RString "sumSeries(a.b)")] |}]
            = inr (result, lines))
    by (eexists _, _; vm_compute; reflexivity).
  destruct Hrun as (result & lines & Hrun). exists result, lines. split; [exact Hrun|].
  pose proof (@migrateAlertRuleQueries_spec Fixtures.graphite _ _ _
                ltac:(discriminate) ltac:(discriminate) ltac:(discriminate) Hrun) as Hspec.
  apply Forall2_length in Hspec. symmetry. exact Hspec.
Defined.


(** ** Handing the rules to the store *)

Lemma insert_fold_frame (l : list AlertRule.t) :
  forall (td : gmap string (gset string)) (out : list AlertRule.t),
    titles_recorded td out ->
    exists l',
      (fold_left insert_step l (td, out)).2 = out ++ l'
      /\ Forall2 (fun r r' => r' = r \/ r' = with_uid_suffix r) l l'
      /\ (NoDup ((fun r => (AlertRule.NamespaceUID r, AlertRule.Title r)) <$> l) ->
          (forall r r0, r ∈ l -> r0 ∈ out ->
             (AlertRule.NamespaceUID r0, AlertRule.Title r0)
             <> (AlertRule.NamespaceUID r, AlertRule.Title r)) ->
          l' = l).
Proof.
  induction l as [|r l IH]; intros td out Hinv.
  { exists []. split; [symmetry; apply app_nil_r|]. split; [constructor | reflexivity]. }
  cbn [fold_left].
  pose proof (insert_step_recorded td out r Hinv) as Hnext.
  assert (Hstep : exists td1 r',
             insert_step (td, out) r = (td1, out ++ [r'])
             /\ r' = (if bool_decide (AlertRule.Title r
                                       ∈ default ∅ (td !! AlertRule.NamespaceUID r))
                      then with_uid_suffix r else r))
    by (unfold insert_step; eexists _, _; split; reflexivity).
  destruct Hstep as (td1 & r' & Hstep & Hr'). rewrite Hstep in Hnext |- *. cbn [fst snd] in Hnext.
  destruct (IH td1 (out ++ [r']) Hnext) as (l' & Hout & Hall & Hsame).
  exists (r' :: l'). split; [rewrite Hout, <- app_assoc; reflexivity|]. split.
  - constructor; [|exact Hall]. rewrite Hr'. destruct (bool_decide _); [right | left]; reflexivity.
  - intros Hnd Hfresh. rewrite fmap_cons in Hnd. apply NoDup_cons in Hnd as [Hhead Hnd].
    assert (Heq : r' = r).
    { rewrite Hr'. rewrite bool_decide_eq_false_2; [reflexivity|].
      intros Hin. apply (Hinv (AlertRule.NamespaceUID r) (AlertRule.Title r)) in Hin
        as (r0 & Hr0 & Hns & Ht).
      apply (Hfresh r r0); [left | exact Hr0 | congruence]. }
    rewrite Heq in *. f_equal. apply Hsame; [exact Hnd|].
    intros r1 r0 Hr1 Hr0. apply elem_of_app in Hr0 as [Hr0|Hr0].
    + apply Hfresh; [right; exact Hr1 | exact Hr0].
    + apply list_elem_of_singleton in Hr0. subst r0. intros Hkey. apply Hhead.
      rewrite Hkey. apply (list_elem_of_fmap_2 (fun r => (AlertRule.NamespaceUID r, AlertRule.Title r))).
      exact Hr1.
Qed.

(** X16. The rules that [insertRules] hands to the store for an
    organisation are the rules it was given, as many and in the order it
    visits them, each one as it was or with the space and its UID appended
    to the title and the group: the organisation, the UID, the folder and
    the labels of a rule are never changed. When no two rules of the
    organisation have the same folder and the same title, every rule is
    handed on as it is. *)
Theorem dedup_titles_frame (orgRules : list AlertRule.t) :
  Forall2 (fun rule stored =>
             (stored = rule \/ stored = with_uid_suffix rule)
             /\ AlertRule.OrgID stored = AlertRule.OrgID rule
             /\ AlertRule.UID stored = AlertRule.UID rule
             /\ AlertRule.NamespaceUID stored = AlertRule.NamespaceUID rule
             /\ AlertRule.Labels stored = AlertRule.Labels rule)
          orgRules (dedup_titles orgRules)
  /\ (NoDup ((fun r => (AlertRule.NamespaceUID r, AlertRule.Title r)) <$> orgRules) ->
      dedup_titles orgRules = orgRules).
Proof.
  unfold dedup_titles.
  destruct (insert_fold_frame orgRules ∅ []) as (l' & Hout & Hall & Hsame).
  { intros ns t. rewrite lookup_empty. cbn. split; [intros Hin; exfalso; set_solver|].
    intros (r & Hr & _). inversion Hr. }
  rewrite Hout. cbn [app]. split.
  - eapply Forall2_impl; [exact Hall|]. cbv beta.
    intros r r' [->| ->]; (split; [auto|]); repeat split.
  - intros Hnd. apply Hsame; [exact Hnd|]. intros r r0 _ Hr0. inversion Hr0.
Qed.

(** X17. [insertRules] visits the organisations in the order of the
    [range] and makes one insertion for each, with the rules of the
    organisation, until an insertion fails: it returns the error of the
    first insertion that fails and asks nothing more of the store, and it
    returns no error exactly when it has made an insertion for every
    organisation and all of them succeeded. *)
Theorem insertRules_calls `{StorePkg} `{RangeOrder}
    (rulesPerOrg : gmap Z (list (AlertRule.t * list uidOrID))) :
  let call_of (o : Z * list (AlertRule.t * list uidOrID)) :=
    InsertAlertRules (dedup_titles (fst <$> o.2)) in
  exists visited rest,
    range rulesPerOrg = visited ++ rest
    /\ (insertRules rulesPerOrg).1 = call_of <$> visited
    /\ match (insertRules rulesPerOrg).2 with
       | None => rest = [] /\ Forall (fun o => store_error (call_of o) = None) visited
       | Some err =>
           exists before o,
             visited = before ++ [o]
             /\ Forall (fun o => store_error (call_of o) = None) before
             /\ store_error (call_of o) = Some err
       end.
Proof.
  cbv zeta. unfold insertRules. generalize (range rulesPerOrg). clear rulesPerOrg.
  intros orgs. induction orgs as [|[org orgRules] orgs IH]; cbn [insertRules_loop].
  - exists [], []. split; [reflexivity|]. split; [reflexivity|]. split; [reflexivity | constructor].
  - destruct (store_error (InsertAlertRules (dedup_titles (fst <$> orgRules)))) as [err|] eqn:Hcall.
    + exists [(org, orgRules)], orgs. split; [reflexivity|]. split; [reflexivity|].
      cbn [snd]. exists [], (org, orgRules). split; [reflexivity|]. split; [constructor | exact Hcall].
    + destruct IH as (visited & rest & Horgs & Hcalls & Herr).
      destruct (insertRules_loop orgs) as [calls err]. cbn [fst snd] in *.
      exists ((org, orgRules) :: visited), rest. split; [rewrite Horgs; reflexivity|].
      split; [rewrite Hcalls; reflexivity|].
      destruct err as [err|].
      * destruct Herr as (before & o & -> & Hok & Hfail).
        exists ((org, orgRules) :: before), o. split; [reflexivity|].
        split; [constructor; [exact Hcall | exact Hok] | exact Hfail].
      * destruct Herr as [-> Hok]. split; [reflexivity|]. constructor; [exact Hcall | exact Hok].
Qed.

(** ** Cleaning up after a dashboard *)

(** X18. [cleanupDashboardAlerts] returns an error exactly when a call it
    made on the store failed. Without a dashboard upgrade it does nothing.
    With one, it asks the store to delete the recorded rules when there are
    any, and when that fails it stops: the error is returned, no folder is
    deleted and the list of created folders is as it was. When the deletion
    of the rules does not fail and the new folder of the upgrade is not
    empty, differs from the folder of the dashboard and is in the list of
    created folders, the store is asked to delete that folder and the list
    gets one entry shorter, whether the store fails or not. *)
Theorem cleanupDashboardAlerts_errors `{StorePkg}
    (om : OrgMigration) (du : option DashboardUpgrade.t) :
  let calls := (cleanupDashboardAlerts om du).1.1 in
  let om' := (cleanupDashboardAlerts om du).1.2 in
  let err := (cleanupDashboardAlerts om du).2 in
  (err = None <-> Forall (fun call => store_error call = None) calls)
  /\ (du = None -> calls = [] /\ om' = om)
  /\ forall d, du = Some d ->
       let ruleUids := omap rule_uid (DashboardUpgrade.MigratedAlerts d) in
       let deleteRules := DeleteAlertRules (orgID om) ruleUids in
       let newFolder := DashboardUpgrade.NewFolderUID d in
       (ruleUids = [] -> deleteRules ∉ calls)
       /\ (ruleUids <> [] -> head calls = Some deleteRules)
       /\ (forall e, ruleUids <> [] -> store_error deleteRules = Some e ->
             calls = [deleteRules] /\ om' = om
             /\ err = Some (Wrap "delete existing alert rules" e))
       /\ ((ruleUids = [] \/ store_error deleteRules = None) ->
           newFolder <> "" -> newFolder <> DashboardUpgrade.FolderUID d ->
           newFolder ∈ CreatedFolders om ->
           last calls = Some (DeleteFolders (orgID om) newFolder)
           /\ length (CreatedFolders om) = S (length (CreatedFolders om'))
           /\ err = (fun e => Wrap "delete folder '%s'" e)
                      <$> store_error (DeleteFolders (orgID om) newFolder)).
Proof.
  cbv zeta. destruct du as [d|].
  2:{ cbn. split; [split; [constructor | reflexivity]|]. split; [split; reflexivity|].
      intros d Hd. discriminate Hd. }
  unfold cleanupDashboardAlerts.
  set (ruleUids := omap rule_uid (DashboardUpgrade.MigratedAlerts d)).
  set (deleteRules := DeleteAlertRules (orgID om) ruleUids).
  set (newFolder := DashboardUpgrade.NewFolderUID d).
  set (deleteFolder := DeleteFolders (orgID om) newFolder).
  assert (Hstage1 :
            (match ruleUids with
             | [] => ([], None)
             | _ => ([deleteRules], store_error deleteRules)
             end : list StoreCall * option error)
            = (if decide (ruleUids = []) then [] else [deleteRules],
               if decide (ruleUids = []) then None else store_error deleteRules)).
  { subst deleteRules. destruct ruleUids; reflexivity. }
  rewrite Hstage1. clear Hstage1. cbv beta iota.
  pose proof (remove_first_spec newFolder (CreatedFolders om)) as Hremove.
  split; [|split; [discriminate|]].
  - destruct (decide (ruleUids = [])) as [Hnil|Hnil].
    + destruct (decide _) as [Hcond|Hcond]; cbn [fst snd];
        [|split; [constructor | reflexivity]].
      destruct (remove_first newFolder (CreatedFolders om)) as [[|] created]; cbn [fst snd];
        [|split; [constructor | reflexivity]].
      cbn [orgID]. fold deleteFolder.
      destruct (store_error deleteFolder) as [e|] eqn:Hcall; cbn [fst snd app].
      * split; [discriminate|]. intros Hall. inversion Hall as [|? ? Hc _]. congruence.
      * split; [intros _; constructor; [exact Hcall | constructor] | reflexivity].
    + destruct (store_error deleteRules) as [e|] eqn:Hrules; cbn [fst snd].
      { split; [discriminate|]. intros Hall. inversion Hall as [|? ? Hc _]. congruence. }
      destruct (decide _) as [Hcond|Hcond]; cbn [fst snd];
        [|split; [intros _; constructor; [exact Hrules | constructor] | reflexivity]].
      destruct (remove_first newFolder (CreatedFolders om)) as [[|] created]; cbn [fst snd];
        [|split; [intros _; constructor; [exact Hrules | constructor] | reflexivity]].
      cbn [orgID]. fold deleteFolder.
      destruct (store_error deleteFolder) as [e|] eqn:Hcall; cbn [fst snd app].
      * split; [discriminate|]. intros Hall. inversion Hall as [|? ? _ Hall'].
        inversion Hall' as [|? ? Hc _]. congruence.
      * split; [|reflexivity]. intros _. repeat constructor; assumption.
  - intros d' [= <-]. fold ruleUids deleteRules newFolder.
    assert (Hfolder :
              forall calls0 : list StoreCall,
                newFolder <> "" -> newFolder <> DashboardUpgrade.FolderUID d ->
                newFolder ∈ CreatedFolders om ->
                let res :=
                  (if decide (newFolder <> "" /\ newFolder <> DashboardUpgrade.FolderUID d)
                   then
                     let '(found, created) := remove_first newFolder (CreatedFolders om) in
                     let om0 := {| orgID := orgID om; CreatedFolders := created |} in
                     if found then
                       match store_error (DeleteFolders (orgID om0) newFolder) with
                       | Some err =>
                           (calls0 ++ [DeleteFolders (orgID om0) newFolder], om0,
                            Some (Wrap "delete folder '%s'" err))
                       | None => (calls0 ++ [DeleteFolders (orgID om0) newFolder], om0, None)
                       end
                     else (calls0, om0, None)
                   else (calls0, om, None)) in
                last res.1.1 = Some deleteFolder
                /\ length (CreatedFolders om) = S (length (CreatedFolders res.1.2))
                /\ res.2 = (fun e => Wrap "delete folder '%s'" e) <$> store_error deleteFolder).
    { intros calls0 Hne1 Hne2 Hin. cbv zeta. rewrite decide_True by (split; assumption).
      destruct (remove_first newFolder (CreatedFolders om)) as [[|] created].
      - destruct Hremove as (l1 & l2 & Hcreated & _ & ->). cbn [orgID]. fold deleteFolder.
        assert (Hlen : length (CreatedFolders om) = S (length (l1 ++ l2))).
        { rewrite Hcreated, !length_app. cbn [length]. lia. }
        destruct (store_error deleteFolder) as [e|]; cbn [fst snd CreatedFolders fmap option_fmap
          option_map]; (split; [apply last_snoc|]); split; first [exact Hlen | reflexivity].
      - destruct Hremove as [Hnot _]. contradiction. }
    destruct (decide (ruleUids = [])) as [Hnil|Hnil].
    + split; [intros _; cbn [fst snd]|].
      { destruct (decide _) as [Hcond|Hcond]; cbn [fst snd]; [|apply not_elem_of_nil].
        destruct (remove_first newFolder (CreatedFolders om)) as [[|] created]; cbn [fst snd];
          [|apply not_elem_of_nil].
        destruct (store_error _); cbn [fst snd app]; intros Hin;
          apply list_elem_of_singleton in Hin; discriminate Hin. }
      split; [intros Hc; contradiction|]. split; [intros e Hc; contradiction|].
      intros _. apply (Hfolder []).
    + split; [intros Hc; contradiction|]. split.
      { intros _. destruct (store_error deleteRules) as [e|]; [reflexivity|].
        destruct (decide _) as [Hcond|Hcond]; [|reflexivity].
        destruct (remove_first newFolder (CreatedFolders om)) as [[|] created]; [|reflexivity].
        destruct (store_error _); reflexivity. }
      split.
      { intros e _ He. rewrite He. cbn [fst snd]. repeat split. }
      intros [Hc|Hok]; [contradiction|]. rewrite Hok. apply (Hfolder [deleteRules]).
Qed.


(** ** The contact label and the receivers of a rule *)

Lemma string_app_nil_r (s : string) : s +:+ "" = s.
Proof.
  induction s as [|c s IH]; [reflexivity|].
  change (String c (s +:+ "") = String c s). rewrite IH. reflexivity.
Qed.

Lemma string_app_assoc (s t u : string) : s +:+ (t +:+ u) = (s +:+ t) +:+ u.
Proof.
  induction s as [|c s IH]; [reflexivity|].
  change (String c (s +:+ (t +:+ u)) = String c ((s +:+ t) +:+ u)). rewrite IH. reflexivity.
Qed.

Lemma Join_contains (elems : list string) (sep x : string) :
  x ∈ elems -> exists before after, Join elems sep = before +:+ x +:+ after.
Proof.
  induction elems as [|s elems IH]; intros Hin; [inversion Hin|].
  assert (Hjoin : Join (s :: elems) sep
                  = match elems with [] => s | _ => s +:+ sep +:+ Join elems sep end)
    by reflexivity.
  rewrite Hjoin. apply elem_of_cons in Hin as [->|Hin].
  - destruct elems as [|s' elems].
    + exists "", "". cbn. symmetry. apply string_app_nil_r.
    + exists "", (sep +:+ Join (s' :: elems) sep). reflexivity.
  - destruct (IH Hin) as (before & after & ->).
    destruct elems as [|s' elems]; [inversion Hin|].
    exists (s +:+ sep +:+ before), after.
    rewrite <- !string_app_assoc. reflexivity.
Qed.

(** X19. The contact label of a set of receiver names holds every name
    of the set between double quotes: the text that the route made for a
    receiver of that name looks for in the label. The label of the empty set
    is empty and the label of a single name is the quoted name. *)
Theorem contactListToString_contains (m : gset string) :
  (forall name, name ∈ m ->
     exists before after, contactListToString m = before +:+ quote name +:+ after)
  /\ contactListToString ∅ = ""
  /\ forall name, contactListToString {[name]} = quote name.
Proof.
  split; [|split].
  - intros name Hin. unfold contactListToString. apply Join_contains.
    unfold sort_Strings. rewrite merge_sort_Permutation.
    apply list_elem_of_fmap_2, elem_of_elements, Hin.
  - unfold contactListToString. rewrite elements_empty. reflexivity.
  - intros name. unfold contactListToString. rewrite elements_singleton. reflexivity.
Qed.

(** X20. [filterReceiversForAlert] never fails. It logs one warning for
    each channel of the rule that is not in the map of receivers, in the
    order of the channels, and changes nothing else of the state. It
    returns the empty set when the receivers of the channels it finds are
    all default receivers, and those receivers together with the default
    receivers otherwise. *)
Theorem filterReceiversForAlert_logs (name : string) (channelIDs : list uidOrID)
    (receivers : gmap uidOrID PostableApiReceiver.t) (defaultReceivers : gset string)
    (st : state) :
  let resolved : gset string :=
    list_to_set (omap (fun id => PostableApiReceiver.Name <$> receivers !! id) channelIDs) in
  let obsolete := filter (fun id => receivers !! id = None) channelIDs in
  filterReceiversForAlert name channelIDs receivers defaultReceivers st
  = (inr (if decide (resolved ⊆ defaultReceivers) then ∅ else resolved ∪ defaultReceivers),
     {| seenUIDs := seenUIDs st;
        rnd := rnd st;
        logs := logs st
                ++ ((fun _ => (Warn, "Alert linked to obsolete notification channel, ignoring"))
                      <$> obsolete) |}).
Proof.
  cbv zeta.
  destruct (filterReceiversForAlert_spec name channelIDs receivers defaultReceivers st)
    as [st' Hrun].
  cbv zeta in Hrun. rewrite Hrun. f_equal.
  assert (Hloop : forall ids acc s,
            (foldM (filter_step receivers) acc ids s).2
            = {| seenUIDs := seenUIDs s; rnd := rnd s;
                 logs := logs s
                         ++ ((fun _ => (Warn, "Alert linked to obsolete notification channel, ignoring"))
                               <$> filter (fun id => receivers !! id = None) ids) |}).
  { induction ids as [|id ids IH]; intros acc s; cbn [foldM].
    - cbn. rewrite app_nil_r. destruct s; reflexivity.
    - unfold bind at 1, filter_step at 1. rewrite filter_cons.
      destruct (receivers !! id) as [recv|] eqn:Hid.
      + unfold ret at 1. rewrite IH. rewrite decide_False by discriminate. reflexivity.
      + unfold bind at 1, log at 1, ret at 1. rewrite IH. rewrite decide_True by reflexivity.
        cbn [seenUIDs rnd logs]. rewrite fmap_cons, <- app_assoc. reflexivity. }
  assert (Hst : st' = (filterReceiversForAlert name channelIDs receivers defaultReceivers st).2)
    by (rewrite Hrun; reflexivity).
  rewrite Hst. unfold filterReceiversForAlert. destruct channelIDs as [|id ids].
  - cbn. rewrite app_nil_r. destruct st; reflexivity.
  - unfold bind. specialize (Hloop (id :: ids) ∅ st).
    destruct (foldM (filter_step receivers) ∅ (id :: ids) st) as [[err|names] st1].
    + exact Hloop.
    + cbn [snd] in Hloop. destruct (_ || _); exact Hloop.
Qed.

(** ** Validation *)

(** X21. [validateAlertmanagerConfig] accepts a configuration exactly
    when every notifier of every receiver builds; otherwise it returns the
    error of the first notifier that does not build, the receivers and their
    notifiers taken in order. *)
Theorem validateAlertmanagerConfig_spec `{NotifyPkg} (config : PostableUserConfig.t) :
  let notifiers :=
    concat (PostableApiReceiver.GrafanaManagedReceivers <$> PostableUserConfig.Receivers config) in
  (validateAlertmanagerConfig config = None
   <-> forall r n, r ∈ PostableUserConfig.Receivers config ->
                   n ∈ PostableApiReceiver.GrafanaManagedReceivers r ->
                   BuildReceiverConfiguration n = None)
  /\ forall err,
       validateAlertmanagerConfig config = Some err
       <-> exists before n after,
             notifiers = before ++ n :: after
             /\ Forall (fun n => BuildReceiverConfiguration n = None) before
             /\ BuildReceiverConfiguration n = Some err.
Proof.
  cbv zeta. unfold validateAlertmanagerConfig.
  set (notifiers := concat (PostableApiReceiver.GrafanaManagedReceivers
                              <$> PostableUserConfig.Receivers config)).
  assert (Hin : forall n, n ∈ notifiers
                <-> exists r, r ∈ PostableUserConfig.Receivers config
                              /\ n ∈ PostableApiReceiver.GrafanaManagedReceivers r).
  { intros n. subst notifiers. rewrite list_elem_of_In, in_concat. split.
    - intros (l & Hl & Hn). apply list_elem_of_In, list_elem_of_fmap in Hl as (r & -> & Hr).
      exists r. split; [exact Hr | apply list_elem_of_In, Hn].
    - intros (r & Hr & Hn). eexists. split; [|apply list_elem_of_In, Hn].
      apply list_elem_of_In, list_elem_of_fmap_2, Hr. }
  assert (Hfind : forall l err,
            list_find is_Some (BuildReceiverConfiguration <$> l) ≫= snd = Some err
            <-> exists before n after,
                  l = before ++ n :: after
                  /\ Forall (fun n => BuildReceiverConfiguration n = None) before
                  /\ BuildReceiverConfiguration n = Some err).
  { clear. induction l as [|n l IH]; intros err.
    - cbn. split; [discriminate|]. intros (before & n & after & Hl & _).
      destruct before; discriminate Hl.
    - rewrite fmap_cons. cbn [list_find]. destruct (BuildReceiverConfiguration n) as [e|] eqn:Hn.
      + rewrite decide_True by (eexists; reflexivity). cbn. split.
        * intros [= <-]. exists [], n, l. split; [reflexivity|]. split; [constructor | exact Hn].
        * intros ([|n0 before] & n' & after & Hl & Hok & Hfail).
          -- injection Hl as <- <-. congruence.
          -- injection Hl as <- _. inversion Hok. congruence.
      + rewrite decide_False by (intros [x Hx]; discriminate Hx).
        destruct (list_find is_Some (BuildReceiverConfiguration <$> l)) as [[i o]|] eqn:Hl;
          cbn in IH |- *.
        * rewrite IH. split.
          -- intros (before & n' & after & -> & Hok & Hfail). exists (n :: before), n', after.
             split; [reflexivity|]. split; [constructor; assumption | exact Hfail].
          -- intros ([|n0 before] & n' & after & Heq & Hok & Hfail).
             ++ injection Heq as <- _. congruence.
             ++ injection Heq as <- ->. inversion Hok. exists before, n', after. auto.
        * split; [discriminate|]. intros ([|n0 before] & n' & after & Heq & Hok & Hfail).
          -- injection Heq as <- _. congruence.
          -- injection Heq as <- ->. inversion Hok. apply (IH err). exists before, n', after. auto. }
  split; [|intros err; apply Hfind].
  destruct (list_find is_Some (BuildReceiverConfiguration <$> notifiers) ≫= snd) as [err|] eqn:Hv.
  - apply Hfind in Hv as (before & n & after & Hl & _ & Hfail).
    split; [discriminate|]. intros Hall. exfalso.
    assert (Hn : n ∈ notifiers) by (rewrite Hl; apply elem_of_app; right; left).
    apply Hin in Hn as (r & Hr & Hn). rewrite (Hall r n Hr Hn) in Hfail. discriminate Hfail.
  - split; [|reflexivity]. intros _ r n Hr Hn.
    destruct (BuildReceiverConfiguration n) as [e|] eqn:Hb; [|reflexivity]. exfalso.
    assert (Hmem : n ∈ notifiers) by (apply Hin; exists r; auto).
    assert (Hex : exists err, list_find is_Some (BuildReceiverConfiguration <$> notifiers) ≫= snd
                              = Some err).
    { clear -Hmem Hb Hfind. induction notifiers as [|n0 l IH]; [inversion Hmem|].
      destruct (BuildReceiverConfiguration n0) as [e0|] eqn:Hn0.
      - exists e0. apply Hfind. exists [], n0, l. split; [reflexivity|]. split; [constructor|exact Hn0].
      - apply elem_of_cons in Hmem as [->|Hmem]; [congruence|].
        destruct (IH Hmem) as [err Herr]. apply Hfind in Herr as (before & n' & after & -> & Hok & Hf).
        exists err. apply Hfind. exists (n0 :: before), n', after.
        split; [reflexivity|]. split; [constructor; assumption | exact Hf]. }
    destruct Hex as [err Herr]. rewrite Herr in Hv. discriminate Hv.
Qed.


(** ** Channels, labels and annotations of a migrated rule *)

(** X22. [extractChannelUIDs] returns one UID for each notification of
    the settings that has a positive ID or a UID that is not empty, in the
    order of the settings. A positive ID wins over the UID: the UID is the
    one the store returns for the ID, and it is handed on also when the
    store fails, in which case an error is logged; the UID of the settings
    is used only when the ID is not positive. Without positive IDs the
    store is not consulted and no UID returned is empty. *)
Theorem extractChannelUIDs_spec `{MigrationStorePkg} (orgID : Z)
    (notifications : list DashAlertNot.t) :
  let lookup ui := GetAlertNotificationUidWithId orgID (DashAlertNot.ID ui) in
  let channelUids := (extractChannelUIDs orgID notifications).1 in
  let lines := (extractChannelUIDs orgID notifications).2 in
  channelUids
  = omap (fun ui => if DashAlertNot.ID ui >? 0 then Some (lookup ui).1
                    else if decide (DashAlertNot.UID ui <> "") then Some (DashAlertNot.UID ui)
                    else None) notifications
  /\ lines
     = (fun _ => (Error, "Failed to get alert notification UID"))
         <$> filter (fun ui => 0 < DashAlertNot.ID ui /\ is_Some (lookup ui).2) notifications
  /\ length channelUids
     = length (filter (fun ui => 0 < DashAlertNot.ID ui \/ DashAlertNot.UID ui <> "")
                 notifications)
  /\ (Forall (fun ui => DashAlertNot.ID ui <= 0) notifications ->
      channelUids = filter (fun uid => uid <> "") (DashAlertNot.UID <$> notifications)
      /\ lines = []).
Proof.
  cbv zeta. unfold extractChannelUIDs.
  set (pick := fun ui : DashAlertNot.t =>
         if DashAlertNot.ID ui >? 0
         then Some (GetAlertNotificationUidWithId orgID (DashAlertNot.ID ui)).1
         else if decide (DashAlertNot.UID ui <> "") then Some (DashAlertNot.UID ui) else None).
  set (failed := fun ui : DashAlertNot.t =>
         0 < DashAlertNot.ID ui
         /\ is_Some (GetAlertNotificationUidWithId orgID (DashAlertNot.ID ui)).2).
  assert (Hstep : forall ui uids lines,
            extractChannelUID orgID (uids, lines) ui
            = (uids ++ option_list (pick ui),
               lines ++ (if decide (failed ui)
                         then [(Error, "Failed to get alert notification UID")] else []))).
  { intros ui uids lines. unfold extractChannelUID, pick, failed.
    destruct (Z.gtb_spec (DashAlertNot.ID ui) 0) as [Hpos|Hneg].
    - destruct (GetAlertNotificationUidWithId orgID (DashAlertNot.ID ui)) as [uid [e|]];
        cbn [fst snd option_list].
      + rewrite decide_True by (split; [lia | eexists; reflexivity]). reflexivity.
      + rewrite decide_False by (intros [_ [x Hx]]; discriminate Hx).
        rewrite app_nil_r. reflexivity.
    - rewrite (decide_False (P := _ /\ _)) by (intros [Hc _]; lia). rewrite app_nil_r.
      destruct (decide (DashAlertNot.UID ui <> "")); cbn [option_list];
        [reflexivity | rewrite app_nil_r; reflexivity]. }
  assert (Hloop : forall l uids lines,
            fold_left (extractChannelUID orgID) l (uids, lines)
            = (uids ++ omap pick l,
               lines ++ ((fun _ => (Error, "Failed to get alert notification UID"))
                           <$> filter failed l))).
  { induction l as [|ui l IH]; intros uids lines; cbn [fold_left].
    - cbn. rewrite !app_nil_r. reflexivity.
    - rewrite Hstep, IH, filter_cons. cbn [omap list_omap]. rewrite <- !app_assoc.
      destruct (pick ui), (decide (failed ui)); reflexivity. }
  rewrite Hloop. cbn [fst snd app]. split; [reflexivity|]. split; [reflexivity|]. split.
  - clear Hstep Hloop. induction notifications as [|ui l IH]; [reflexivity|].
    rewrite filter_cons. cbn [omap list_omap].
    assert (Hpick : is_Some (pick ui) <-> 0 < DashAlertNot.ID ui \/ DashAlertNot.UID ui <> "").
    { unfold pick. destruct (Z.gtb_spec (DashAlertNot.ID ui) 0) as [Hpos|Hneg].
      - split; [intros _; left; exact Hpos | intros _; eexists; reflexivity].
      - destruct (decide (DashAlertNot.UID ui <> "")) as [Hu|Hu].
        + split; [intros _; right; exact Hu | intros _; eexists; reflexivity].
        + split; [intros [x Hx]; discriminate Hx | intros [Hc|Hc]; [lia | contradiction]]. }
    destruct (pick ui) as [uid|].
    + rewrite decide_True by (apply Hpick; eexists; reflexivity).
      cbn [length]. rewrite IH. reflexivity.
    + rewrite decide_False by (intros Hc; apply Hpick in Hc as [x Hx]; discriminate Hx).
      exact IH.
  - clear Hstep Hloop. intros Hall.
    induction Hall as [|ui l Hneg Hall [IH1 IH2]]; [split; reflexivity|].
    rewrite fmap_cons, !filter_cons. cbn [omap list_omap]. cbv beta in Hneg.
    assert (Hpick : pick ui = if decide (DashAlertNot.UID ui <> "")
                              then Some (DashAlertNot.UID ui) else None).
    { unfold pick. destruct (Z.gtb_spec (DashAlertNot.ID ui) 0) as [Hpos|_]; [lia | reflexivity]. }
    rewrite Hpick.
    rewrite (decide_False (P := failed ui)) by (unfold failed; intros [Hc _]; lia).
    split; [|exact IH2].
    destruct (decide (DashAlertNot.UID ui <> "")); rewrite IH1; reflexivity.
Qed.

Lemma string_app_inj_r (s t u : string) : s +:+ u = t +:+ u -> s = t.
Proof.
  revert t. induction s as [|c s IH]; intros [|d t] Heq.
  - reflexivity.
  - apply (f_equal String.length) in Heq. rewrite !string_length_app in Heq.
    cbn [String.length] in Heq. lia.
  - apply (f_equal String.length) in Heq. rewrite !string_length_app in Heq.
    cbn [String.length] in Heq. lia.
  - change (String c (s +:+ u) = String d (t +:+ u)) in Heq. injection Heq as -> Heq.
    rewrite (IH t Heq). reflexivity.
Qed.

(** X23. The labels that [addLabelsAndAnnotations] gives a rule: the
    label that marks the use of the legacy channels is [true]; for every
    channel of the rule the contact label made from the UID of the channel
    is [true], and two channels have the same contact label only when they
    have the same UID; any other label is a tag of the alert, with the value
    of the last tag of that key. A tag never overrides a label of the first
    two kinds. The annotation [message] is the migrated message of the
    alert. *)
Theorem addLabelsAndAnnotations_labels `{LabelsPkg} (alert : Alert.t) (dashboardUID : string)
    (channels : list string) :
  let lbls := (addLabelsAndAnnotations alert dashboardUID channels).1 in
  let annotations := (addLabelsAndAnnotations alert dashboardUID channels).2 in
  lbls !! UseLegacyChannelsLabel = Some "true"
  /\ (forall c, c ∈ channels -> lbls !! ContactLabelTemplate c = Some "true")
  /\ (forall c c', ContactLabelTemplate c = ContactLabelTemplate c' -> c = c')
  /\ (forall k, k <> UseLegacyChannelsLabel ->
        (forall c, c ∈ channels -> k <> ContactLabelTemplate c) ->
        lbls !! k = Tag.Value <$> last (filter (fun t => Tag.Key t = k) (Alert.Tags alert)))
  /\ annotations !! "message" = Some (MigrateTmpl (Alert.Message alert)).
Proof.
  cbv zeta. unfold addLabelsAndAnnotations. cbn [fst snd].
  assert (Hchan : forall (l : list string) (m : gmap string string) k,
            fold_left (fun lbls c => <[ContactLabelTemplate c := "true"]> lbls) l m !! k
            = if decide (k ∈ ContactLabelTemplate <$> l) then Some "true" else m !! k).
  { induction l as [|c l IH]; intros m k; cbn [fold_left].
    - rewrite decide_False; [reflexivity|]. intros Hc. inversion Hc.
    - rewrite IH, fmap_cons. destruct (decide (k ∈ ContactLabelTemplate <$> l)) as [Hin|Hno].
      + rewrite decide_True by (right; exact Hin). reflexivity.
      + destruct (decide (k = ContactLabelTemplate c)) as [->|Hne].
        * rewrite lookup_insert_eq. rewrite decide_True by left. reflexivity.
        * rewrite lookup_insert_ne by congruence. rewrite decide_False; [reflexivity|].
          intros Hc. apply elem_of_cons in Hc as [Hc|Hc]; contradiction. }
  assert (Htags : forall (l : list Tag.t) (m : gmap string string) k,
            fold_left (fun lbls t => <[Tag.Key t := Tag.Value t]> lbls) l m !! k
            = match last (filter (fun t => Tag.Key t = k) l) with
              | Some t => Some (Tag.Value t)
              | None => m !! k
              end).
  { induction l as [|t l IH]; intros m k; cbn [fold_left]; [reflexivity|].
    rewrite IH, filter_cons. destruct (decide (Tag.Key t = k)) as [<-|Hne].
    - destruct (filter _ l) as [|t' l'] eqn:Hf; [cbn; apply lookup_insert_eq|].
      change (last (t :: t' :: l')) with (last (t' :: l')).
      destruct (last (t' :: l')) eqn:Hl; [reflexivity|].
      apply last_None in Hl. discriminate Hl.
    - destruct (last _); [reflexivity|]. apply lookup_insert_ne. exact Hne. }
  split; [|split; [|split; [|split]]].
  - rewrite Hchan. destruct (decide _); [reflexivity | apply lookup_insert_eq].
  - intros c Hc. rewrite Hchan. rewrite decide_True; [reflexivity|].
    apply list_elem_of_fmap_2, Hc.
  - intros c c' Heq. unfold ContactLabelTemplate in Heq.
    apply (String.app_inj "__contacts_") in Heq. apply string_app_inj_r in Heq. exact Heq.
  - intros k Hk Hnot. rewrite Hchan.
    rewrite decide_False
      by (intros Hin; apply list_elem_of_fmap in Hin as (c & Heq & Hc); exact (Hnot c Hc Heq)).
    rewrite lookup_insert_ne by congruence. rewrite Htags, lookup_empty.
    destruct (last _); reflexivity.
  - apply lookup_insert_eq.
Qed.
